(** * embedded-cli: a shallow embedding of [lib/src/embedded_cli.c]

    The engine works on fixed-size byte buffers with manual index
    arithmetic.  Buffers are lists of [ascii], the [uint16_t] and [uint8_t]
    fields are [Z] with the wrap-around of every store written out, and the
    flag words use [Z.land] / [Z.lor] exactly as the C macros do.  Each C
    function keeps its name. *)

From Stdlib Require Import ZArith Ascii String Lia Bool.
From stdpp Require Import base list.

Open Scope Z_scope.

(** ** Machine integers and raw buffers *)

Definition wrap8 (z : Z) : Z := z mod 256.
Definition wrap16 (z : Z) : Z := z mod 65536.

Definition NUL : ascii := Ascii.zero.

(** A C string literal. *)
Definition str (s : string) : list ascii := list_ascii_of_string s.

(** [b[i]] as an rvalue.  The engine never reads outside its regions when
    its size invariants hold; a read past the modelled region yields [NUL]. *)
Definition peek (b : list ascii) (i : nat) : ascii := default NUL (b !! i).

(** [b[i] = c]. *)
Definition poke (b : list ascii) (i : nat) (c : ascii) : list ascii := <[i := c]> b.

(** [strlen]: the number of bytes before the first terminator. *)
Fixpoint strlen (b : list ascii) : nat :=
  match b with
  | [] => 0%nat
  | c :: b' => if Ascii.eqb c NUL then 0%nat else S (strlen b')
  end.

(** The C string that starts at the beginning of [b]. *)
Fixpoint cstring (b : list ascii) : list ascii :=
  match b with
  | [] => []
  | c :: b' => if Ascii.eqb c NUL then [] else c :: cstring b'
  end.

(** [strcmp(a, b) == 0] on two C strings already cut at their terminator. *)
Fixpoint streq (a b : list ascii) : bool :=
  match a, b with
  | [], [] => true
  | x :: a', y :: b' => Ascii.eqb x y && streq a' b'
  | _, _ => false
  end.

(** [memmove(&b[dst], &b[src], n)]: the source bytes are read first, so the
    regions may overlap. *)
Definition memmove (b : list ascii) (dst src n : nat) : list ascii :=
  let chunk := take n (drop src b) in
  take dst b ++ chunk ++ drop (dst + length chunk) b.

Lemma streq_eq a b : streq a b = true <-> a = b.
Proof.
  revert b; induction a as [|x a IH]; intros [|y b]; simpl; split;
    try congruence; try discriminate.
  - rewrite andb_true_iff, Ascii.eqb_eq, IH. intros [-> ->]; reflexivity.
  - intros [= -> ->]. rewrite andb_true_iff, Ascii.eqb_eq, IH. auto.
Qed.

Lemma streq_refl a : streq a a = true.
Proof. apply streq_eq; reflexivity. Qed.

Lemma peek_app_l (a b : list ascii) (i : nat) :
  (i < length a)%nat -> peek (a ++ b) i = peek a i.
Proof. intros H. unfold peek. now rewrite lookup_app_l. Qed.

Lemma peek_app_r (a b : list ascii) (i : nat) :
  (length a <= i)%nat -> peek (a ++ b) i = peek b (i - length a).
Proof. intros H. unfold peek. now rewrite lookup_app_r. Qed.

(** ** The receive ring buffer ([struct FifoBuf]) *)

Module Fifo.

Record FifoBuf := mkFifo {
  buf : list ascii;
  front : Z;   (* position of the first element *)
  back : Z;    (* position after the last element *)
  size : Z     (* size of the backing array *)
}.

Definition fifoBufAvailable (b : FifoBuf) : Z :=
  if back b >=? front b then wrap16 (back b - front b)
  else wrap16 (size b - front b + back b).

Definition fifoBufPop (b : FifoBuf) : ascii * FifoBuf :=
  if negb (front b =? back b) then
    (peek (buf b) (Z.to_nat (front b)),
     mkFifo (buf b) (wrap16 ((front b + 1) mod size b)) (back b) (size b))
  else (NUL, b).

Definition fifoBufPush (b : FifoBuf) (a : ascii) : bool * FifoBuf :=
  let newBack := (back b + 1) mod size b in
  if negb (newBack =? front b) then
    (true, mkFifo (poke (buf b) (Z.to_nat (back b)) a) (front b) (wrap16 newBack) (size b))
  else (false, b).

(** The representation invariant established by [embeddedCliNew]. *)
Definition wf (b : FifoBuf) : Prop :=
  0 < size b < 65536 /\ length (buf b) = Z.to_nat (size b) /\
  0 <= front b < size b /\ 0 <= back b < size b.

(** The bytes the buffer holds, oldest first: [n] cells read cyclically
    from [start]. *)
Fixpoint ring (mem : list ascii) (sz start : Z) (n : nat) : list ascii :=
  match n with
  | O => []
  | S n' => peek mem (Z.to_nat start) :: ring mem sz ((start + 1) mod sz) n'
  end.

Definition contents (b : FifoBuf) : list ascii :=
  ring (buf b) (size b) (front b) (Z.to_nat (fifoBufAvailable b)).

(** A sequence of operations and what each returns. *)
Inductive op := Push (a : ascii) | Pop.
Inductive ret := Pushed (ok : bool) | Popped (a : ascii).

Fixpoint run (ops : list op) (b : FifoBuf) : list ret * FifoBuf :=
  match ops with
  | [] => ([], b)
  | Push a :: ops' =>
      let '(ok, b1) := fifoBufPush b a in
      let '(rs, b2) := run ops' b1 in (Pushed ok :: rs, b2)
  | Pop :: ops' =>
      let '(a, b1) := fifoBufPop b in
      let '(rs, b2) := run ops' b1 in (Popped a :: rs, b2)
  end.

(** The specification's queue: a list bounded by [cap] outstanding bytes,
    oldest first.  A push on a full queue is refused, a pop on an empty one
    yields the zero byte. *)
Fixpoint queue_run (cap : nat) (ops : list op) (q : list ascii) : list ret :=
  match ops with
  | [] => []
  | Push a :: ops' =>
      if (length q <? cap)%nat then Pushed true :: queue_run cap ops' (q ++ [a])
      else Pushed false :: queue_run cap ops' q
  | Pop :: ops' =>
      match q with
      | [] => Popped NUL :: queue_run cap ops' []
      | a :: q' => Popped a :: queue_run cap ops' q'
      end
  end.

End Fifo.

(** ** The in-place tokenizer and the token accessors *)

Module Tokens.

(** [strchr(separators, c) != NULL] with [separators = " "].  [strchr] also
    finds the terminator of [separators], so the zero byte counts as a
    separator as well as the space. *)
Definition isSeparatorChar (c : ascii) : bool :=
  Ascii.eqb c " " || Ascii.eqb c NUL.

(** [for (int i = 0; i < len; ++i) if (strchr(separators, args[i])) args[i] = '\0';]
    with [n] iterations left. *)
Fixpoint replaceLoop (n i : nat) (args : list ascii) : list ascii :=
  match n with
  | O => args
  | S n' =>
      replaceLoop n' (S i)
        (if isSeparatorChar (peek args i) then poke args i NUL else args)
  end.

(** [while (i > 0) { --i; ... }]: the right-to-left pass that closes the gaps
    left by runs of separators. *)
Fixpoint compressLoop (i : nat) (args : list ascii) (nextTokenStartIndex len : nat)
  : list ascii * nat :=
  match i with
  | O => (args, nextTokenStartIndex)
  | S i' =>
      let isSeparator := isSeparatorChar (peek args i') in
      if negb isSeparator && Ascii.eqb (peek args (i' + 1)) NUL then
        if negb (nextTokenStartIndex =? 0)%nat && (2 <? nextTokenStartIndex - i')%nat then
          compressLoop i'
            (memmove args (i' + 2) nextTokenStartIndex (len - nextTokenStartIndex + 1))
            nextTokenStartIndex len
        else compressLoop i' args nextTokenStartIndex len
      else if isSeparator && negb (Ascii.eqb (peek args (i' + 1)) NUL) then
        compressLoop i' args (i' + 1)%nat len
      else compressLoop i' args nextTokenStartIndex len
  end.

(** [embeddedCliTokenizeArgs(args)] for a non-null [args]; the argument is
    the memory from [args] onwards.  (A null [args] returns at once; callers
    model that case with [option].) *)
Definition embeddedCliTokenizeArgs (args : list ascii) : list ascii :=
  let len := strlen args in
  let args := poke args (len + 1) NUL in
  if (len =? 0)%nat then args
  else
    let args := replaceLoop len 0 args in
    let '(args, nextTokenStartIndex) := compressLoop len args 0 len in
    if Ascii.eqb (peek args 0) NUL && (0 <? nextTokenStartIndex)%nat then
      memmove args 0 nextTokenStartIndex (len - nextTokenStartIndex + 1)
    else args.

(** What a token accessor returns: a pointer into the string (as an offset),
    the null pointer, or no defined result because the scan left the
    modelled memory without meeting the double terminator. *)
Inductive tokenRef := Token (off : nat) | NoToken | OutOfBounds.

(** The scan of [embeddedCliGetToken]; [s] is the memory from index [i] on.
    The result is the index at which the loop breaks. *)
Fixpoint getTokenLoop (s : list ascii) (i : nat) (tokenCount pos : Z) : option nat :=
  if tokenCount =? pos then Some i
  else
    match s with
    | [] => None
    | c :: s' =>
        if Ascii.eqb c NUL then
          match s' with
          | [] => None
          | c' :: _ =>
              if Ascii.eqb c' NUL then Some i
              else getTokenLoop s' (S i) (tokenCount + 1) pos
          end
        else getTokenLoop s' (S i) tokenCount pos
    end.

(** [embeddedCliGetToken(tokenizedStr, pos)], [pos] being a [uint8_t]. *)
Definition embeddedCliGetToken (tokenizedStr : list ascii) (pos : Z) : tokenRef :=
  let pos := wrap8 pos in
  if pos =? 0 then NoToken
  else
    match getTokenLoop tokenizedStr 0 1 pos with
    | None => OutOfBounds
    | Some i =>
        match tokenizedStr !! i with
        | None => OutOfBounds
        | Some c => if negb (Ascii.eqb c NUL) then Token i else NoToken
        end
    end.

(** The scan of [embeddedCliGetTokenCount]. *)
Fixpoint countLoop (s : list ascii) (tokenCount : Z) : option Z :=
  match s with
  | [] => None
  | c :: s' =>
      if Ascii.eqb c NUL then
        match s' with
        | [] => None
        | c' :: _ =>
            if Ascii.eqb c' NUL then Some tokenCount
            else countLoop s' (tokenCount + 1)
        end
      else countLoop s' tokenCount
  end.

(** [embeddedCliGetTokenCount(tokenizedStr)]; the count is returned as a
    [uint8_t].  [None] when the scan leaves the modelled memory. *)
Definition embeddedCliGetTokenCount (tokenizedStr : list ascii) : option Z :=
  match tokenizedStr with
  | [] => None
  | c :: _ =>
      if Ascii.eqb c NUL then Some 0
      else option_map wrap8 (countLoop tokenizedStr 1)
  end.

(** The token a [tokenRef] points at. *)
Definition tokenAt (tokenizedStr : list ascii) (r : tokenRef) : option (list ascii) :=
  match r with
  | Token off => Some (cstring (drop off tokenizedStr))
  | _ => None
  end.

(** The specification's reading of a space-delimited line: its words, the
    maximal runs of bytes other than the separator. *)
Fixpoint words_aux (cur : list ascii) (s : list ascii) : list (list ascii) :=
  match s with
  | [] => match cur with [] => [] | _ => [rev cur] end
  | c :: s' =>
      if Ascii.eqb c " " then
        match cur with [] => words_aux [] s' | _ => rev cur :: words_aux [] s' end
      else words_aux (c :: cur) s'
  end.

Definition words (s : list ascii) : list (list ascii) := words_aux [] s.

(** The specification's normalized layout of a token list: every token
    followed by one terminator, then one extra terminator. *)
Definition layout (ts : list (list ascii)) : list ascii :=
  concat (map (fun t => t ++ [NUL]) ts) ++ [NUL].

(** The specification's "separator to terminator substitution". *)
Definition substituteSeparators (s : list ascii) : list ascii :=
  map (fun c => if Ascii.eqb c " " then NUL else c) s.

(** No two consecutive separators. *)
Fixpoint noAdjacentSeparators (s : list ascii) : bool :=
  match s with
  | c1 :: s' =>
      match s' with
      | c2 :: _ => negb (Ascii.eqb c1 " " && Ascii.eqb c2 " ") && noAdjacentSeparators s'
      | [] => true
      end
  | [] => true
  end.

Definition startsWithSeparator (s : list ascii) : bool :=
  match s with
  | c :: _ => Ascii.eqb c " "
  | [] => false
  end.

(** The string holds no terminator of its own. *)
Definition noNul (s : list ascii) : Prop := Forall (fun c => c <> NUL) s.

(** The loop of [embeddedCliFindToken]: [for (int i = 0; i < size; ++i)], with
    [n] iterations left.  [strcmp] on a null token reference has no defined
    result. *)
Fixpoint findTokenLoop (n : nat) (i : Z) (tokenizedStr token : list ascii) : option Z :=
  match n with
  | O => Some 0
  | S n' =>
      match embeddedCliGetToken tokenizedStr (i + 1) with
      | Token off =>
          if streq (cstring (drop off tokenizedStr)) token then Some (wrap8 (i + 1))
          else findTokenLoop n' (i + 1) tokenizedStr token
      | _ => None
      end
  end.

(** [embeddedCliFindToken(tokenizedStr, token)]; [None] on either side is
    the null pointer, [token] is the string without its terminator.  The
    result is [None] when the call has no defined result. *)
Definition embeddedCliFindToken (tokenizedStr token : option (list ascii)) : option Z :=
  match tokenizedStr, token with
  | Some s, Some t =>
      match embeddedCliGetTokenCount s with
      | Some size => findTokenLoop (Z.to_nat size) 0 s t
      | None => None
      end
  | _, _ => Some 0
  end.

(** A list of tokens as the tokenizer produces them: no token is empty and
    none holds a terminator. *)
Definition tokenList (ts : list (list ascii)) : Prop :=
  Forall (fun t => t <> [] /\ noNul t) ts.

(** The tokens laid out one after the other, each with its terminator. *)
Definition tokenBytes (ts : list (list ascii)) : list ascii :=
  concat (map (fun t => t ++ [NUL]) ts).

End Tokens.

(** ** The history store ([struct CliHistory]) *)

Module History.
Import Tokens.

(** [size_t] arithmetic.  The width is the platform's (64 bits here);
    nothing proved below depends on it. *)
Definition wrapSizeT (z : Z) : Z := z mod 2 ^ 64.

Record CliHistory := mkHistory {
  buf : option (list ascii);   (* items separated by null-chars; [None] is NULL *)
  bufferSize : Z;              (* total size of the buffer *)
  itemsCount : Z               (* number of items, the most recent is item 1 *)
}.

(** [historyGet].  [embeddedCliGetToken] returns NULL for a null string. *)
Definition historyGet (history : CliHistory) (item : Z) : tokenRef :=
  if (item =? 0) || (item >? itemsCount history) then NoToken
  else
    match buf history with
    | None => NoToken
    | Some b => embeddedCliGetToken b item
    end.

(** The outcome of [historyPut]: it returns, or it runs into undefined
    behaviour ([strlen] of a null item, a copy to a null buffer). *)
Inductive putResult := Undefined | Returned (ok : bool) (history : CliHistory).

(** [while (true) { ... --history->itemsCount; }].  Every iteration that
    does not break takes one item away and the loop dereferences the null
    item once none is left, so [itemsCount] iterations of fuel are enough. *)
Fixpoint evictLoop (fuel : nat) (history : CliHistory) (len : Z)
  : option (Z * CliHistory) :=
  match historyGet history (itemsCount history), buf history with
  | Token off, Some b =>
      let itemLen := Z.of_nat (strlen (drop off b)) in
      let usedSize := wrapSizeT (Z.of_nat off + itemLen + 1) in
      let freeSpace := wrapSizeT (bufferSize history - usedSize) in
      if freeSpace >=? len + 1 then Some (usedSize, history)
      else
        match fuel with
        | O => None
        | S fuel' =>
            evictLoop fuel'
              (mkHistory (buf history) (bufferSize history)
                         (wrap16 (itemsCount history - 1))) len
        end
  | _, _ => None
  end.

(** [historyPut(history, str)]; [str] is the string without its terminator. *)
Definition historyPut (history : CliHistory) (str : list ascii) : putResult :=
  let len := Z.of_nat (length str) in
  if bufferSize history <? len + 1 then Returned false history
  else
    match evictLoop (Z.to_nat (itemsCount history)) history len with
    | None => Undefined
    | Some (usedSize, h) =>
        match buf h with
        | None => Undefined
        | Some b =>
            let b1 :=
              if itemsCount h >? 0
              then memmove b (Z.to_nat (len + 1)) 0 (Z.to_nat usedSize)
              else b in
            let b2 := (str ++ [NUL]) ++ drop (Z.to_nat (len + 1)) b1 in
            Returned true (mkHistory (Some b2) (bufferSize h) (itemsCount h))
        end
    end.

End History.

(** ** The engine ([struct EmbeddedCli] and [struct EmbeddedCliImpl]) *)

Module Cli.
Import Fifo Tokens History.

Definition BINDING_FLAG_AUTOCOMPLETE : Z := 1.
Definition CLI_FLAG_OVERFLOW : Z := 1.
Definition CLI_FLAG_INIT_COMPLETE : Z := 2.
Definition CLI_FLAG_ALLOCATED : Z := 4.
Definition CLI_FLAG_ESCAPE_MODE : Z := 8.

(** The flag macros, on a [uint8_t] word. *)
Definition IS_FLAG_SET (flags flag : Z) : bool := negb (Z.land flags flag =? 0).
Definition SET_FLAG (flags flag : Z) : Z := wrap8 (Z.lor flags flag).
Definition UNSET_FLAG (flags flag : Z) : Z := wrap8 (Z.land flags (Z.lnot flag)).

Definition cliInternalBindingCount : Z := 1.

Definition CR : ascii := "013".
Definition LF : ascii := "010".
Definition BS : ascii := "008".
Definition TAB : ascii := "009".
Definition ESC : ascii := "027".
Definition DEL : ascii := "127".
Definition dquote : ascii := "034".

Definition lineBreak : list ascii := [CR; LF].

(** The handlers a binding can point at: the built-in [onHelp] or a
    function of the application, known by an identifier. *)
Inductive handler := onHelpHandler | appHandler (id : nat).

(** [CliCommandBinding], with the fields in the order of the initializer in
    [initInternalBindings].  [embedded_cli.h] is outside the sources at
    hand; the fields are those the engine reads. *)
Record CliCommandBinding := mkBinding {
  name : list ascii;
  help : option (list ascii);
  tokenizeArgs : bool;
  context : Z;
  binding : option handler
}.

(** What the application observes: a call of a binding's handler with the
    argument memory it is handed (up to the two reserved bytes), or a call
    of the [onCommand] callback with a [CliCommand]. *)
Inductive event :=
| BindingCalled (index : nat) (h : handler) (args : option (list ascii)) (context : Z)
| CommandReceived (name : list ascii) (args : option (list ascii)).

(** Both C structs in one record.  [onCommand] and [writeChar] tell whether
    the callback pointers are set.  The last three fields are observations:
    the bytes handed to [writeChar], the callbacks invoked, and whether the
    run has left defined behaviour (a call through a null [writeChar], a
    store outside the command buffer). *)
Record EmbeddedCli := mkCli {
  onCommand : bool;
  writeChar : bool;
  invitation : list ascii;
  history : CliHistory;
  rxBuffer : FifoBuf;
  cmdBuffer : list ascii;
  cmdSize : Z;
  cmdMaxSize : Z;
  bindings : list CliCommandBinding;
  bindingsFlags : list Z;
  bindingsCount : Z;
  maxBindingsCount : Z;
  lastChar : ascii;
  inputLineLength : Z;
  flags : Z;
  output : list ascii;
  events : list event;
  fault : bool
}.

Definition set_onCommand (v : bool) (cli : EmbeddedCli) : EmbeddedCli :=
  mkCli v (writeChar cli) (invitation cli) (history cli) (rxBuffer cli) (cmdBuffer cli) (cmdSize cli) (cmdMaxSize cli) (bindings cli) (bindingsFlags cli) (bindingsCount cli) (maxBindingsCount cli) (lastChar cli) (inputLineLength cli) (flags cli) (output cli) (events cli) (fault cli).
Definition set_writeChar (v : bool) (cli : EmbeddedCli) : EmbeddedCli :=
  mkCli (onCommand cli) v (invitation cli) (history cli) (rxBuffer cli) (cmdBuffer cli) (cmdSize cli) (cmdMaxSize cli) (bindings cli) (bindingsFlags cli) (bindingsCount cli) (maxBindingsCount cli) (lastChar cli) (inputLineLength cli) (flags cli) (output cli) (events cli) (fault cli).
Definition set_rxBuffer (v : FifoBuf) (cli : EmbeddedCli) : EmbeddedCli :=
  mkCli (onCommand cli) (writeChar cli) (invitation cli) (history cli) v (cmdBuffer cli) (cmdSize cli) (cmdMaxSize cli) (bindings cli) (bindingsFlags cli) (bindingsCount cli) (maxBindingsCount cli) (lastChar cli) (inputLineLength cli) (flags cli) (output cli) (events cli) (fault cli).
Definition set_cmdBuffer (v : list ascii) (cli : EmbeddedCli) : EmbeddedCli :=
  mkCli (onCommand cli) (writeChar cli) (invitation cli) (history cli) (rxBuffer cli) v (cmdSize cli) (cmdMaxSize cli) (bindings cli) (bindingsFlags cli) (bindingsCount cli) (maxBindingsCount cli) (lastChar cli) (inputLineLength cli) (flags cli) (output cli) (events cli) (fault cli).
Definition set_cmdSize (v : Z) (cli : EmbeddedCli) : EmbeddedCli :=
  mkCli (onCommand cli) (writeChar cli) (invitation cli) (history cli) (rxBuffer cli) (cmdBuffer cli) v (cmdMaxSize cli) (bindings cli) (bindingsFlags cli) (bindingsCount cli) (maxBindingsCount cli) (lastChar cli) (inputLineLength cli) (flags cli) (output cli) (events cli) (fault cli).
Definition set_bindings (v : list CliCommandBinding) (cli : EmbeddedCli) : EmbeddedCli :=
  mkCli (onCommand cli) (writeChar cli) (invitation cli) (history cli) (rxBuffer cli) (cmdBuffer cli) (cmdSize cli) (cmdMaxSize cli) v (bindingsFlags cli) (bindingsCount cli) (maxBindingsCount cli) (lastChar cli) (inputLineLength cli) (flags cli) (output cli) (events cli) (fault cli).
Definition set_bindingsFlags (v : list Z) (cli : EmbeddedCli) : EmbeddedCli :=
  mkCli (onCommand cli) (writeChar cli) (invitation cli) (history cli) (rxBuffer cli) (cmdBuffer cli) (cmdSize cli) (cmdMaxSize cli) (bindings cli) v (bindingsCount cli) (maxBindingsCount cli) (lastChar cli) (inputLineLength cli) (flags cli) (output cli) (events cli) (fault cli).
Definition set_bindingsCount (v : Z) (cli : EmbeddedCli) : EmbeddedCli :=
  mkCli (onCommand cli) (writeChar cli) (invitation cli) (history cli) (rxBuffer cli) (cmdBuffer cli) (cmdSize cli) (cmdMaxSize cli) (bindings cli) (bindingsFlags cli) v (maxBindingsCount cli) (lastChar cli) (inputLineLength cli) (flags cli) (output cli) (events cli) (fault cli).
Definition set_lastChar (v : ascii) (cli : EmbeddedCli) : EmbeddedCli :=
  mkCli (onCommand cli) (writeChar cli) (invitation cli) (history cli) (rxBuffer cli) (cmdBuffer cli) (cmdSize cli) (cmdMaxSize cli) (bindings cli) (bindingsFlags cli) (bindingsCount cli) (maxBindingsCount cli) v (inputLineLength cli) (flags cli) (output cli) (events cli) (fault cli).
Definition set_inputLineLength (v : Z) (cli : EmbeddedCli) : EmbeddedCli :=
  mkCli (onCommand cli) (writeChar cli) (invitation cli) (history cli) (rxBuffer cli) (cmdBuffer cli) (cmdSize cli) (cmdMaxSize cli) (bindings cli) (bindingsFlags cli) (bindingsCount cli) (maxBindingsCount cli) (lastChar cli) v (flags cli) (output cli) (events cli) (fault cli).
Definition set_flags (v : Z) (cli : EmbeddedCli) : EmbeddedCli :=
  mkCli (onCommand cli) (writeChar cli) (invitation cli) (history cli) (rxBuffer cli) (cmdBuffer cli) (cmdSize cli) (cmdMaxSize cli) (bindings cli) (bindingsFlags cli) (bindingsCount cli) (maxBindingsCount cli) (lastChar cli) (inputLineLength cli) v (output cli) (events cli) (fault cli).
Definition set_output (v : list ascii) (cli : EmbeddedCli) : EmbeddedCli :=
  mkCli (onCommand cli) (writeChar cli) (invitation cli) (history cli) (rxBuffer cli) (cmdBuffer cli) (cmdSize cli) (cmdMaxSize cli) (bindings cli) (bindingsFlags cli) (bindingsCount cli) (maxBindingsCount cli) (lastChar cli) (inputLineLength cli) (flags cli) v (events cli) (fault cli).
Definition set_events (v : list event) (cli : EmbeddedCli) : EmbeddedCli :=
  mkCli (onCommand cli) (writeChar cli) (invitation cli) (history cli) (rxBuffer cli) (cmdBuffer cli) (cmdSize cli) (cmdMaxSize cli) (bindings cli) (bindingsFlags cli) (bindingsCount cli) (maxBindingsCount cli) (lastChar cli) (inputLineLength cli) (flags cli) (output cli) v (fault cli).
Definition set_fault (v : bool) (cli : EmbeddedCli) : EmbeddedCli :=
  mkCli (onCommand cli) (writeChar cli) (invitation cli) (history cli) (rxBuffer cli) (cmdBuffer cli) (cmdSize cli) (cmdMaxSize cli) (bindings cli) (bindingsFlags cli) (bindingsCount cli) (maxBindingsCount cli) (lastChar cli) (inputLineLength cli) (flags cli) (output cli) (events cli) v.

Record AutocompletedCommand := mkAuto {
  firstCandidate : option (list ascii);
  autocompletedLen : Z;
  candidateCount : Z
}.

Record EmbeddedCliConfig := mkConfig {
  rxBufferSize : Z;
  cmdBufferSize : Z;
  historyBufferSize : Z;
  maxBindingCount : Z;
  cliBuffer : option Z;    (* address of the caller's block, [None] is NULL *)
  cliBufferSize : Z
}.

(** The [sizeof] values the layout depends on. *)
Record Platform := mkPlatform {
  sizeofEmbeddedCli : Z;
  sizeofEmbeddedCliImpl : Z;
  sizeofCliCommandBinding : Z
}.

(** Where [embeddedCliNew] puts each region of the block. *)
Record Arena := mkArena {
  cliAddr : Z;
  implAddr : Z;
  rxBufferAddr : Z;
  cmdBufferAddr : Z;
  bindingsAddr : Z;
  bindingsFlagsAddr : Z;
  historyBufAddr : option Z
}.

Definition charCode (c : ascii) : Z := Z.of_N (N_of_ascii c).

(** [cli->writeChar(cli, c)]. *)
Definition callWriteChar (cli : EmbeddedCli) (c : ascii) : EmbeddedCli :=
  if writeChar cli then set_output (output cli ++ [c]) cli else set_fault true cli.

Definition writeToOutput (cli : EmbeddedCli) (s : list ascii) : EmbeddedCli :=
  foldl callWriteChar cli s.

(** [n] calls of [writeChar] with the same byte. *)
Fixpoint writeRepeated (n : nat) (c : ascii) (cli : EmbeddedCli) : EmbeddedCli :=
  match n with
  | O => cli
  | S n' => writeRepeated n' c (callWriteChar cli c)
  end.

(** [impl->cmdBuffer[i] = c]. *)
Definition storeCmd (cli : EmbeddedCli) (i : Z) (c : ascii) : EmbeddedCli :=
  if (Z.to_nat i <? length (cmdBuffer cli))%nat
  then set_cmdBuffer (poke (cmdBuffer cli) (Z.to_nat i) c) cli
  else set_fault true cli.

Definition isControlChar (c : ascii) : bool :=
  Ascii.eqb c CR || Ascii.eqb c LF || Ascii.eqb c BS || Ascii.eqb c TAB ||
  (charCode c =? 127).

(** [c >= 32 && c <= 126]; a byte above 127 fails the test whether [char]
    is signed or not. *)
Definition isDisplayableChar (c : ascii) : bool :=
  (32 <=? charCode c) && (charCode c <=? 126).

Definition embeddedCliDefaultConfig : EmbeddedCliConfig :=
  mkConfig 64 64 128 8 None 0.

(** The sum is formed in [size_t] and returned as [uint16_t]. *)
Definition embeddedCliRequiredSize (P : Platform) (config : EmbeddedCliConfig) : Z :=
  let bindingCount := wrap16 (maxBindingCount config + cliInternalBindingCount) in
  wrap16 (sizeofEmbeddedCli P + sizeofEmbeddedCliImpl P +
          rxBufferSize config * 1 +
          cmdBufferSize config * 1 +
          historyBufferSize config * 1 +
          bindingCount * sizeofCliCommandBinding P +
          bindingCount * 1).

Definition embeddedCliAddBinding (cli : EmbeddedCli) (b : CliCommandBinding)
  : bool * EmbeddedCli :=
  if bindingsCount cli =? maxBindingsCount cli then (false, cli)
  else
    (true,
     set_bindingsCount (wrap16 (bindingsCount cli + 1))
       (set_bindings (<[Z.to_nat (bindingsCount cli) := b]> (bindings cli)) cli)).

Definition helpBinding : CliCommandBinding :=
  mkBinding (str "help") (Some (str "Print list of commands")) true 0 (Some onHelpHandler).

Definition initInternalBindings (cli : EmbeddedCli) : EmbeddedCli :=
  snd (embeddedCliAddBinding cli helpBinding).

(** A binding slot after [memset(buf, 0, totalSize)]. *)
Definition zeroBinding : CliCommandBinding := mkBinding [] None false 0 None.

(** The addresses [embeddedCliNew] hands out, [base] being the block. *)
Definition carve (P : Platform) (config : EmbeddedCliConfig) (base : Z) : Arena :=
  let bindingCount := wrap16 (maxBindingCount config + cliInternalBindingCount) in
  let cli := base in
  let buf := base + sizeofEmbeddedCli P in
  let impl := buf in
  let buf := buf + sizeofEmbeddedCliImpl P in
  let rx := buf in
  let buf := buf + rxBufferSize config * 1 in
  let cmd := buf in
  let buf := buf + cmdBufferSize config * 1 in
  let bnd := buf in
  let buf := buf + bindingCount * sizeofCliCommandBinding P in
  mkArena cli impl rx cmd bnd buf None.

(** [embeddedCliNew(config)].  [mallocResult] is what [malloc] answers when
    it is called.  The result is the block's layout and the engine, or
    [None] for the null handle.  The engine's regions are buffers of their
    own here: this is the engine of the C code as long as the carved
    layout ends inside the block, which [layoutFits] below ensures. *)
Definition embeddedCliNew (P : Platform) (config : EmbeddedCliConfig)
    (mallocResult : option Z) : option (Arena * EmbeddedCli) :=
  let bindingCount := wrap16 (maxBindingCount config + cliInternalBindingCount) in
  let totalSize := embeddedCliRequiredSize P config in
  let block :=
    match cliBuffer config with
    | None =>
        match mallocResult with
        | None => None
        | Some a => Some (a, true)
        end
    | Some a => if cliBufferSize config <? totalSize then None else Some (a, false)
    end in
  match block with
  | None => None
  | Some (base, allocated) =>
      let cli :=
        mkCli false false (str "> ")
          (mkHistory None 0 0)
          (mkFifo (replicate (Z.to_nat (rxBufferSize config)) NUL) 0 0 (rxBufferSize config))
          (replicate (Z.to_nat (cmdBufferSize config)) NUL)
          0 (cmdBufferSize config)
          (replicate (Z.to_nat bindingCount) zeroBinding)
          (replicate (Z.to_nat bindingCount) 0)
          0 (wrap16 (maxBindingCount config + cliInternalBindingCount))
          NUL 0
          (if allocated then SET_FLAG 0 CLI_FLAG_ALLOCATED else 0)
          [] [] false in
      Some (carve P config base, initInternalBindings cli)
  end.

Definition embeddedCliReceiveChar (cli : EmbeddedCli) (c : ascii) : EmbeddedCli :=
  let '(ok, rx) := fifoBufPush (rxBuffer cli) c in
  let cli := set_rxBuffer rx cli in
  if negb ok then set_flags (SET_FLAG (flags cli) CLI_FLAG_OVERFLOW) cli else cli.

Definition onEscapedInput (cli : EmbeddedCli) (c : ascii) : EmbeddedCli :=
  if (64 <=? charCode c) && (charCode c <=? 126)
  then set_flags (UNSET_FLAG (flags cli) CLI_FLAG_ESCAPE_MODE) cli
  else cli.

Definition onCharInput (cli : EmbeddedCli) (c : ascii) : EmbeddedCli :=
  (* two extra chars are reserved for the command ending *)
  if cmdSize cli + 2 >=? cmdMaxSize cli then cli
  else
    let cli := storeCmd cli (cmdSize cli) c in
    let cli := set_cmdSize (wrap16 (cmdSize cli + 1)) cli in
    if writeChar cli then callWriteChar cli c else cli.

Definition clearCurrentLine (cli : EmbeddedCli) : EmbeddedCli :=
  let len := inputLineLength cli + Z.of_nat (length (invitation cli)) in
  let cli := callWriteChar cli CR in
  let cli := writeRepeated (Z.to_nat len) " "%char cli in
  let cli := callWriteChar cli CR in
  set_inputLineLength 0 cli.

Definition onUnknownCommand (cli : EmbeddedCli) (name : list ascii) : EmbeddedCli :=
  let cli := writeToOutput cli (str "Unknown command: " ++ [dquote]) in
  let cli := writeToOutput cli name in
  let cli := writeToOutput cli
    ([dquote] ++ str ". Write " ++ [dquote] ++ str "help" ++ [dquote] ++
     str " for a list of available commands") in
  writeToOutput cli lineBreak.

(** [for (int j = 0; j < prefixLen; ++j) if (prefix[j] != name[j]) ...] *)
Fixpoint isCandidate (n j : nat) (prefix name : list ascii) : bool :=
  match n with
  | O => true
  | S n' =>
      if negb (Ascii.eqb (peek prefix j) (peek name j)) then false
      else isCandidate n' (S j) prefix name
  end.

(** [for (int j = impl->cmdSize; j < cmd.autocompletedLen; ++j)
       if (cmd.firstCandidate[j] != name[j]) { cmd.autocompletedLen = j; break; }]
    with [n] iterations left. *)
Fixpoint sharedLen (n : nat) (j : Z) (first name : list ascii) (autocompletedLen : Z) : Z :=
  match n with
  | O => autocompletedLen
  | S n' =>
      if negb (Ascii.eqb (peek first (Z.to_nat j)) (peek name (Z.to_nat j))) then j
      else sharedLen n' (j + 1) first name autocompletedLen
  end.

(** The loop of [getAutocompletedCommand] over the bindings from index [i];
    [bs] are the bindings still to visit. *)
Fixpoint autocompleteLoop (bs : list CliCommandBinding) (i : nat)
    (prefix : list ascii) (prefixLen : nat) (cmdSize : Z)
    (bflags : list Z) (cmd : AutocompletedCommand)
  : AutocompletedCommand * list Z :=
  match bs with
  | [] => (cmd, bflags)
  | b :: bs' =>
      let nm := name b in
      let len := length nm in
      (* unset autocomplete flag *)
      let bflags :=
        <[i := UNSET_FLAG (default 0 (bflags !! i)) BINDING_FLAG_AUTOCOMPLETE]> bflags in
      if (len <? prefixLen)%nat then
        autocompleteLoop bs' (S i) prefix prefixLen cmdSize bflags cmd
      else if negb (isCandidate prefixLen 0 prefix nm) then
        autocompleteLoop bs' (S i) prefix prefixLen cmdSize bflags cmd
      else
        let bflags :=
          <[i := SET_FLAG (default 0 (bflags !! i)) BINDING_FLAG_AUTOCOMPLETE]> bflags in
        let alen :=
          if (candidateCount cmd =? 0) || (Z.of_nat len <? autocompletedLen cmd)
          then Z.of_nat len else autocompletedLen cmd in
        let count := wrap16 (candidateCount cmd + 1) in
        if count =? 1 then
          autocompleteLoop bs' (S i) prefix prefixLen cmdSize bflags
            (mkAuto (Some nm) alen count)
        else
          let first := default [] (firstCandidate cmd) in
          let alen := sharedLen (Z.to_nat (alen - cmdSize)) cmdSize first nm alen in
          autocompleteLoop bs' (S i) prefix prefixLen cmdSize bflags
            (mkAuto (firstCandidate cmd) alen count)
  end.

(** [getAutocompletedCommand(cli, prefix)]: the result and the per-binding
    flags it leaves behind. *)
Definition getAutocompletedCommand (cli : EmbeddedCli) (prefix : list ascii)
  : AutocompletedCommand * list Z :=
  let cmd := mkAuto None 0 0 in
  let prefixLen := strlen prefix in
  if (bindingsCount cli =? 0) || (prefixLen =? 0)%nat then (cmd, bindingsFlags cli)
  else
    autocompleteLoop (take (Z.to_nat (bindingsCount cli)) (bindings cli)) 0
      prefix prefixLen (cmdSize cli) (bindingsFlags cli) cmd.

(** [for (int i = from; i < to; ++i) cli->writeChar(cli, s[i]);] *)
Fixpoint writeRange (n : nat) (i : nat) (s : list ascii) (cli : EmbeddedCli) : EmbeddedCli :=
  match n with
  | O => cli
  | S n' => writeRange n' (S i) s (callWriteChar cli (peek s i))
  end.

Definition printLiveAutocompletion (cli : EmbeddedCli) : EmbeddedCli :=
  let cli := storeCmd cli (cmdSize cli) NUL in
  let '(cmd, bflags) := getAutocompletedCommand cli (cmdBuffer cli) in
  let cli := set_bindingsFlags bflags cli in
  if candidateCount cmd =? 0 then
    let cli :=
      if inputLineLength cli >? cmdSize cli then
        let cli := clearCurrentLine cli in
        let cli := writeToOutput cli (invitation cli) in
        writeToOutput cli (cstring (cmdBuffer cli))
      else cli in
    set_inputLineLength (cmdSize cli) cli
  else
    let first := default [] (firstCandidate cmd) in
    (* print live autocompletion *)
    let cli := writeRange (Z.to_nat (autocompletedLen cmd - cmdSize cli))
                 (Z.to_nat (cmdSize cli)) first cli in
    (* replace with spaces previous autocompletion *)
    let cli := writeRepeated (Z.to_nat (inputLineLength cli - autocompletedLen cmd))
                 " "%char cli in
    let cli := set_inputLineLength (wrap16 (autocompletedLen cmd)) cli in
    let cli := callWriteChar cli CR in
    (* print current command again so cursor is moved to initial place *)
    let cli := writeToOutput cli (invitation cli) in
    writeToOutput cli (cstring (cmdBuffer cli)).

(** [for (int i = impl->cmdSize; i < cmd.autocompletedLen; ++i)
       { c = first[i]; writeChar(c); cmdBuffer[i] = c; }] *)
Fixpoint completeRange (n : nat) (i : Z) (first : list ascii) (cli : EmbeddedCli)
  : EmbeddedCli :=
  match n with
  | O => cli
  | S n' =>
      let c := peek first (Z.to_nat i) in
      completeRange n' (i + 1) first (storeCmd (callWriteChar cli c) i c)
  end.

(** The candidates' names, one per line. *)
Fixpoint printCandidates (bs : list CliCommandBinding) (i : nat) (cli : EmbeddedCli)
  : EmbeddedCli :=
  match bs with
  | [] => cli
  | b :: bs' =>
      if negb (Z.land (default 0 (bindingsFlags cli !! i)) BINDING_FLAG_AUTOCOMPLETE =? 0)
      then printCandidates bs' (S i) (writeToOutput (writeToOutput cli (name b)) lineBreak)
      else printCandidates bs' (S i) cli
  end.

Definition onAutocompleteRequest (cli : EmbeddedCli) : EmbeddedCli :=
  let cli := storeCmd cli (cmdSize cli) NUL in
  let '(cmd, bflags) := getAutocompletedCommand cli (cmdBuffer cli) in
  let cli := set_bindingsFlags bflags cli in
  if candidateCount cmd =? 0 then cli
  else
    let first := default [] (firstCandidate cmd) in
    if candidateCount cmd =? 1 then
      (* complete command and insert space *)
      let cli := completeRange (Z.to_nat (autocompletedLen cmd - cmdSize cli))
                   (cmdSize cli) first cli in
      let cli := callWriteChar cli " "%char in
      let cli := storeCmd cli (autocompletedLen cmd) " "%char in
      let cli := set_cmdSize (wrap16 (autocompletedLen cmd + 1)) cli in
      set_inputLineLength (cmdSize cli) cli
    else
      let cli :=
        if autocompletedLen cmd =? cmdSize cli then
          let cli := clearCurrentLine cli in
          let cli := printCandidates
                       (take (Z.to_nat (bindingsCount cli)) (bindings cli)) 0 cli in
          let cli := storeCmd cli (cmdSize cli) NUL in
          let cli := writeToOutput cli (invitation cli) in
          writeToOutput cli (cstring (cmdBuffer cli))
        else
          (* complete to common prefix *)
          let cli := completeRange (Z.to_nat (autocompletedLen cmd - cmdSize cli))
                       (cmdSize cli) first cli in
          set_cmdSize (wrap16 (autocompletedLen cmd)) cli in
      set_inputLineLength (cmdSize cli) cli.

(** The listing printed by [help] without arguments. *)
Fixpoint printBindings (bs : list CliCommandBinding) (cli : EmbeddedCli) : EmbeddedCli :=
  match bs with
  | [] => cli
  | b :: bs' =>
      let cli := writeToOutput cli (str " * ") in
      let cli := writeToOutput cli (name b) in
      let cli := writeToOutput cli lineBreak in
      let cli :=
        match help b with
        | Some h =>
            let cli := callWriteChar cli TAB in
            let cli := writeToOutput cli h in
            writeToOutput cli lineBreak
        | None => cli
        end in
      printBindings bs' cli
  end.

(** The first binding whose name is exactly [nm], with its index: the scan
    [for (i = 0; i < bindingsCount; ++i) if (strcmp(..., bindings[i].name) == 0)]. *)
Fixpoint findBinding (bs : list CliCommandBinding) (i : nat) (nm : list ascii)
  : option (nat * CliCommandBinding) :=
  match bs with
  | [] => None
  | b :: bs' => if streq nm (name b) then Some (i, b) else findBinding bs' (S i) nm
  end.

(** [onHelp(cli, tokens, context)]; [tokens] is the argument memory. *)
Definition onHelp (cli : EmbeddedCli) (tokens : option (list ascii)) : EmbeddedCli :=
  if bindingsCount cli =? 0 then
    writeToOutput (writeToOutput cli (str "Help is not available")) lineBreak
  else
    let tokenCount :=
      match tokens with
      | None => Some 0
      | Some t => embeddedCliGetTokenCount t
      end in
    match tokenCount, tokens with
    | None, _ => set_fault true cli
    | Some 0, _ =>
        printBindings (take (Z.to_nat (bindingsCount cli)) (bindings cli)) cli
    | Some 1, Some t =>
        match embeddedCliGetToken t 1 with
        | Token off =>
            let cmdName := cstring (drop off t) in
            match findBinding (take (Z.to_nat (bindingsCount cli)) (bindings cli)) 0 cmdName with
            | Some (_, b) =>
                match help b with
                | Some helpStr =>
                    let cli := writeToOutput cli (str " * ") in
                    let cli := writeToOutput cli cmdName in
                    let cli := writeToOutput cli lineBreak in
                    let cli := callWriteChar cli TAB in
                    let cli := writeToOutput cli helpStr in
                    writeToOutput cli lineBreak
                | None =>
                    writeToOutput (writeToOutput cli (str "Help is not available")) lineBreak
                end
            | None => onUnknownCommand cli cmdName
            end
        | _ => set_fault true cli
        end
    | Some _, _ =>
        let cli := writeToOutput cli
          (str "Command " ++ [dquote] ++ str "help" ++ [dquote] ++
           str " receives one or zero arguments") in
        writeToOutput cli lineBreak
    end.

(** The left-to-right scan of [parseCommand] that finds the command name
    and the arguments inside the command buffer, [n] bytes being left. *)
Fixpoint parseScan (n i : nat) (buf : list ascii)
    (cmdName cmdArgs : option nat) (nameFinished : bool)
  : list ascii * option nat * option nat :=
  match n with
  | O => (buf, cmdName, cmdArgs)
  | S n' =>
      let c := peek buf i in
      if Ascii.eqb c " " then
        (* all spaces between name and args are filled with zeros *)
        parseScan n' (S i)
          (match cmdArgs with None => poke buf i NUL | Some _ => buf end)
          cmdName cmdArgs
          (match cmdName with Some _ => true | None => nameFinished end)
      else
        match cmdName with
        | None => parseScan n' (S i) buf (Some i) cmdArgs nameFinished
        | Some _ =>
            match cmdArgs with
            | None =>
                if nameFinished then parseScan n' (S i) buf cmdName (Some i) nameFinished
                else parseScan n' (S i) buf cmdName cmdArgs nameFinished
            | Some _ => parseScan n' (S i) buf cmdName cmdArgs nameFinished
            end
        end
  end.

(** The memory a handler sees through its [args] pointer. *)
Definition argsView (cli : EmbeddedCli) (cmdArgs : option nat) : option (list ascii) :=
  match cmdArgs with
  | None => None
  | Some off => Some (take (Z.to_nat (cmdSize cli) + 2 - off) (drop off (cmdBuffer cli)))
  end.

(** The second half of [parseCommand]: the command name starts at
    [nameOff] in the command buffer, the arguments (if any) at [cmdArgs]. *)
Definition dispatchCommand (cli : EmbeddedCli) (nameOff : nat) (cmdArgs : option nat)
  : EmbeddedCli :=
  let nm := cstring (drop nameOff (cmdBuffer cli)) in
  let fallThrough (cli : EmbeddedCli) :=
    (* command not found in bindings or binding was null *)
    if onCommand cli then
      set_events
        (events cli ++
         [CommandReceived nm
            (option_map (fun off => cstring (drop off (cmdBuffer cli))) cmdArgs)])
        cli
    else onUnknownCommand cli nm in
  (* try to find command in bindings *)
  match findBinding (take (Z.to_nat (bindingsCount cli)) (bindings cli)) 0 nm with
  | Some (i, b) =>
      match binding b with
      | None => fallThrough cli
      | Some h =>
          let cli :=
            match tokenizeArgs b, cmdArgs with
            | true, Some off =>
                set_cmdBuffer
                  (take off (cmdBuffer cli) ++
                   embeddedCliTokenizeArgs (drop off (cmdBuffer cli))) cli
            | _, _ => cli
            end in
          let cli :=
            set_events
              (events cli ++ [BindingCalled i h (argsView cli cmdArgs) (context b)]) cli in
          match h with
          | onHelpHandler => onHelp cli (argsView cli cmdArgs)
          | appHandler _ => cli
          end
      end
  | None => fallThrough cli
  end.

Definition parseCommand (cli : EmbeddedCli) : EmbeddedCli :=
  (* find command name and command args inside command buffer *)
  let '(buf, cmdName, cmdArgs) :=
    parseScan (Z.to_nat (cmdSize cli)) 0 (cmdBuffer cli) None None false in
  let cli := set_cmdBuffer buf cli in
  let cli := storeCmd cli (cmdSize cli) NUL in
  let cli := storeCmd cli (cmdSize cli + 1) NUL in
  match cmdName with
  | None => cli
  | Some nameOff => dispatchCommand cli nameOff cmdArgs
  end.

Definition onControlInput (cli : EmbeddedCli) (c : ascii) : EmbeddedCli :=
  (* process \r\n and \n\r as single \r\n command *)
  if (Ascii.eqb (lastChar cli) CR && Ascii.eqb c LF) ||
     (Ascii.eqb (lastChar cli) LF && Ascii.eqb c CR) then cli
  else if Ascii.eqb c CR || Ascii.eqb c LF then
    let cli := writeToOutput cli lineBreak in
    let cli := if cmdSize cli >? 0 then parseCommand cli else cli in
    let cli := set_cmdSize 0 cli in
    let cli := set_inputLineLength 0 cli in
    writeToOutput cli (invitation cli)
  else if (Ascii.eqb c BS || (charCode c =? 127)) && (cmdSize cli >? 0) then
    (* remove char from screen *)
    let cli := callWriteChar cli BS in
    let cli := callWriteChar cli " "%char in
    let cli := callWriteChar cli BS in
    (* and from buffer *)
    set_cmdSize (wrap16 (cmdSize cli - 1)) cli
  else if Ascii.eqb c TAB then onAutocompleteRequest cli
  else cli.

(** The body of the loop of [embeddedCliProcess] for the byte [c] just
    popped. *)
Definition processChar (cli : EmbeddedCli) (c : ascii) : EmbeddedCli :=
  let cli :=
    if IS_FLAG_SET (flags cli) CLI_FLAG_ESCAPE_MODE then onEscapedInput cli c
    else if Ascii.eqb (lastChar cli) ESC && Ascii.eqb c "["%char then
      (* enter escape mode *)
      set_flags (SET_FLAG (flags cli) CLI_FLAG_ESCAPE_MODE) cli
    else if isControlChar c then onControlInput cli c
    else if isDisplayableChar c then onCharInput cli c
    else cli in
  let cli := printLiveAutocompletion cli in
  set_lastChar c cli.

(** [while (fifoBufAvailable(&impl->rxBuffer)) { c = fifoBufPop(...); ... }].
    Every iteration takes one byte out of the ring, so the number of bytes
    available on entry is enough fuel. *)
Fixpoint processLoop (fuel : nat) (cli : EmbeddedCli) : EmbeddedCli :=
  match fuel with
  | O => cli
  | S fuel' =>
      if fifoBufAvailable (rxBuffer cli) =? 0 then cli
      else
        let '(c, rx) := fifoBufPop (rxBuffer cli) in
        processLoop fuel' (processChar (set_rxBuffer rx cli) c)
  end.

Definition embeddedCliProcess (cli : EmbeddedCli) : EmbeddedCli :=
  let cli :=
    if negb (IS_FLAG_SET (flags cli) CLI_FLAG_INIT_COMPLETE) then
      let cli := set_flags (SET_FLAG (flags cli) CLI_FLAG_INIT_COMPLETE) cli in
      writeToOutput cli (invitation cli)
    else cli in
  let cli := processLoop (Z.to_nat (fifoBufAvailable (rxBuffer cli))) cli in
  (* discard unfinished command if overflow happened *)
  if IS_FLAG_SET (flags cli) CLI_FLAG_OVERFLOW then
    set_flags (UNSET_FLAG (flags cli) CLI_FLAG_OVERFLOW) (set_cmdSize 0 cli)
  else cli.

(** What the application does between the calls of the engine: it sets the
    two callbacks. *)
Definition attach (cli : EmbeddedCli) : EmbeddedCli :=
  set_writeChar true (set_onCommand true cli).

(** A string received byte by byte. *)
Definition receiveString (cli : EmbeddedCli) (s : list ascii) : EmbeddedCli :=
  foldl embeddedCliReceiveChar cli s.

(** Chunks of input, each followed by one call of [embeddedCliProcess]. *)
Definition deliver (cli : EmbeddedCli) (chunks : list (list ascii)) : EmbeddedCli :=
  foldl (fun cli chunk => embeddedCliProcess (receiveString cli chunk)) cli chunks.

(** *** The specification's reading of a submitted line

    The command name is the first run of bytes other than the separator;
    the arguments are everything after the separator run that follows the
    name, and there are none when nothing follows. *)

Fixpoint skipSpaces (s : list ascii) : list ascii :=
  match s with
  | c :: s' => if Ascii.eqb c " " then skipSpaces s' else s
  | [] => []
  end.

Fixpoint firstRun (s : list ascii) : list ascii :=
  match s with
  | c :: s' => if Ascii.eqb c " " then [] else c :: firstRun s'
  | [] => []
  end.

Fixpoint afterRun (s : list ascii) : list ascii :=
  match s with
  | c :: s' => if Ascii.eqb c " " then s else afterRun s'
  | [] => []
  end.

Definition lineName (line : list ascii) : list ascii := firstRun (skipSpaces line).

Definition lineArgs (line : list ascii) : option (list ascii) :=
  match skipSpaces (afterRun (skipSpaces line)) with
  | [] => None
  | r => Some r
  end.

(** *** Relations between engine states

    [sameFrame]: the fields that typing and rendering never touch agree.
    [sameCore]: moreover the command line agrees, so that the two states
    differ at most in what was rendered.  [quiet]: moreover no undefined
    step was added, provided [writeChar] is set. *)
Definition sameFrame (a b : EmbeddedCli) : Prop :=
  onCommand a = onCommand b /\ writeChar a = writeChar b /\
  invitation a = invitation b /\ history a = history b /\
  rxBuffer a = rxBuffer b /\ cmdMaxSize a = cmdMaxSize b /\
  bindings a = bindings b /\ bindingsCount a = bindingsCount b /\
  maxBindingsCount a = maxBindingsCount b /\ flags a = flags b /\
  events a = events b.

Definition sameCore (a b : EmbeddedCli) : Prop :=
  sameFrame a b /\ cmdBuffer a = cmdBuffer b /\ cmdSize a = cmdSize b /\
  lastChar a = lastChar b.

Definition quiet (a b : EmbeddedCli) : Prop :=
  sameCore a b /\ (writeChar a = true -> fault b = fault a).

(** [cli'] is [cli] after the bytes of [line] were appended to the command
    line. *)
Definition typedFrom (cli : EmbeddedCli) (line : list ascii) (cli' : EmbeddedCli) : Prop :=
  sameFrame cli cli' /\
  cmdSize cli' = cmdSize cli + Z.of_nat (length line) /\
  take (Z.to_nat (cmdSize cli')) (cmdBuffer cli') =
    take (Z.to_nat (cmdSize cli)) (cmdBuffer cli) ++ line /\
  length (cmdBuffer cli') = length (cmdBuffer cli) /\
  lastChar cli' = List.last line (lastChar cli) /\
  (writeChar cli = true -> fault cli' = fault cli).

(** The state after one more displayable byte, rendering aside. *)
Definition typed1 (cli : EmbeddedCli) (c : ascii) : EmbeddedCli :=
  set_lastChar c
    (set_cmdBuffer
       (poke (poke (cmdBuffer cli) (Z.to_nat (cmdSize cli)) c)
             (Z.to_nat (cmdSize cli + 1)) NUL)
       (set_cmdSize (cmdSize cli + 1) cli)).

(** No handler answers to the name [nm]: no binding has that name, or the
    first one that has it carries a null handler. *)
Definition unhandled (cli : EmbeddedCli) (nm : list ascii) : Prop :=
  match findBinding (take (Z.to_nat (bindingsCount cli)) (bindings cli)) 0 nm with
  | None => True
  | Some (_, b) => binding b = None
  end.

(** The two ends of [embeddedCliProcess]: the one-time initialization
    before the loop and the discard of the unfinished command after it. *)
Definition startProcess (cli : EmbeddedCli) : EmbeddedCli :=
  if negb (IS_FLAG_SET (flags cli) CLI_FLAG_INIT_COMPLETE) then
    let cli := set_flags (SET_FLAG (flags cli) CLI_FLAG_INIT_COMPLETE) cli in
    writeToOutput cli (invitation cli)
  else cli.

Definition finishProcess (cli : EmbeddedCli) : EmbeddedCli :=
  if IS_FLAG_SET (flags cli) CLI_FLAG_OVERFLOW then
    set_flags (UNSET_FLAG (flags cli) CLI_FLAG_OVERFLOW) (set_cmdSize 0 cli)
  else cli.

(** A well-formed line: displayable bytes only, with a command name. *)
Definition wellFormedLine (line : list ascii) : Prop :=
  Forall (fun c => isDisplayableChar c = true) line /\ skipSpaces line <> [].

(** The engine can take [line] and hand it to [onCommand]: the ring is
    empty and large enough, no overflow is pending, the command line is
    empty and large enough, the engine is not inside an escape sequence,
    both callbacks are set and no handler answers to the name of the
    line. *)
Definition readyFor (cli : EmbeddedCli) (line : list ascii) : Prop :=
  wf (rxBuffer cli) /\ contents (rxBuffer cli) = [] /\
  0 <= flags cli < 256 /\
  IS_FLAG_SET (flags cli) CLI_FLAG_ESCAPE_MODE = false /\
  IS_FLAG_SET (flags cli) CLI_FLAG_OVERFLOW = false /\
  lastChar cli <> ESC /\
  cmdSize cli = 0 /\
  cmdMaxSize cli = Z.of_nat (length (cmdBuffer cli)) /\
  cmdMaxSize cli <= 65536 /\
  onCommand cli = true /\
  writeChar cli = true /\
  Z.of_nat (length line) + 1 < cmdMaxSize cli /\
  Z.of_nat (length line) + 1 <= size (rxBuffer cli) - 1 /\
  unhandled cli (lineName line).

(** The flag word with the overflow bit inverted. *)
Definition toggled (fl : Z) : Z := Z.lxor fl CLI_FLAG_OVERFLOW.

(** A sequence of [embeddedCliAddBinding] calls. *)
Definition register (cli : EmbeddedCli) (bs : list CliCommandBinding) : EmbeddedCli :=
  foldl (fun cli b => snd (embeddedCliAddBinding cli b)) cli bs.

(** The unknown-command notice for the name [nm]. *)
Definition unknownNotice (nm : list ascii) : list ascii :=
  (str "Unknown command: " ++ [dquote]) ++ nm ++
  ([dquote] ++ str ". Write " ++ [dquote] ++ str "help" ++ [dquote] ++
   str " for a list of available commands") ++ lineBreak.

(** The registry invariant: the built-in binding sits in the first slot
    and the slot is counted. *)
Definition helpFirst (cli : EmbeddedCli) : Prop :=
  bindings cli !! 0%nat = Some helpBinding /\
  1 <= bindingsCount cli <= maxBindingsCount cli /\
  maxBindingsCount cli < 65536.

(** The receive buffer and the flag word replaced. *)
Definition reframe (rx : FifoBuf) (v : Z) (cli : EmbeddedCli) : EmbeddedCli :=
  set_flags v (set_rxBuffer rx cli).

(** The number of leading separators. *)
Definition gap (s : list ascii) : nat := (length s - length (skipSpaces s))%nat.

(** A pointer that is set only when something is there to point at. *)
Definition argsAt (base : nat) (r : list ascii) : option nat :=
  match r with [] => None | _ => Some base end.

(** The command buffer as [parseCommand] leaves it before the lookup, for
    the line [line] followed by the two reserved bytes and [rest]. *)
Definition parsedBuffer (line rest : list ascii) : list ascii :=
  replicate (gap line) NUL ++ lineName line ++
  replicate (gap (afterRun (skipSpaces line))) NUL ++
  skipSpaces (afterRun (skipSpaces line)) ++ NUL :: NUL :: rest.

Definition parsedArgs (line : list ascii) : option nat :=
  argsAt (gap line + length (lineName line) + gap (afterRun (skipSpaces line)))
         (skipSpaces (afterRun (skipSpaces line))).

(** The sizes are those of unsigned types, and the sum that
    [embeddedCliRequiredSize] forms fits the [uint16_t] it is returned in.
    Then the block is as large as the sum, and every region that
    [embeddedCliNew] carves lies inside it. *)
Definition layoutFits (P : Platform) (config : EmbeddedCliConfig) : Prop :=
  0 <= sizeofEmbeddedCli P /\ 0 <= sizeofEmbeddedCliImpl P /\
  0 <= sizeofCliCommandBinding P /\
  0 <= rxBufferSize config /\ 0 <= cmdBufferSize config /\
  0 <= historyBufferSize config /\
  sizeofEmbeddedCli P + sizeofEmbeddedCliImpl P +
  rxBufferSize config * 1 + cmdBufferSize config * 1 + historyBufferSize config * 1 +
  wrap16 (maxBindingCount config + cliInternalBindingCount) * sizeofCliCommandBinding P +
  wrap16 (maxBindingCount config + cliInternalBindingCount) * 1 < 65536.

(** *** The engines and inputs of the examples *)

(** The engine the tests use: the default configuration on a block from
    [malloc], with both callbacks set.  The sizes are those of a platform
    with 8-byte pointers. *)
Definition testPlatform : Platform := mkPlatform 32 88 40.

Definition deadCli : EmbeddedCli :=
  mkCli false false [] (mkHistory None 0 0) (mkFifo [] 0 0 0) [] 0 0 [] [] 0 0 NUL 0 0
        [] [] false.

Definition newCli (config : EmbeddedCliConfig) : EmbeddedCli :=
  match embeddedCliNew testPlatform config (Some 4096) with
  | Some (_, cli) => cli
  | None => deadCli
  end.

Definition testCli : EmbeddedCli := attach (newCli embeddedCliDefaultConfig).

(** 64 bytes into the default ring of 63: the last push fails. *)
Definition overflowingInput : list ascii := replicate 64 "a"%char.

(** The input that leaves the engine inside an escape sequence when the
    ring overflows: 61 letters, ESC, an opening bracket, one byte too
    many. *)
Definition escapeFlood : list ascii := replicate 61 "a"%char ++ [ESC; "["; "x"]%char.

(** A user binding that takes the name of the built-in one. *)
Definition userHelp : CliCommandBinding :=
  mkBinding (str "help") None false 5 (Some (appHandler 7)).

(** A user binding of another name, registered behind it. *)
Definition userGo : CliCommandBinding :=
  mkBinding (str "go") None false 9 (Some (appHandler 3)).

(** The line ["help"] typed into the test engine with both registered. *)
Definition typedHelp : EmbeddedCli :=
  set_cmdSize 4
    (set_cmdBuffer (str "help" ++ replicate 60 NUL)
       (register testCli [userHelp; userGo])).

(** The line ["go now"] typed into the same engine. *)
Definition typedGo : EmbeddedCli :=
  set_cmdSize 6
    (set_cmdBuffer (str "go now" ++ replicate 58 NUL)
       (register testCli [userHelp; userGo])).

(** The configuration whose slot count [maxBindingCount + 1] does not fit
    the [uint16_t] it is stored in. *)
Definition wrappedSlotsConfig : EmbeddedCliConfig := mkConfig 64 64 128 65535 None 0.

(** A registry with a null-handler binding in front of a live binding of
    the same name. *)
Definition shadowedGo : EmbeddedCli :=
  set_cmdSize 6
    (set_cmdBuffer (str "go now" ++ replicate 58 NUL)
       (register (newCli embeddedCliDefaultConfig)
          [mkBinding (str "go") None false 0 None;
           mkBinding (str "go") None false 0 (Some (appHandler 3))])).

(** The configuration object after [embeddedCliNew(config)]: when
    [config->cliBuffer] is null the call stores there what [malloc]
    answered. *)
Definition configAfterNew (config : EmbeddedCliConfig) (mallocResult : option Z)
  : EmbeddedCliConfig :=
  match cliBuffer config with
  | None =>
      mkConfig (rxBufferSize config) (cmdBufferSize config) (historyBufferSize config)
               (maxBindingCount config) mallocResult (cliBufferSize config)
  | Some _ => config
  end.



End Cli.

(** * Facts about the ring buffer *)

Section FifoFacts.
Import Fifo.

Lemma mod_once (x sz : Z) :
  0 < sz -> 0 <= x < 2 * sz -> x mod sz = if x <? sz then x else x - sz.
Proof.
  intros Hsz Hx. destruct (Z.ltb_spec x sz).
  - apply Z.mod_small; lia.
  - symmetry. apply (Z.mod_unique_pos x sz 1 (x - sz)); lia.
Qed.

Lemma wrap16_small z : 0 <= z < 65536 -> wrap16 z = z.
Proof. intros H. unfold wrap16. apply Z.mod_small; lia. Qed.

Lemma available_spec b :
  wf b ->
  fifoBufAvailable b =
    (if back b >=? front b then back b - front b else size b - front b + back b).
Proof.
  intros (Hs & _ & Hf & Hb). unfold fifoBufAvailable.
  destruct (Z.geb_spec (back b) (front b)); apply wrap16_small; lia.
Qed.

Lemma available_range b : wf b -> 0 <= fifoBufAvailable b < size b.
Proof.
  intros H. rewrite (available_spec b H). destruct H as (Hs & _ & Hf & Hb).
  destruct (Z.geb_spec (back b) (front b)); lia.
Qed.

Lemma step_range x sz : 0 < sz -> 0 <= x < sz -> 0 <= (x + 1) mod sz < sz.
Proof. intros. apply Z.mod_pos_bound; lia. Qed.

Lemma ring_snoc mem sz n : forall start,
  0 < sz -> 0 <= start < sz ->
  ring mem sz start (S n) =
    ring mem sz start n ++ [peek mem (Z.to_nat ((start + Z.of_nat n) mod sz))].
Proof.
  induction n as [|n IH]; intros start Hsz Hst.
  - simpl. rewrite Z.add_0_r, Z.mod_small by lia. reflexivity.
  - change (ring mem sz start (S (S n)))
      with (peek mem (Z.to_nat start) :: ring mem sz ((start + 1) mod sz) (S n)).
    rewrite IH by (auto using step_range).
    simpl. do 3 f_equal.
    rewrite Z.add_mod_idemp_l by lia. do 3 f_equal. lia.
Qed.

Lemma ring_poke mem sz idx a n : forall start,
  0 < sz -> 0 <= start < sz -> 0 <= idx ->
  (forall k, 0 <= k < Z.of_nat n -> (start + k) mod sz <> idx) ->
  ring (poke mem (Z.to_nat idx) a) sz start n = ring mem sz start n.
Proof.
  induction n as [|n IH]; intros start Hsz Hst Hidx Hk; [reflexivity|].
  simpl. f_equal.
  - unfold peek, poke. rewrite list_lookup_insert_ne; [reflexivity|].
    specialize (Hk 0). rewrite Z.add_0_r, Z.mod_small in Hk by lia. lia.
  - apply IH; auto using step_range.
    intros k Hkr. rewrite Z.add_mod_idemp_l by lia.
    replace (start + 1 + k) with (start + (k + 1)) by lia. apply Hk. lia.
Qed.

Lemma length_ring mem sz n : forall start, length (ring mem sz start n) = n.
Proof. induction n; intros; simpl; auto. Qed.

Lemma length_contents b : length (contents b) = Z.to_nat (fifoBufAvailable b).
Proof. apply length_ring. Qed.

Lemma push_spec b a :
  wf b ->
  if fifoBufAvailable b <? size b - 1
  then exists b', fifoBufPush b a = (true, b') /\ wf b' /\ size b' = size b /\
                  contents b' = contents b ++ [a]
  else fifoBufPush b a = (false, b).
Proof.
  intros Hwf. pose proof (available_spec b Hwf) as Hav.
  destruct Hwf as (Hs & Hlen & Hf & Hb).
  assert (Hnb : (back b + 1) mod size b =
                if back b + 1 <? size b then back b + 1 else back b + 1 - size b)
    by (apply mod_once; lia).
  assert (Hnr : 0 <= (back b + 1) mod size b < size b) by (apply Z.mod_pos_bound; lia).
  unfold fifoBufPush.
  destruct (Z.ltb_spec (fifoBufAvailable b) (size b - 1)) as [Hlt|Hge].
  - assert (Hne : (back b + 1) mod size b <> front b).
    { rewrite Hnb. destruct (Z.geb_spec (back b) (front b));
        destruct (Z.ltb_spec (back b + 1) (size b)); lia. }
    apply Z.eqb_neq in Hne. rewrite Hne. simpl.
    eexists; split; [reflexivity|].
    assert (Hwf' : wf (mkFifo (poke (buf b) (Z.to_nat (back b)) a) (front b)
                         (wrap16 ((back b + 1) mod size b)) (size b))).
    { unfold wf; simpl. rewrite wrap16_small by lia.
      repeat split; try lia. unfold poke. rewrite length_insert. assumption. }
    split; [exact Hwf'|]. split; [reflexivity|].
    unfold contents. rewrite (available_spec _ Hwf'). simpl.
    rewrite wrap16_small by lia.
    remember (fifoBufAvailable b) as av eqn:Eav.
    assert (Hback : (front b + av) mod size b = back b).
    { rewrite mod_once by (destruct (Z.geb_spec (back b) (front b)); lia).
      destruct (Z.geb_spec (back b) (front b));
        destruct (Z.ltb_spec (front b + av) (size b)); lia. }
    assert (Hav0 : 0 <= av) by (destruct (Z.geb_spec (back b) (front b)); lia).
    replace (Z.to_nat (if (back b + 1) mod size b >=? front b
                       then (back b + 1) mod size b - front b
                       else size b - front b + (back b + 1) mod size b))
      with (S (Z.to_nat av)).
    2:{ rewrite Hnb.
        destruct (Z.geb_spec (back b) (front b));
          destruct (Z.ltb_spec (back b + 1) (size b));
          repeat match goal with |- context [?x >=? ?y] => destruct (Z.geb_spec x y) end;
          lia. }
    rewrite ring_snoc by lia. f_equal.
    + apply ring_poke; try lia.
      intros k Hk. rewrite mod_once by lia.
      destruct (Z.ltb_spec (front b + k) (size b));
        destruct (Z.geb_spec (back b) (front b)); lia.
    + f_equal. rewrite Z2Nat.id by lia. rewrite Hback.
      unfold peek, poke. rewrite list_lookup_insert_eq by lia. reflexivity.
  - assert (He : (back b + 1) mod size b = front b).
    { rewrite Hnb. rewrite Hav in Hge. destruct (Z.geb_spec (back b) (front b));
        destruct (Z.ltb_spec (back b + 1) (size b)); lia. }
    apply Z.eqb_eq in He. rewrite He. reflexivity.
Qed.

Lemma pop_spec b :
  wf b ->
  match contents b with
  | [] => fifoBufPop b = (NUL, b)
  | c :: q => exists b', fifoBufPop b = (c, b') /\ wf b' /\ size b' = size b /\
                         contents b' = q
  end.
Proof.
  intros Hwf. pose proof (available_spec b Hwf) as Hav.
  pose proof Hwf as (Hs & Hlen & Hf & Hb).
  unfold contents, fifoBufPop.
  destruct (Z.eqb_spec (front b) (back b)) as [He|Hne].
  - rewrite Hav, He. destruct (Z.geb_spec (back b) (back b)); [|lia].
    rewrite Z.sub_diag. reflexivity.
  - assert (Hnf : (front b + 1) mod size b =
                  if front b + 1 <? size b then front b + 1 else front b + 1 - size b)
      by (apply mod_once; lia).
    assert (Hpos : exists n, Z.to_nat (fifoBufAvailable b) = S n /\
                             Z.of_nat n = fifoBufAvailable b - 1).
    { exists (Z.to_nat (fifoBufAvailable b - 1)). rewrite Hav.
      destruct (Z.geb_spec (back b) (front b)); lia. }
    destruct Hpos as (n & Hn & Hn'). rewrite Hn. simpl.
    eexists; split; [reflexivity|].
    assert (Hwf' : wf (mkFifo (buf b) (wrap16 ((front b + 1) mod size b)) (back b) (size b))).
    { unfold wf; simpl. rewrite wrap16_small.
      - repeat split; try lia; apply Z.mod_pos_bound; lia.
      - pose proof (Z.mod_pos_bound (front b + 1) (size b)). lia. }
    split; [exact Hwf'|]. split; [reflexivity|].
    rewrite (available_spec _ Hwf'). simpl.
    rewrite wrap16_small by (pose proof (Z.mod_pos_bound (front b + 1) (size b)); lia).
    f_equal. rewrite Hnf. rewrite Hav in Hn'.
    destruct (Z.geb_spec (back b) (front b));
      destruct (Z.ltb_spec (front b + 1) (size b));
      repeat match goal with |- context [?x >=? ?y] => destruct (Z.geb_spec x y) end;
      lia.
Qed.

Lemma run_refines ops : forall b,
  wf b -> fst (run ops b) = queue_run (Z.to_nat (size b - 1)) ops (contents b).
Proof.
  induction ops as [|[a|] ops IH]; intros b Hwf; [reflexivity| |].
  - simpl. pose proof (push_spec b a Hwf) as Hp.
    pose proof (available_range b Hwf) as Hr.
    rewrite length_contents.
    destruct (Z.ltb_spec (fifoBufAvailable b) (size b - 1)) as [Hlt|Hge].
    + destruct Hp as (b' & -> & Hwf' & Hsz & Hc).
      replace (Z.to_nat (fifoBufAvailable b) <? Z.to_nat (size b - 1))%nat with true
        by (symmetry; apply Nat.ltb_lt; lia).
      specialize (IH b' Hwf'). destruct (run ops b') as [rs b2]. simpl in *.
      rewrite IH, Hc, Hsz. reflexivity.
    + rewrite Hp.
      replace (Z.to_nat (fifoBufAvailable b) <? Z.to_nat (size b - 1))%nat with false
        by (symmetry; apply Nat.ltb_ge; lia).
      specialize (IH b Hwf). destruct (run ops b) as [rs b2]. simpl in *.
      now rewrite IH.
  - simpl. pose proof (pop_spec b Hwf) as Hp.
    destruct (contents b) as [|c q] eqn:Hc.
    + rewrite Hp. specialize (IH b Hwf). destruct (run ops b) as [rs b2].
      simpl in *. now rewrite IH, Hc.
    + destruct Hp as (b' & Hpop & Hwf' & Hsz & Hc'). rewrite Hpop.
      specialize (IH b' Hwf'). destruct (run ops b') as [rs b2]. simpl in *.
      rewrite IH, Hc', Hsz. reflexivity.
Qed.

(** C4.  A ring buffer of capacity [N], started empty, answers every
    sequence of pushes and pops exactly as a first-in first-out queue bounded
    by [N - 1] outstanding bytes does: popped bytes come out in push order.
    A push attempted while [N - 1] bytes are outstanding returns false and
    leaves the backing array and both indices as they were. *)
Theorem fifo_order_and_full_push (N : Z) (mem : list ascii) (ops : list op) :
  0 < N < 65536 ->
  length mem = Z.to_nat N ->
  fst (run ops (mkFifo mem 0 0 N)) = queue_run (Z.to_nat (N - 1)) ops []
  /\ (forall b a, wf b -> fifoBufAvailable b = size b - 1 ->
                  fifoBufPush b a = (false, b)).
Proof.
  intros HN Hlen. split.
  - assert (Hwf : wf (mkFifo mem 0 0 N)) by (unfold wf; simpl; lia).
    rewrite (run_refines ops _ Hwf). reflexivity.
  - intros b a Hwf Hfull. pose proof (push_spec b a Hwf) as Hp.
    destruct (Z.ltb_spec (fifoBufAvailable b) (size b - 1)); [lia|exact Hp].
Qed.

Lemma fifo_order_and_full_push_witness :
  fst (run [Push "a"; Push "b"; Push "c"; Push "d"; Pop; Push "e"; Pop; Pop; Pop; Pop]%char
           (mkFifo (replicate 4 NUL) 0 0 4))
  = [Pushed true; Pushed true; Pushed true; Pushed false; Popped "a"; Pushed true;
     Popped "b"; Popped "c"; Popped "e"; Popped NUL]%char.
Proof.
  pose proof (fifo_order_and_full_push 4 (replicate 4 NUL)
    [Push "a"; Push "b"; Push "c"; Push "d"; Pop; Push "e"; Pop; Pop; Pop; Pop]%char
    ltac:(lia) eq_refl) as [H _].
  rewrite H. reflexivity.
Defined.

End FifoFacts.

(** * Facts about the tokenizer *)

Section TokenizerFacts.
Import Tokens.
Local Open Scope nat_scope.

Lemma strlen_app_nul (s t : list ascii) :
  noNul s -> strlen (s ++ NUL :: t) = length s.
Proof.
  induction 1 as [|c s Hc _ IH]; simpl; [reflexivity|].
  destruct (Ascii.eqb_spec c NUL); [contradiction|]. now rewrite IH.
Qed.

Lemma poke_app_r (a b : list ascii) (i : nat) (c : ascii) :
  poke (a ++ b) (length a + i) c = a ++ poke b i c.
Proof. unfold poke. apply insert_app_r. Qed.

Lemma isSeparatorChar_subst c :
  (if isSeparatorChar c then NUL else c) = (if Ascii.eqb c " " then NUL else c).
Proof.
  unfold isSeparatorChar. destruct (Ascii.eqb_spec c " "); simpl; [reflexivity|].
  destruct (Ascii.eqb_spec c NUL); congruence.
Qed.

Lemma replaceLoop_spec (s2 : list ascii) : forall (s1 t : list ascii),
  replaceLoop (length s2) (length s1) (s1 ++ s2 ++ t) =
  s1 ++ substituteSeparators s2 ++ t.
Proof.
  induction s2 as [|c s2 IH]; intros s1 t; [reflexivity|].
  change (replaceLoop (length (c :: s2)) (length s1) (s1 ++ (c :: s2) ++ t))
    with (replaceLoop (length s2) (S (length s1))
            (if isSeparatorChar (peek (s1 ++ c :: s2 ++ t) (length s1))
             then poke (s1 ++ c :: s2 ++ t) (length s1) NUL
             else s1 ++ c :: s2 ++ t)).
  assert (Hpk : peek (s1 ++ c :: s2 ++ t) (length s1) = c).
  { rewrite peek_app_r by lia. rewrite Nat.sub_diag. reflexivity. }
  rewrite Hpk.
  assert (Hstep : (if isSeparatorChar c
                   then poke (s1 ++ c :: s2 ++ t) (length s1) NUL
                   else s1 ++ c :: s2 ++ t)
                  = (s1 ++ [if Ascii.eqb c " " then NUL else c]) ++ s2 ++ t).
  { rewrite <- isSeparatorChar_subst. rewrite <- app_assoc. simpl.
    destruct (isSeparatorChar c); [|reflexivity].
    rewrite <- (Nat.add_0_r (length s1)). rewrite poke_app_r. reflexivity. }
  rewrite Hstep.
  replace (S (length s1)) with (length (s1 ++ [if Ascii.eqb c " " then NUL else c]))
    by (rewrite length_app; simpl; lia).
  rewrite IH. rewrite <- app_assoc. reflexivity.
Qed.

Section SingleSeparators.
Variable A : list ascii.
Variable len : nat.
Hypothesis no_space : forall j, j < len -> peek A j <> " "%char.
Hypothesis no_gap : forall j, S j < len -> peek A j = NUL -> peek A (S j) <> NUL.
Hypothesis terminated : peek A len = NUL.

Lemma isSeparatorChar_in j :
  j < len -> isSeparatorChar (peek A j) = Ascii.eqb (peek A j) NUL.
Proof.
  intros Hj. unfold isSeparatorChar.
  destruct (Ascii.eqb_spec (peek A j) " "); [|reflexivity].
  exfalso. eapply no_space; eauto.
Qed.

(** With single separators only, the right-to-left pass moves nothing. *)
Lemma compressLoop_single i : forall next,
  i <= len ->
  next = 0 \/ (i < len /\ (peek A i = NUL -> next = S i)) ->
  exists next',
    compressLoop i A next len = (A, next') /\
    (0 < i -> peek A 0 = NUL -> peek A 1 <> NUL -> next' = 1).
Proof.
  induction i as [|k IH]; intros next Hi HQ.
  - eexists; split; [reflexivity|]. lia.
  - cbn [compressLoop]. rewrite Nat.add_1_r.
    rewrite isSeparatorChar_in by lia.
    destruct (Ascii.eqb_spec (peek A k) NUL) as [Hk|Hk];
      destruct (Ascii.eqb_spec (peek A (S k)) NUL) as [Hk1|Hk1]; cbn [negb andb].
    + (* separator followed by a terminator: only at the end of the string *)
      assert (S k = len).
      { destruct (Nat.eq_dec (S k) len); [assumption|].
        exfalso. apply (no_gap k); [lia|assumption..]. }
      destruct (IH next) as (n' & He & Hn'); [lia| |].
      { destruct HQ as [->|[Hlt _]]; [now left|lia]. }
      exists n'. split; [assumption|].
      intros _ H0 H1. destruct k; [congruence|]. apply Hn'; [lia|assumption..].
    + (* separator followed by a token: remember where the token starts *)
      destruct (IH (S k)) as (n' & He & Hn'); [lia| |].
      { right. split; [lia|]. intros _. lia. }
      exists n'. split; [assumption|].
      intros _ H0 H1. destruct k.
      * cbn [compressLoop] in He. inversion He. reflexivity.
      * apply Hn'; [lia|assumption..].
    + (* end of a token *)
      assert (Hnomove : negb (next =? 0) && (2 <? next - k) = false).
      { destruct HQ as [->|[_ Hn]]; [reflexivity|].
        rewrite (Hn Hk1). replace (S (S k) - k) with 2 by lia.
        apply andb_false_r. }
      rewrite Hnomove.
      destruct (IH next) as (n' & He & Hn'); [lia| |].
      { destruct HQ as [->|[_ Hn]]; [now left|].
        right. split; [lia|]. intros; congruence. }
      exists n'. split; [assumption|].
      intros _ H0 H1. destruct k; [congruence|]. apply Hn'; [lia|assumption..].
    + (* inside a token *)
      destruct (IH next) as (n' & He & Hn'); [lia| |].
      { destruct HQ as [->|[_ Hn]]; [now left|].
        right. split; [lia|]. intros; congruence. }
      exists n'. split; [assumption|].
      intros _ H0 H1. destruct k; [congruence|]. apply Hn'; [lia|assumption..].
Qed.
End SingleSeparators.

Lemma compressLoop_all_nul (A : list ascii) (len : nat) i : forall next,
  (forall j, j <= i -> peek A j = NUL) ->
  compressLoop i A next len = (A, next).
Proof.
  induction i as [|k IH]; intros next Hz; [reflexivity|].
  cbn [compressLoop]. rewrite Nat.add_1_r.
  rewrite (Hz k), (Hz (S k)) by lia.
  change (isSeparatorChar NUL) with true. change (Ascii.eqb NUL NUL) with true.
  cbn [negb andb]. apply IH. intros j Hj. apply Hz. lia.
Qed.

Lemma peek_subst (s t : list ascii) j :
  j < length s ->
  exists c, s !! j = Some c /\
    peek (substituteSeparators s ++ t) j = (if Ascii.eqb c " " then NUL else c).
Proof.
  intros Hj. destruct (lookup_lt_is_Some_2 s j Hj) as [c Hc].
  exists c. split; [assumption|].
  unfold peek, substituteSeparators.
  rewrite lookup_app_l by (rewrite length_map; lia).
  rewrite list_lookup_fmap, Hc. reflexivity.
Qed.

Lemma noNul_lookup (s : list ascii) j c : noNul s -> s !! j = Some c -> c <> NUL.
Proof.
  intros H Hl. unfold noNul in H. rewrite Forall_lookup in H. exact (H j c Hl).
Qed.

Lemma noAdjacentSeparators_lookup (s : list ascii) : forall j,
  noAdjacentSeparators s = true ->
  s !! j = Some " "%char -> s !! S j = Some " "%char -> False.
Proof.
  induction s as [|c1 s IH]; intros j Hn H1 H2; [discriminate|].
  destruct s as [|c2 s]; [discriminate|].
  cbn [noAdjacentSeparators] in Hn. apply andb_true_iff in Hn as [Hh Ht].
  destruct j as [|j].
  - simpl in H1, H2. inversion H1; inversion H2; subst. discriminate.
  - apply (IH j Ht); assumption.
Qed.

Lemma length_substituteSeparators s : length (substituteSeparators s) = length s.
Proof. apply length_map. Qed.

Section SubstitutedBuffer.
Variable s rest : list ascii.
Hypothesis Hnul : noNul s.
Hypothesis Hadj : noAdjacentSeparators s = true.

Let A := substituteSeparators s ++ NUL :: NUL :: rest.

Lemma subst_no_space j : j < length s -> peek A j <> " "%char.
Proof.
  intros Hj. unfold A.
  destruct (peek_subst s (NUL :: NUL :: rest) j Hj) as (c & Hc & ->).
  destruct (Ascii.eqb_spec c " "); [discriminate|assumption].
Qed.

Lemma subst_nul_iff j c : j < length s -> s !! j = Some c ->
  peek A j = NUL <-> c = " "%char.
Proof.
  intros Hj Hc. unfold A.
  destruct (peek_subst s (NUL :: NUL :: rest) j Hj) as (c' & Hc' & ->).
  assert (c' = c) by congruence. subst c'.
  destruct (Ascii.eqb_spec c " "); split; intros; try congruence; try reflexivity.
  exfalso. eapply noNul_lookup; eauto.
Qed.

Lemma subst_no_gap j : S j < length s -> peek A j = NUL -> peek A (S j) <> NUL.
Proof.
  intros Hj H0 H1.
  assert (Hj' : j < length s) by lia.
  destruct (lookup_lt_is_Some_2 s j Hj') as [c Hc].
  destruct (lookup_lt_is_Some_2 s (S j) Hj) as [c' Hc'].
  pose proof (proj1 (subst_nul_iff j c Hj' Hc) H0) as E0.
  pose proof (proj1 (subst_nul_iff (S j) c' Hj Hc') H1) as E1.
  subst. exact (noAdjacentSeparators_lookup s j Hadj Hc Hc').
Qed.

Lemma subst_terminated : peek A (length s) = NUL.
Proof.
  unfold A. rewrite peek_app_r by (rewrite length_substituteSeparators; lia).
  rewrite length_substituteSeparators, Nat.sub_diag. reflexivity.
Qed.

Lemma compressLoop_substituted :
  exists next',
    compressLoop (length s) A 0 (length s) = (A, next') /\
    (0 < length s -> peek A 0 = NUL -> peek A 1 <> NUL -> next' = 1).
Proof.
  apply compressLoop_single;
    auto using subst_no_space, subst_no_gap, subst_terminated.
Qed.
End SubstitutedBuffer.

Lemma tokenize_prepare (s : list ascii) spare rest :
  noNul s -> s <> [] ->
  embeddedCliTokenizeArgs (s ++ NUL :: spare :: rest) =
    let A := substituteSeparators s ++ NUL :: NUL :: rest in
    let '(args, next) := compressLoop (length s) A 0 (length s) in
    if Ascii.eqb (peek args 0) NUL && (0 <? next)
    then memmove args 0 next (length s - next + 1) else args.
Proof.
  intros Hnul Hne. unfold embeddedCliTokenizeArgs.
  rewrite strlen_app_nul by assumption.
  replace (poke (s ++ NUL :: spare :: rest) (length s + 1) NUL)
    with (s ++ NUL :: NUL :: rest) by (rewrite poke_app_r; reflexivity).
  assert (Hlen : (length s =? 0) = false) by (destruct s; [congruence|reflexivity]).
  rewrite Hlen.
  pose proof (replaceLoop_spec s [] (NUL :: NUL :: rest)) as Hr.
  cbn [length app] in Hr. rewrite Hr. reflexivity.
Qed.

Lemma tokenize_single_separators (s : list ascii) spare rest :
  noNul s -> noAdjacentSeparators s = true -> startsWithSeparator s = false ->
  embeddedCliTokenizeArgs (s ++ NUL :: spare :: rest) =
    substituteSeparators s ++ NUL :: NUL :: rest.
Proof.
  intros Hnul Hadj Hstart.
  destruct s as [|c s'] eqn:Es; [reflexivity|]. rewrite <- Es in *.
  rewrite tokenize_prepare by (assumption || (subst; discriminate)).
  cbv zeta.
  destruct (compressLoop_substituted s rest Hnul Hadj) as (next' & -> & _).
  assert (Hhead : peek (substituteSeparators s ++ NUL :: NUL :: rest) 0 = c).
  { subst s. simpl in Hstart. cbn. unfold peek. simpl. now rewrite Hstart. }
  rewrite Hhead.
  assert (Hc : c <> NUL).
  { subst s. inversion Hnul; assumption. }
  destruct (Ascii.eqb_spec c NUL); [contradiction|]. reflexivity.
Qed.

Lemma memmove_strip (B rest : list ascii) :
  memmove (NUL :: B ++ NUL :: NUL :: rest) 0 1 (S (length B)) =
    B ++ NUL :: NUL :: NUL :: rest.
Proof.
  unfold memmove. cbn [take drop app Nat.add].
  replace (B ++ NUL :: NUL :: rest) with ((B ++ [NUL]) ++ NUL :: rest)
    by (rewrite <- app_assoc; reflexivity).
  rewrite !drop_0.
  rewrite take_app_length' by (rewrite length_app; simpl; lia).
  replace (length (B ++ [NUL])) with (length (NUL :: B))
    by (rewrite length_app; simpl; lia).
  replace (NUL :: (B ++ [NUL]) ++ NUL :: rest) with ((NUL :: B) ++ NUL :: NUL :: rest)
    by (rewrite <- app_assoc; reflexivity).
  rewrite drop_app_length. rewrite <- app_assoc. reflexivity.
Qed.

Lemma tokenize_leading_separator (s' : list ascii) spare rest :
  noNul s' -> noAdjacentSeparators (" "%char :: s') = true -> s' <> [] ->
  embeddedCliTokenizeArgs (" "%char :: s' ++ NUL :: spare :: rest) =
    substituteSeparators s' ++ NUL :: NUL :: NUL :: rest.
Proof.
  intros Hnul Hadj Hne.
  assert (Hnul' : noNul (" "%char :: s')) by (constructor; [discriminate|assumption]).
  change (" "%char :: s' ++ NUL :: spare :: rest)
    with ((" "%char :: s') ++ NUL :: spare :: rest).
  rewrite tokenize_prepare by (assumption || discriminate).
  cbv zeta.
  destruct (compressLoop_substituted (" "%char :: s') rest Hnul' Hadj)
    as (next' & -> & Hnext).
  destruct s' as [|c s'']; [congruence|].
  assert (Hc : c <> NUL) by (inversion Hnul; assumption).
  assert (Hsp : Ascii.eqb c " " = false).
  { cbn [noAdjacentSeparators] in Hadj. apply andb_true_iff in Hadj as [Hh _].
    simpl in Hh. destruct (Ascii.eqb c " "); [discriminate|reflexivity]. }
  rewrite Hnext.
  - change (peek (substituteSeparators (" "%char :: c :: s'') ++ NUL :: NUL :: rest) 0)
      with NUL.
    change (Ascii.eqb NUL NUL && (0 <? 1)) with true. cbv iota.
    change (substituteSeparators (" "%char :: c :: s'') ++ NUL :: NUL :: rest)
      with (NUL :: substituteSeparators (c :: s'') ++ NUL :: NUL :: rest).
    replace (length (" "%char :: c :: s'') - 1 + 1)
      with (S (length (substituteSeparators (c :: s''))))
      by (rewrite length_substituteSeparators; simpl; lia).
    apply memmove_strip.
  - simpl; lia.
  - reflexivity.
  - cbn. unfold peek. simpl. rewrite Hsp. assumption.
Qed.

Lemma noNul_replicate_space n : noNul (replicate n " "%char).
Proof. apply Forall_replicate. discriminate. Qed.

Lemma substituteSeparators_replicate n :
  substituteSeparators (replicate n " "%char) = replicate n NUL.
Proof. induction n; simpl; [reflexivity|]. f_equal. assumption. Qed.

Lemma peek_all_nul n rest j : j <= S n -> peek (replicate n NUL ++ NUL :: NUL :: rest) j = NUL.
Proof.
  intros Hj. destruct (Nat.lt_ge_cases j n) as [Hlt|Hge].
  - rewrite peek_app_l by (rewrite length_replicate; lia).
    unfold peek. rewrite lookup_replicate_2 by lia. reflexivity.
  - rewrite peek_app_r by (rewrite length_replicate; lia).
    rewrite length_replicate.
    destruct (j - n) as [|[|k]] eqn:E; try reflexivity. lia.
Qed.

Lemma tokenize_all_separators n spare rest :
  embeddedCliTokenizeArgs (replicate n " "%char ++ NUL :: spare :: rest) =
    replicate n NUL ++ NUL :: NUL :: rest.
Proof.
  destruct n as [|n]; [reflexivity|].
  rewrite tokenize_prepare by (apply noNul_replicate_space || discriminate).
  cbv zeta. rewrite substituteSeparators_replicate, length_replicate.
  rewrite compressLoop_all_nul.
  - rewrite peek_all_nul by lia. reflexivity.
  - intros j Hj. apply peek_all_nul. lia.
Qed.

(** C2, as the code has it.  ["a b c"] becomes the tokens [a], [b], [c] and
    the end-of-tokens terminator; ["   a  b    c   "] begins with the same
    layout, the bytes behind it being terminators; on such a buffer the
    accessors count three tokens, return [a], [b], [c] at the positions 1,
    2, 3 and nothing at position 4.  A string of separators only (the empty
    string included) begins with the double terminator and counts zero
    tokens.  For a string with no two consecutive separators that does not
    begin with a separator, the tokenizer only replaces each separator by a
    terminator (and writes the second terminator into the spare byte).  When
    such a string begins with one separator followed by a token, that
    leading terminator is stripped and the rest moves one byte to the
    left. *)
Theorem tokenize_examples_and_single_separators :
  (forall spare rest,
      embeddedCliTokenizeArgs (str "a b c" ++ NUL :: spare :: rest) =
        layout [str "a"; str "b"; str "c"] ++ rest) /\
  (forall spare rest,
      embeddedCliTokenizeArgs (str "   a  b    c   " ++ NUL :: spare :: rest) =
        layout [str "a"; str "b"; str "c"] ++ replicate 10 NUL ++ rest) /\
  (forall tail,
      embeddedCliGetTokenCount (layout [str "a"; str "b"; str "c"] ++ tail) = Some 3%Z /\
      map (fun pos =>
             tokenAt (layout [str "a"; str "b"; str "c"] ++ tail)
               (embeddedCliGetToken (layout [str "a"; str "b"; str "c"] ++ tail) pos))
          [1; 2; 3; 4]%Z
      = [Some (str "a"); Some (str "b"); Some (str "c"); None]) /\
  (forall n spare rest,
      exists tail,
        embeddedCliTokenizeArgs (replicate n " "%char ++ NUL :: spare :: rest) =
          NUL :: NUL :: tail /\
        embeddedCliGetTokenCount (NUL :: NUL :: tail) = Some 0%Z) /\
  (forall s spare rest,
      noNul s -> noAdjacentSeparators s = true -> startsWithSeparator s = false ->
      embeddedCliTokenizeArgs (s ++ NUL :: spare :: rest) =
        substituteSeparators s ++ NUL :: NUL :: rest) /\
  (forall s' spare rest,
      noNul s' -> noAdjacentSeparators (" "%char :: s') = true -> s' <> [] ->
      embeddedCliTokenizeArgs (" "%char :: s' ++ NUL :: spare :: rest) =
        substituteSeparators s' ++ NUL :: NUL :: NUL :: rest).
Proof.
  split; [|split; [|split; [|split; [|split]]]].
  - intros spare rest. reflexivity.
  - intros spare rest. reflexivity.
  - intros tail. split; reflexivity.
  - intros n spare rest. rewrite tokenize_all_separators.
    destruct n as [|n].
    + exists rest. split; reflexivity.
    + exists (replicate n NUL ++ NUL :: rest). split; [|reflexivity].
      cbn [replicate app]. f_equal.
      clear. induction n as [|n IH]; [reflexivity|].
      cbn [replicate app]. f_equal. exact IH.
  - exact tokenize_single_separators.
  - exact tokenize_leading_separator.
Qed.

Lemma tokenize_examples_and_single_separators_witness :
  embeddedCliTokenizeArgs (str "ab cd e" ++ [NUL; "?"; "!"]%char) =
    substituteSeparators (str "ab cd e") ++ [NUL; NUL; "!"]%char
  /\ embeddedCliTokenizeArgs (str " ab cd" ++ [NUL; "?"; "!"]%char) =
    substituteSeparators (str "ab cd") ++ [NUL; NUL; NUL; "!"]%char.
Proof.
  destruct tokenize_examples_and_single_separators as (_ & _ & _ & _ & H4 & H5).
  split.
  - apply (H4 (str "ab cd e") "?"%char ["!"%char]).
    + repeat constructor; discriminate.
    + reflexivity.
    + reflexivity.
  - apply (H5 (str "ab cd") "?"%char ["!"%char]).
    + repeat constructor; discriminate.
    + reflexivity.
    + discriminate.
Defined.

(** C2 as the specification words it fails: [" a"] has no two consecutive
    separators, yet the result is not the substituted string. *)
Lemma tokenize_leading_separator_is_moved :
  noNul (str " a") /\ noAdjacentSeparators (str " a") = true /\
  embeddedCliTokenizeArgs (str " a" ++ [NUL; NUL]) <>
    substituteSeparators (str " a") ++ [NUL; NUL].
Proof.
  split; [repeat constructor; discriminate|]. split; [reflexivity|].
  vm_compute. discriminate.
Qed.

(** C3.  Position 0 never holds a token.  At the input ["a   b"] the line
    has two words, the tokenizer leaves a stale copy of the last token
    behind, the count is three and position 3 holds a token. *)
Lemma tokenize_wide_gap_counts_three :
  (forall tokenizedStr, embeddedCliGetToken tokenizedStr 0 = NoToken) /\
  words (str "a   b") = [str "a"; str "b"] /\
  embeddedCliTokenizeArgs (str "a   b" ++ [NUL; NUL]) =
    layout [str "a"; str "b"; str "b"] /\
  embeddedCliGetTokenCount (embeddedCliTokenizeArgs (str "a   b" ++ [NUL; NUL])) = Some 3%Z /\
  tokenAt (embeddedCliTokenizeArgs (str "a   b" ++ [NUL; NUL]))
          (embeddedCliGetToken (embeddedCliTokenizeArgs (str "a   b" ++ [NUL; NUL])) 3) =
    Some (str "b").
Proof. repeat split; reflexivity. Qed.

(** *** What the tokenizer leaves alone *)

Lemma memmove_frame (b : list ascii) dst src n K :
  dst + n <= K -> src + n <= length b -> K <= length b ->
  length (memmove b dst src n) = length b /\
  drop K (memmove b dst src n) = drop K b.
Proof.
  intros Hd Hs HK. unfold memmove.
  assert (Hc : length (take n (drop src b)) = n)
    by (rewrite length_take, length_drop; lia).
  rewrite Hc. split.
  - rewrite !length_app, Hc, length_take, length_drop. lia.
  - rewrite drop_app_ge by (rewrite length_take; lia).
    rewrite length_take, drop_app_ge by (rewrite Hc; lia).
    rewrite Hc, drop_drop. f_equal. lia.
Qed.

Lemma poke_frame (b : list ascii) i c K :
  i < K ->
  length (poke b i c) = length b /\ drop K (poke b i c) = drop K b.
Proof.
  intros Hi. unfold poke. split; [apply length_insert|].
  now apply drop_insert_lt.
Qed.

Lemma replaceLoop_frame n : forall i args K,
  i + n <= K ->
  length (replaceLoop n i args) = length args /\
  drop K (replaceLoop n i args) = drop K args.
Proof.
  induction n as [|n IH]; intros i args K H; [split; reflexivity|].
  cbn [replaceLoop].
  destruct (IH (S i) (if isSeparatorChar (peek args i) then poke args i NUL else args) K)
    as (Hl & Hd); [lia|].
  rewrite Hl, Hd.
  destruct (isSeparatorChar (peek args i)); [|split; reflexivity].
  apply poke_frame. lia.
Qed.

(** The right-to-left pass moves bytes inside the string only: the
    terminator and everything behind it stay. *)
Lemma compressLoop_frame len i : forall args next,
  i <= len -> next <= len -> len + 1 <= length args ->
  length (fst (compressLoop i args next len)) = length args /\
  drop len (fst (compressLoop i args next len)) = drop len args /\
  snd (compressLoop i args next len) <= len.
Proof.
  induction i as [|i IH]; intros args next Hi Hn HL; [cbn; auto|].
  cbn [compressLoop].
  destruct (negb (isSeparatorChar (peek args i)) && Ascii.eqb (peek args (i + 1)) NUL).
  - destruct (negb (next =? 0) && (2 <? next - i)) eqn:E.
    + apply andb_true_iff in E as [_ E]. apply Nat.ltb_lt in E.
      destruct (memmove_frame args (i + 2) next (len - next + 1) len)
        as (Hl & Hd); try lia.
      destruct (IH (memmove args (i + 2) next (len - next + 1)) next) as (Hl' & Hd' & Hn');
        try lia.
      rewrite Hl', Hd', Hl, Hd. auto.
    + apply IH; lia.
  - destruct (isSeparatorChar (peek args i) && negb (Ascii.eqb (peek args (i + 1)) NUL)).
    + apply IH; lia.
    + apply IH; lia.
Qed.

Lemma strlen_le (b : list ascii) : strlen b <= length b.
Proof.
  induction b as [|c b IH]; [reflexivity|].
  cbn [strlen length]. destruct (Ascii.eqb c NUL); lia.
Qed.

Lemma strlen_terminated (b : list ascii) :
  strlen b < length b -> b !! strlen b = Some NUL.
Proof.
  induction b as [|c b IH]; cbn [strlen length]; [lia|].
  destruct (Ascii.eqb_spec c NUL) as [->|Hc]; [reflexivity|].
  intros H. cbn. apply IH. lia.
Qed.

(** The tokenizer works inside the string: the memory keeps its length,
    the terminator and the spare byte behind it end as the double
    terminator, and no byte behind them is touched. *)
Lemma tokenize_tail args :
  strlen args + 1 < length args ->
  length (embeddedCliTokenizeArgs args) = length args /\
  drop (strlen args) (embeddedCliTokenizeArgs args) =
    NUL :: NUL :: drop (strlen args + 2) args.
Proof.
  intros Hroom. unfold embeddedCliTokenizeArgs.
  set (len := strlen args) in *.
  set (a0 := poke args (len + 1) NUL).
  assert (Hl0 : length a0 = length args) by apply length_insert.
  assert (Hd0 : drop len a0 = NUL :: NUL :: drop (len + 2) args).
  { unfold a0, poke. rewrite drop_insert_ge by lia.
    replace (len + 1 - len) with 1 by lia.
    assert (H0 : args !! len = Some NUL) by (apply strlen_terminated; fold len; lia).
    destruct (lookup_lt_is_Some_2 args (S len)) as [y Hy]; [lia|].
    rewrite (drop_S _ _ _ H0), (drop_S _ _ _ Hy). cbn.
    replace (len + 2) with (S (S len)) by lia. reflexivity. }
  destruct (len =? 0); [split; assumption|].
  destruct (replaceLoop_frame len 0 a0 len) as (Hl1 & Hd1); [lia|].
  set (a1 := replaceLoop len 0 a0) in *.
  destruct (compressLoop_frame len len a1 0) as (Hl2 & Hd2 & Hn2); try lia.
  destruct (compressLoop len a1 0 len) as [a2 next]. cbn [fst snd] in *.
  destruct (Ascii.eqb (peek a2 0) NUL && (0 <? next)) eqn:E.
  - apply andb_true_iff in E as [_ E]. apply Nat.ltb_lt in E.
    destruct (memmove_frame a2 0 next (len - next + 1) len) as (Hl3 & Hd3); try lia.
    split; congruence.
  - split; congruence.
Qed.

End TokenizerFacts.

(** * Facts about rendering: what it leaves alone *)

Section FrameFacts.
Import Fifo Tokens History Cli.

Lemma quiet_refl a : quiet a a.
Proof. unfold quiet, sameCore, sameFrame. tauto. Qed.

Lemma quiet_trans a b c : quiet a b -> quiet b c -> quiet a c.
Proof.
  unfold quiet, sameCore, sameFrame.
  intros ((F1 & B1 & S1 & L1) & X1) ((F2 & B2 & S2 & L2) & X2).
  destruct F1 as (?&?&?&?&?&?&?&?&?&?&?), F2 as (?&?&?&?&?&?&?&?&?&?&?).
  repeat split; try congruence.
  intros Hw. rewrite X2 by congruence. auto.
Qed.

Lemma quiet_callWriteChar a cli c : quiet a cli -> quiet a (callWriteChar cli c).
Proof.
  intros H. apply (quiet_trans _ _ _ H).
  unfold callWriteChar. destruct (writeChar cli) eqn:E;
    unfold quiet, sameCore, sameFrame; cbn; repeat split; try reflexivity;
    intros; congruence.
Qed.

Lemma quiet_writeToOutput a s : forall cli, quiet a cli -> quiet a (writeToOutput cli s).
Proof.
  induction s as [|c s IH]; intros cli H; [exact H|].
  apply IH, quiet_callWriteChar, H.
Qed.

Lemma quiet_writeRepeated a n c : forall cli, quiet a cli -> quiet a (writeRepeated n c cli).
Proof.
  induction n as [|n IH]; intros cli H; [exact H|].
  apply IH, quiet_callWriteChar, H.
Qed.

Lemma quiet_writeRange a n s : forall i cli, quiet a cli -> quiet a (writeRange n i s cli).
Proof.
  induction n as [|n IH]; intros i cli H; [exact H|].
  apply IH, quiet_callWriteChar, H.
Qed.

Lemma quiet_set_inputLineLength a v cli : quiet a cli -> quiet a (set_inputLineLength v cli).
Proof.
  intros H. apply (quiet_trans _ _ _ H).
  unfold quiet, sameCore, sameFrame; cbn; repeat split; try reflexivity.
Qed.

Lemma quiet_set_bindingsFlags a v cli : quiet a cli -> quiet a (set_bindingsFlags v cli).
Proof.
  intros H. apply (quiet_trans _ _ _ H).
  unfold quiet, sameCore, sameFrame; cbn; repeat split; try reflexivity.
Qed.

Lemma quiet_clearCurrentLine a cli : quiet a cli -> quiet a (clearCurrentLine cli).
Proof.
  intros H. unfold clearCurrentLine.
  apply quiet_set_inputLineLength, quiet_callWriteChar, quiet_writeRepeated,
    quiet_callWriteChar, H.
Qed.

Lemma quiet_onUnknownCommand a cli nm : quiet a cli -> quiet a (onUnknownCommand cli nm).
Proof.
  intros H. unfold onUnknownCommand.
  do 4 apply quiet_writeToOutput. exact H.
Qed.

Lemma quiet_printCandidates a bs : forall i cli,
  quiet a cli -> quiet a (printCandidates bs i cli).
Proof.
  induction bs as [|b bs IH]; intros i cli H; [exact H|].
  cbn [printCandidates]. destruct (negb _); [|apply IH, H].
  apply IH. do 2 apply quiet_writeToOutput. exact H.
Qed.

(** [printLiveAutocompletion] stores the terminator after the line and
    renders; nothing else changes. *)
Lemma quiet_printLiveAutocompletion cli :
  quiet (storeCmd cli (cmdSize cli) NUL) (printLiveAutocompletion cli).
Proof.
  unfold printLiveAutocompletion.
  set (cli1 := storeCmd cli (cmdSize cli) NUL).
  destruct (getAutocompletedCommand cli1 (cmdBuffer cli1)) as [cmd bflags].
  assert (H2 : quiet cli1 (set_bindingsFlags bflags cli1))
    by apply quiet_set_bindingsFlags, quiet_refl.
  set (cli2 := set_bindingsFlags bflags cli1) in *.
  destruct (candidateCount cmd =? 0).
  - apply quiet_set_inputLineLength.
    destruct (inputLineLength cli2 >? cmdSize cli2); [|exact H2].
    do 2 apply quiet_writeToOutput. apply quiet_clearCurrentLine, H2.
  - do 2 apply quiet_writeToOutput.
    apply quiet_callWriteChar, quiet_set_inputLineLength, quiet_writeRepeated,
      quiet_writeRange, H2.
Qed.

End FrameFacts.

(** * Facts about the scan of a submitted line *)

Section ParseFacts.
Import Fifo Tokens History Cli.
Local Open Scope nat_scope.

Lemma peek_middle (pre : list ascii) c post : peek (pre ++ c :: post) (length pre) = c.
Proof. rewrite peek_app_r by lia. rewrite Nat.sub_diag. reflexivity. Qed.

Lemma poke_middle (pre : list ascii) c d post :
  poke (pre ++ c :: post) (length pre) d = pre ++ d :: post.
Proof.
  unfold poke. rewrite <- (Nat.add_0_r (length pre)), insert_app_r. reflexivity.
Qed.

Lemma snoc_app (pre : list ascii) c post : pre ++ c :: post = (pre ++ [c]) ++ post.
Proof. rewrite <- app_assoc. reflexivity. Qed.

Lemma length_snoc (pre : list ascii) c : length (pre ++ [c]) = S (length pre).
Proof. rewrite length_app. simpl. lia. Qed.

(** Once the arguments are found the scan changes nothing. *)
Lemma scan_args (s : list ascii) : forall pre rest x y nf,
  parseScan (length s) (length pre) (pre ++ s ++ rest) (Some x) (Some y) nf =
    (pre ++ s ++ rest, Some x, Some y).
Proof.
  induction s as [|c s IH]; intros pre rest x y nf; [reflexivity|].
  cbn [length parseScan app]. rewrite peek_middle.
  rewrite (snoc_app pre c), <- (length_snoc pre c).
  destruct (Ascii.eqb c " "); apply IH.
Qed.

Lemma length_skipSpaces s : length (skipSpaces s) <= length s.
Proof.
  induction s as [|c s IH]; simpl; [lia|]. destruct (Ascii.eqb c " "); simpl; lia.
Qed.

Lemma gap_space s : gap (" "%char :: s) = S (gap s).
Proof. unfold gap. simpl. pose proof (length_skipSpaces s). lia. Qed.

Lemma gap_other c s : Ascii.eqb c " " = false -> gap (c :: s) = 0.
Proof. intros H. unfold gap. simpl. rewrite H. simpl. lia. Qed.

(** After the name: the separators are zeroed up to the first byte of the
    arguments. *)
Lemma scan_gap (s : list ascii) : forall pre rest x,
  parseScan (length s) (length pre) (pre ++ s ++ rest) (Some x) None true =
    (pre ++ replicate (gap s) NUL ++ skipSpaces s ++ rest, Some x,
     argsAt (length pre + gap s) (skipSpaces s)).
Proof.
  induction s as [|c s IH]; intros pre rest x.
  - reflexivity.
  - cbn [length parseScan app]. rewrite peek_middle.
    destruct (Ascii.eqb_spec c " ") as [->|Hc].
    + rewrite poke_middle. rewrite (snoc_app pre NUL), <- (length_snoc pre NUL).
      rewrite IH. rewrite gap_space. cbn [skipSpaces]. change (Ascii.eqb " " " ") with true.
      cbv iota. rewrite <- app_assoc. cbn [replicate app]. rewrite length_snoc.
      repeat (f_equal; try lia).
    + rewrite (snoc_app pre c), <- (length_snoc pre c). rewrite scan_args.
      apply Ascii.eqb_neq in Hc. rewrite gap_other by assumption.
      cbn [skipSpaces]. rewrite Hc. rewrite <- app_assoc. cbn [replicate app argsAt].
      rewrite Nat.add_0_r. reflexivity.
Qed.

(** Inside the name and after it. *)
Lemma scan_name (s : list ascii) : forall pre rest x,
  parseScan (length s) (length pre) (pre ++ s ++ rest) (Some x) None false =
    (pre ++ firstRun s ++ replicate (gap (afterRun s)) NUL ++
       skipSpaces (afterRun s) ++ rest,
     Some x,
     argsAt (length pre + length (firstRun s) + gap (afterRun s))
            (skipSpaces (afterRun s))).
Proof.
  induction s as [|c s IH]; intros pre rest x.
  - reflexivity.
  - destruct (Ascii.eqb_spec c " ") as [->|Hc].
    + transitivity (parseScan (length (" "%char :: s)) (length pre)
                      (pre ++ (" "%char :: s) ++ rest) (Some x) None true).
      { cbn [length parseScan app]. rewrite peek_middle. reflexivity. }
      rewrite scan_gap. cbn [firstRun afterRun]. change (Ascii.eqb " " " ") with true.
      cbv iota. cbn [app length]. rewrite Nat.add_0_r. reflexivity.
    + cbn [length parseScan app]. rewrite peek_middle.
      apply Ascii.eqb_neq in Hc. rewrite Hc.
      rewrite (snoc_app pre c), <- (length_snoc pre c). rewrite IH.
      cbn [firstRun afterRun]. rewrite Hc. rewrite <- app_assoc.
      cbn [app length]. rewrite length_snoc. repeat (f_equal; try lia).
Qed.

(** The whole scan of a line. *)
Lemma scan_line (s : list ascii) : forall pre rest,
  parseScan (length s) (length pre) (pre ++ s ++ rest) None None false =
    (pre ++ replicate (gap s) NUL ++ firstRun (skipSpaces s) ++
       replicate (gap (afterRun (skipSpaces s))) NUL ++
       skipSpaces (afterRun (skipSpaces s)) ++ rest,
     argsAt (length pre + gap s) (skipSpaces s),
     argsAt (length pre + gap s + length (firstRun (skipSpaces s)) +
             gap (afterRun (skipSpaces s)))
            (skipSpaces (afterRun (skipSpaces s)))).
Proof.
  induction s as [|c s IH]; intros pre rest.
  - reflexivity.
  - cbn [length parseScan app]. rewrite peek_middle.
    destruct (Ascii.eqb_spec c " ") as [->|Hc].
    + rewrite poke_middle. rewrite (snoc_app pre NUL), <- (length_snoc pre NUL).
      rewrite IH. rewrite gap_space. cbn [skipSpaces]. change (Ascii.eqb " " " ") with true.
      cbv iota. rewrite <- app_assoc. cbn [replicate app]. rewrite length_snoc.
      repeat (f_equal; try lia).
    + rewrite (snoc_app pre c), <- (length_snoc pre c). rewrite scan_name.
      apply Ascii.eqb_neq in Hc. rewrite gap_other by assumption.
      cbn [skipSpaces]. rewrite Hc. cbn [firstRun afterRun]. rewrite Hc.
      rewrite <- app_assoc. cbn [replicate app argsAt length]. rewrite length_snoc.
      rewrite !Nat.add_0_r. repeat (f_equal; try lia).
Qed.

Lemma length_gap s : gap s + length (skipSpaces s) = length s.
Proof. unfold gap. pose proof (length_skipSpaces s). lia. Qed.

Lemma length_runs s : length (firstRun s) + length (afterRun s) = length s.
Proof.
  induction s as [|c s IH]; simpl; [reflexivity|].
  destruct (Ascii.eqb c " "); simpl; lia.
Qed.

Lemma afterRun_shape s : afterRun s = [] \/ exists s', afterRun s = " "%char :: s'.
Proof.
  induction s as [|c s IH]; simpl; [now left|].
  destruct (Ascii.eqb_spec c " ") as [->|]; [right; eauto|assumption].
Qed.

Lemma noNul_skipSpaces s : noNul s -> noNul (skipSpaces s).
Proof.
  induction 1 as [|c s Hc Hs IH]; simpl; [constructor|].
  destruct (Ascii.eqb c " "); [assumption|constructor; assumption].
Qed.

Lemma noNul_firstRun s : noNul s -> noNul (firstRun s).
Proof.
  induction 1 as [|c s Hc Hs IH]; simpl; [constructor|].
  destruct (Ascii.eqb c " "); constructor; assumption.
Qed.

Lemma noNul_afterRun s : noNul s -> noNul (afterRun s).
Proof.
  induction 1 as [|c s Hc Hs IH]; simpl; [constructor|].
  destruct (Ascii.eqb c " "); [constructor; assumption|assumption].
Qed.

Lemma cstring_app_nul (w t : list ascii) : noNul w -> cstring (w ++ NUL :: t) = w.
Proof.
  induction 1 as [|c w Hc _ IH]; simpl; [reflexivity|].
  destruct (Ascii.eqb_spec c NUL); [contradiction|]. now rewrite IH.
Qed.

Lemma length_parsedBuffer line rest :
  length (parsedBuffer line rest) = S (S (length line + length rest)).
Proof.
  unfold parsedBuffer, lineName. rewrite !length_app, !length_replicate. simpl.
  pose proof (length_gap line). pose proof (length_runs (skipSpaces line)).
  pose proof (length_gap (afterRun (skipSpaces line))). lia.
Qed.

(** The name [parseCommand] reads is the first run of the line. *)
Lemma parsed_name line rest :
  noNul line ->
  cstring (drop (gap line) (parsedBuffer line rest)) = lineName line.
Proof.
  intros Hn. unfold parsedBuffer.
  rewrite drop_app_length' by (rewrite length_replicate; reflexivity).
  assert (Hw : noNul (lineName line)) by (apply noNul_firstRun, noNul_skipSpaces, Hn).
  destruct (afterRun_shape (skipSpaces line)) as [E|[s' E]]; rewrite E.
  - cbn [skipSpaces gap length replicate app Nat.sub]. now apply cstring_app_nul.
  - rewrite gap_space. cbn [replicate app]. now apply cstring_app_nul.
Qed.

(** The arguments [parseCommand] hands over are the rest of the line. *)
Lemma parsed_args line rest :
  noNul line ->
  option_map (fun off => cstring (drop off (parsedBuffer line rest))) (parsedArgs line)
  = lineArgs line.
Proof.
  intros Hn. unfold parsedArgs, lineArgs, parsedBuffer.
  set (r := skipSpaces (afterRun (skipSpaces line))).
  assert (Hr : noNul r) by (apply noNul_skipSpaces, noNul_afterRun, noNul_skipSpaces, Hn).
  destruct r as [|c r'] eqn:Er; [reflexivity|].
  cbn [argsAt option_map]. f_equal.
  rewrite !app_assoc. rewrite <- app_assoc.
  rewrite drop_app_length'
    by (rewrite !length_app, !length_replicate; lia).
  now apply cstring_app_nul.
Qed.

Lemma storeCmd_in_range cli i c :
  i < length (cmdBuffer cli) ->
  storeCmd cli (Z.of_nat i) c = set_cmdBuffer (poke (cmdBuffer cli) i c) cli.
Proof.
  intros Hi. unfold storeCmd. rewrite Nat2Z.id.
  destruct (Nat.ltb_spec i (length (cmdBuffer cli))); [reflexivity|lia].
Qed.

(** [parseCommand] on a buffer that holds [line]: the buffer is rewritten
    as [parsedBuffer] says, and when the line has a name the lookup runs
    with the name at [gap line]. *)
Lemma parseCommand_line cli line r0 r1 rest :
  cmdBuffer cli = line ++ r0 :: r1 :: rest ->
  cmdSize cli = Z.of_nat (length line) ->
  parseCommand cli =
    match skipSpaces line with
    | [] => set_cmdBuffer (parsedBuffer line rest) cli
    | _ => dispatchCommand (set_cmdBuffer (parsedBuffer line rest) cli)
             (gap line) (parsedArgs line)
    end.
Proof.
  intros Hbuf Hsize. unfold parseCommand. rewrite Hbuf, Hsize, Nat2Z.id.
  pose proof (scan_line line [] (r0 :: r1 :: rest)) as Hscan.
  cbn [length app Nat.add] in Hscan. rewrite Hscan. clear Hscan.
  set (B := replicate (gap line) NUL ++ _).
  assert (HB : B = (replicate (gap line) NUL ++ lineName line ++
                replicate (gap (afterRun (skipSpaces line))) NUL ++
                skipSpaces (afterRun (skipSpaces line))) ++ r0 :: r1 :: rest).
  { unfold B, lineName. rewrite <- !app_assoc. reflexivity. }
  assert (HL : length (replicate (gap line) NUL ++ lineName line ++
                replicate (gap (afterRun (skipSpaces line))) NUL ++
                skipSpaces (afterRun (skipSpaces line))) = length line).
  { unfold lineName. rewrite !length_app, !length_replicate.
    pose proof (length_gap line). pose proof (length_runs (skipSpaces line)).
    pose proof (length_gap (afterRun (skipSpaces line))). lia. }
  assert (Hstores :
    storeCmd (storeCmd (set_cmdBuffer B cli) (cmdSize (set_cmdBuffer B cli)) NUL)
             (cmdSize (storeCmd (set_cmdBuffer B cli) (cmdSize (set_cmdBuffer B cli)) NUL) + 1)
             NUL
    = set_cmdBuffer (parsedBuffer line rest) cli).
  { change (cmdSize (set_cmdBuffer B cli)) with (cmdSize cli). rewrite Hsize.
    rewrite storeCmd_in_range by (simpl; rewrite HB, length_app, HL; simpl; lia).
    change (cmdSize (set_cmdBuffer _ (set_cmdBuffer B cli))) with (cmdSize cli).
    rewrite Hsize.
    replace (Z.of_nat (length line) + 1)%Z with (Z.of_nat (S (length line))) by lia.
    rewrite storeCmd_in_range
      by (simpl; unfold poke; rewrite length_insert, HB, length_app, HL; simpl; lia).
    cbn [cmdBuffer set_cmdBuffer].
    change (set_cmdBuffer ?x (set_cmdBuffer ?y (set_cmdBuffer ?z cli)))
      with (set_cmdBuffer x cli).
    f_equal. rewrite HB. rewrite <- HL at 1. rewrite poke_middle.
    replace (S (length line)) with
      (length ((replicate (gap line) NUL ++ lineName line ++
                replicate (gap (afterRun (skipSpaces line))) NUL ++
                skipSpaces (afterRun (skipSpaces line))) ++ [NUL]))
      by (rewrite length_app, HL; simpl; lia).
    rewrite (snoc_app _ NUL (r1 :: rest)). rewrite poke_middle.
    unfold parsedBuffer. rewrite <- !app_assoc. reflexivity. }
  destruct (skipSpaces line) as [|c s'] eqn:Es.
  - cbn [argsAt]. exact Hstores.
  - rewrite Hstores. unfold parsedArgs, lineName. rewrite Es. reflexivity.
Qed.

End ParseFacts.

(** * Facts about typing and submitting a line *)

Section TypingFacts.
Import Fifo Tokens History Cli.

Lemma displayable_not_control c : isDisplayableChar c = true -> isControlChar c = false.
Proof.
  destruct c as [[] [] [] [] [] [] [] []]; vm_compute; intros H;
    first [reflexivity | discriminate H].
Qed.

Lemma displayable_not_esc c : isDisplayableChar c = true -> c <> ESC.
Proof. intros H ->. discriminate H. Qed.

Lemma displayable_not_nul c : isDisplayableChar c = true -> c <> NUL.
Proof. intros H ->. discriminate H. Qed.

Lemma storeCmd_inside cli i c :
  0 <= i < Z.of_nat (length (cmdBuffer cli)) ->
  storeCmd cli i c = set_cmdBuffer (poke (cmdBuffer cli) (Z.to_nat i) c) cli.
Proof.
  intros Hi. unfold storeCmd.
  destruct (Nat.ltb_spec (Z.to_nat i) (length (cmdBuffer cli))); [reflexivity|lia].
Qed.

Lemma quiet_set_lastChar a b c : quiet a b -> quiet (set_lastChar c a) (set_lastChar c b).
Proof.
  unfold quiet, sameCore, sameFrame. cbn.
  intros (((?&?&?&?&?&?&?&?&?&?&?) & ? & ? & ?) & ?). repeat split; auto.
Qed.

Lemma typing_step cli c :
  isDisplayableChar c = true ->
  IS_FLAG_SET (flags cli) CLI_FLAG_ESCAPE_MODE = false ->
  lastChar cli <> ESC ->
  0 <= cmdSize cli ->
  cmdSize cli + 2 < cmdMaxSize cli ->
  cmdMaxSize cli = Z.of_nat (length (cmdBuffer cli)) ->
  cmdMaxSize cli <= 65536 ->
  quiet (typed1 cli c) (processChar cli c).
Proof.
  intros Hd Hesc Hlast H0 Hroom Hlen Hmax.
  unfold processChar. rewrite Hesc.
  replace (Ascii.eqb (lastChar cli) ESC) with false
    by (symmetry; apply Ascii.eqb_neq; assumption).
  cbn [andb]. rewrite (displayable_not_control c Hd), Hd.
  unfold typed1. apply quiet_set_lastChar.
  eapply quiet_trans; [|apply quiet_printLiveAutocompletion].
  unfold onCharInput.
  destruct (Z.geb_spec (cmdSize cli + 2) (cmdMaxSize cli)); [lia|].
  rewrite (storeCmd_inside cli (cmdSize cli) c) by lia.
  cbn [cmdSize set_cmdBuffer writeChar].
  assert (Hw : wrap16 (cmdSize cli + 1) = cmdSize cli + 1)
    by (unfold wrap16; apply Z.mod_small; lia).
  rewrite Hw.
  set (X0 := set_cmdSize (cmdSize cli + 1)
               (set_cmdBuffer (poke (cmdBuffer cli) (Z.to_nat (cmdSize cli)) c) cli)).
  assert (HX0 : 0 <= cmdSize cli + 1 < Z.of_nat (length (cmdBuffer X0))).
  { subst X0. cbn. unfold poke. rewrite length_insert. lia. }
  change (writeChar X0) with (writeChar cli).
  destruct (writeChar cli) eqn:Ew.
  - unfold callWriteChar. change (writeChar X0) with (writeChar cli). rewrite Ew.
    rewrite storeCmd_inside by exact HX0.
    unfold quiet, sameCore, sameFrame; cbn. repeat split; auto.
  - rewrite storeCmd_inside by exact HX0.
    unfold quiet, sameCore, sameFrame; cbn. repeat split; auto.
Qed.

Lemma quiet_fields a b :
  quiet a b ->
  sameFrame a b /\ cmdBuffer b = cmdBuffer a /\ cmdSize b = cmdSize a /\
  lastChar b = lastChar a /\ (writeChar a = true -> fault b = fault a).
Proof.
  intros ((F & B & S & L) & X).
  split; [exact F|]. split; [now symmetry|]. split; [now symmetry|].
  split; [now symmetry|exact X].
Qed.

Lemma sameFrame_trans a b c : sameFrame a b -> sameFrame b c -> sameFrame a c.
Proof.
  unfold sameFrame.
  intros (?&?&?&?&?&?&?&?&?&?&?) (?&?&?&?&?&?&?&?&?&?&?). repeat split; congruence.
Qed.

Lemma sameFrame_refl a : sameFrame a a.
Proof. unfold sameFrame. tauto. Qed.

Lemma sameFrame_typed1 cli c : sameFrame cli (typed1 cli c).
Proof. unfold sameFrame, typed1. cbn. tauto. Qed.

Lemma last_default_irrelevant (l : list ascii) : forall a d1 d2,
  List.last (a :: l) d1 = List.last (a :: l) d2.
Proof.
  induction l as [|b l IH]; intros a d1 d2; [reflexivity|].
  change (List.last (b :: l) d1 = List.last (b :: l) d2). apply IH.
Qed.

(** Typing a line of displayable bytes appends it to the command line and
    touches nothing but the command line and the rendering. *)
Lemma typing_line (line : list ascii) : forall cli,
  Forall (fun c => isDisplayableChar c = true) line ->
  IS_FLAG_SET (flags cli) CLI_FLAG_ESCAPE_MODE = false ->
  lastChar cli <> ESC ->
  0 <= cmdSize cli ->
  cmdSize cli + Z.of_nat (length line) + 1 < cmdMaxSize cli ->
  cmdMaxSize cli = Z.of_nat (length (cmdBuffer cli)) ->
  cmdMaxSize cli <= 65536 ->
  typedFrom cli line (foldl processChar cli line).
Proof.
  induction line as [|c line IH]; intros cli Hd Hesc Hlast H0 Hroom Hlen Hmax.
  - unfold typedFrom. cbn [foldl length List.last]. rewrite Z.add_0_r, app_nil_r.
    refine (conj _ (conj _ (conj _ (conj _ (conj _ _))))); auto using sameFrame_refl.
  - inversion Hd as [|? ? Hc Hd']; subst.
    cbn [foldl length] in *.
    assert (Hstep : quiet (typed1 cli c) (processChar cli c))
      by (apply typing_step; auto; lia).
    apply quiet_fields in Hstep as (HF & HB & HS & HL & HX).
    cbn [typed1 cmdBuffer cmdSize lastChar writeChar fault set_lastChar
         set_cmdBuffer set_cmdSize] in HB, HS, HL, HX.
    pose proof (sameFrame_trans _ _ _ (sameFrame_typed1 cli c) HF) as HF1.
    set (cli1 := processChar cli c) in *.
    pose proof HF1 as (_ & Hw & _ & _ & _ & Hm & _ & _ & _ & Hfl & _).
    assert (Hlen1 : length (cmdBuffer cli1) = length (cmdBuffer cli)).
    { rewrite HB. unfold poke. now rewrite !length_insert. }
    destruct (IH cli1) as (F2 & S2 & T2 & L2 & La2 & X2); auto.
    + now rewrite <- Hfl.
    + rewrite HL. now apply displayable_not_esc.
    + lia.
    + lia.
    + rewrite <- Hm, Hlen1. assumption.
    + now rewrite <- Hm.
    + unfold typedFrom. refine (conj _ (conj _ (conj _ (conj _ (conj _ _))))).
      * eapply sameFrame_trans; eassumption.
      * cbn [length]. lia.
      * rewrite T2, HS, HB. unfold poke.
        replace (Z.to_nat (cmdSize cli + 1)) with (S (Z.to_nat (cmdSize cli))) by lia.
        rewrite take_insert_ge by lia.
        rewrite (take_S_r _ _ c) by (apply list_lookup_insert_eq; lia).
        rewrite take_insert_ge by lia.
        rewrite <- app_assoc. reflexivity.
      * congruence.
      * rewrite La2, HL. destruct line as [|a line']; [reflexivity|].
        change (List.last (c :: a :: line') (lastChar cli))
          with (List.last (a :: line') (lastChar cli)).
        apply last_default_irrelevant.
      * intros Hwc. rewrite X2 by congruence. auto.
Qed.

Lemma events_quiet a b : quiet a b -> events a = events b.
Proof. intros H. apply quiet_fields in H as (F & _). apply F. Qed.

Lemma events_storeCmd cli i c : events (storeCmd cli i c) = events cli.
Proof. unfold storeCmd. destruct (_ <? _)%nat; reflexivity. Qed.

Lemma events_printLiveAutocompletion cli :
  events (printLiveAutocompletion cli) = events cli.
Proof.
  rewrite <- (events_quiet _ _ (quiet_printLiveAutocompletion cli)).
  apply events_storeCmd.
Qed.

Lemma displayable_not_cr_lf c :
  isDisplayableChar c = true -> Ascii.eqb c CR = false /\ Ascii.eqb c LF = false.
Proof.
  intros H. split; apply Ascii.eqb_neq; intros ->; discriminate H.
Qed.

(** A line terminator after a non-empty line: the line is parsed. *)
Lemma submit_events cli t :
  t = CR \/ t = LF ->
  IS_FLAG_SET (flags cli) CLI_FLAG_ESCAPE_MODE = false ->
  isDisplayableChar (lastChar cli) = true ->
  0 < cmdSize cli ->
  events (processChar cli t) = events (parseCommand (writeToOutput cli lineBreak)).
Proof.
  intros Ht Hesc Hlast Hsize.
  destruct (displayable_not_cr_lf _ Hlast) as [Hcr Hlf].
  assert (Hne : Ascii.eqb (lastChar cli) ESC = false)
    by (apply Ascii.eqb_neq, displayable_not_esc, Hlast).
  unfold processChar. rewrite Hesc, Hne. cbn [andb].
  assert (Hctl : isControlChar t = true) by (destruct Ht; subst; reflexivity).
  rewrite Hctl. cbn [events set_lastChar].
  rewrite events_printLiveAutocompletion.
  unfold onControlInput. rewrite Hcr, Hlf. cbn [andb orb].
  assert (Hterm : Ascii.eqb t CR || Ascii.eqb t LF = true)
    by (destruct Ht; subst; reflexivity).
  rewrite Hterm.
  set (cli1 := writeToOutput cli lineBreak).
  assert (Hs1 : cmdSize cli1 = cmdSize cli).
  { pose proof (quiet_writeToOutput cli lineBreak cli (quiet_refl cli)) as Hq.
    apply quiet_fields in Hq. tauto. }
  rewrite Hs1. destruct (Z.gtb_spec (cmdSize cli) 0); [|lia].
  rewrite <- (events_quiet _ _ (quiet_writeToOutput _ _ _ (quiet_refl _))).
  reflexivity.
Qed.

End TypingFacts.

(** * Facts about the lookup and the dispatch *)

Section DispatchFacts.
Import Fifo Tokens History Cli.

Lemma quiet_printBindings a bs : forall cli, quiet a cli -> quiet a (printBindings bs cli).
Proof.
  induction bs as [|b bs IH]; intros cli H; [exact H|].
  cbn [printBindings]. apply IH.
  destruct (help b).
  - apply quiet_writeToOutput, quiet_writeToOutput, quiet_callWriteChar.
    do 3 apply quiet_writeToOutput. exact H.
  - do 3 apply quiet_writeToOutput. exact H.
Qed.

Lemma events_onHelp cli t : events (onHelp cli t) = events cli.
Proof.
  unfold onHelp.
  destruct (bindingsCount cli =? 0).
  { symmetry. apply events_quiet. do 2 apply quiet_writeToOutput. apply quiet_refl. }
  destruct (match t with None => Some 0 | Some t0 => embeddedCliGetTokenCount t0 end)
    as [[|p|p]|]; try reflexivity.
  - symmetry. apply events_quiet, quiet_printBindings, quiet_refl.
  - assert (Husage : forall x, events (writeToOutput (writeToOutput cli x) lineBreak)
                               = events cli).
    { intros x. symmetry. apply events_quiet. do 2 apply quiet_writeToOutput.
      apply quiet_refl. }
    destruct p; try apply Husage.
    destruct t as [t|]; [|apply Husage].
    destruct (embeddedCliGetToken t 1); try reflexivity.
    destruct (findBinding _ _ _) as [[i b]|].
    + destruct (help b); symmetry; apply events_quiet.
      * apply quiet_writeToOutput, quiet_writeToOutput, quiet_callWriteChar.
        do 3 apply quiet_writeToOutput. apply quiet_refl.
      * do 2 apply quiet_writeToOutput. apply quiet_refl.
    + symmetry. apply events_quiet, quiet_onUnknownCommand, quiet_refl.
  - symmetry. apply events_quiet. do 2 apply quiet_writeToOutput. apply quiet_refl.
Qed.

(** Without a handler for the name the command goes to [onCommand], or the
    unknown-command notice is printed. *)
Lemma dispatch_unhandled cli nameOff cmdArgs :
  unhandled cli (cstring (drop nameOff (cmdBuffer cli))) ->
  dispatchCommand cli nameOff cmdArgs =
    if onCommand cli then
      set_events
        (events cli ++
         [CommandReceived (cstring (drop nameOff (cmdBuffer cli)))
            (option_map (fun off => cstring (drop off (cmdBuffer cli))) cmdArgs)])
        cli
    else onUnknownCommand cli (cstring (drop nameOff (cmdBuffer cli))).
Proof.
  unfold unhandled, dispatchCommand.
  destruct (findBinding _ _ _) as [[i b]|]; [|reflexivity].
  intros ->. reflexivity.
Qed.

(** With a handler, exactly that binding is called. *)
Lemma dispatch_handled cli nameOff cmdArgs i b h :
  findBinding (take (Z.to_nat (bindingsCount cli)) (bindings cli)) 0
    (cstring (drop nameOff (cmdBuffer cli))) = Some (i, b) ->
  binding b = Some h ->
  exists args,
    events (dispatchCommand cli nameOff cmdArgs) =
      events cli ++ [BindingCalled i h args (context b)].
Proof.
  intros Hfind Hh. unfold dispatchCommand. rewrite Hfind, Hh.
  match goal with
  | |- context [BindingCalled i h ?a (context b)] => exists a
  end.
  destruct h; [rewrite events_onHelp|]; cbn [events set_events];
    destruct (tokenizeArgs b), cmdArgs; reflexivity.
Qed.

Lemma displayable_noNul line :
  Forall (fun c => isDisplayableChar c = true) line -> noNul line.
Proof.
  intros H. unfold noNul. eapply Forall_impl; [exact H|].
  intros c Hc. now apply displayable_not_nul.
Qed.

Lemma last_displayable (line : list ascii) d :
  Forall (fun c => isDisplayableChar c = true) line -> line <> [] ->
  isDisplayableChar (List.last line d) = true.
Proof.
  induction 1 as [|c l Hc Hl IH]; intros Hne; [congruence|].
  destruct l as [|c' l']; [exact Hc|].
  change (List.last (c :: c' :: l') d) with (List.last (c' :: l') d).
  apply IH. discriminate.
Qed.

Lemma buffer_split (buf line : list ascii) :
  take (length line) buf = line ->
  (length line + 2 <= length buf)%nat ->
  exists r0 r1 rest, buf = line ++ r0 :: r1 :: rest.
Proof.
  intros Ht Hl. rewrite <- (take_drop (length line) buf), Ht.
  assert (Hd : (2 <= length (drop (length line) buf))%nat)
    by (rewrite length_drop; lia).
  destruct (drop (length line) buf) as [|r0 [|r1 rest]]; simpl in Hd; try lia.
  eauto.
Qed.

(** The command line holds [line] when the terminator arrives: what the
    terminator dispatches. *)
Lemma submit_line cli line t :
  t = CR \/ t = LF ->
  IS_FLAG_SET (flags cli) CLI_FLAG_ESCAPE_MODE = false ->
  Forall (fun c => isDisplayableChar c = true) line ->
  skipSpaces line <> [] ->
  lastChar cli = List.last line NUL ->
  cmdSize cli = Z.of_nat (length line) ->
  take (length line) (cmdBuffer cli) = line ->
  (length line + 2 <= length (cmdBuffer cli))%nat ->
  onCommand cli = true ->
  unhandled cli (lineName line) ->
  events (processChar cli t) =
    events cli ++ [CommandReceived (lineName line) (lineArgs line)].
Proof.
  intros Ht Hesc Hd Hname Hlast Hsize Htake Hlen Hon Hun.
  assert (Hne : line <> []) by (intros ->; apply Hname; reflexivity).
  rewrite submit_events; auto.
  2:{ rewrite Hlast. now apply last_displayable. }
  2:{ destruct line; [congruence|]. rewrite Hsize. simpl. lia. }
  pose proof (quiet_writeToOutput cli lineBreak cli (quiet_refl cli)) as Hq.
  apply quiet_fields in Hq as (HF & HB & HS & _ & _).
  set (cli1 := writeToOutput cli lineBreak) in *.
  destruct HF as (Eon & _ & _ & _ & _ & _ & Ebs & Ebc & _ & _ & Eev).
  destruct (buffer_split (cmdBuffer cli) line Htake Hlen) as (r0 & r1 & rest & Ebuf).
  rewrite (parseCommand_line cli1 line r0 r1 rest) by congruence.
  destruct (skipSpaces line) as [|c0 s0] eqn:Es; [congruence|].
  pose proof (displayable_noNul line Hd) as Hnn.
  rewrite dispatch_unhandled.
  - cbn [onCommand set_cmdBuffer]. rewrite <- Eon, Hon.
    cbn [events set_events cmdBuffer set_cmdBuffer].
    rewrite parsed_name, parsed_args by assumption. rewrite <- Eev. reflexivity.
  - unfold unhandled in *. cbn [cmdBuffer bindingsCount bindings set_cmdBuffer].
    rewrite parsed_name by assumption. rewrite <- Ebs, <- Ebc. exact Hun.
Qed.

(** A well-formed line typed into an engine that is ready for one, then a
    terminator: exactly one command is handed to [onCommand], with the
    name and the untokenized arguments of the line. *)
Lemma line_dispatch cli line t :
  t = CR \/ t = LF ->
  Forall (fun c => isDisplayableChar c = true) line ->
  skipSpaces line <> [] ->
  IS_FLAG_SET (flags cli) CLI_FLAG_ESCAPE_MODE = false ->
  lastChar cli <> ESC ->
  cmdSize cli = 0 ->
  Z.of_nat (length line) + 1 < cmdMaxSize cli ->
  cmdMaxSize cli = Z.of_nat (length (cmdBuffer cli)) ->
  cmdMaxSize cli <= 65536 ->
  onCommand cli = true ->
  unhandled cli (lineName line) ->
  events (foldl processChar cli (line ++ [t])) =
    events cli ++ [CommandReceived (lineName line) (lineArgs line)].
Proof.
  intros Ht Hd Hname Hesc Hlast Hsize Hroom Hlen Hmax Hon Hun.
  rewrite foldl_app. cbn [foldl].
  destruct (typing_line line cli) as (HF & HS & HT & HL & HLa & _); auto; try lia.
  set (cli2 := foldl processChar cli line) in *.
  pose proof HF as (Eon & _ & _ & _ & _ & Em & Ebs & Ebc & _ & Efl & Eev).
  rewrite Hsize in HS, HT. cbn [Z.to_nat take app] in HT. rewrite Z.add_0_l in HS.
  rewrite HS, Nat2Z.id in HT.
  assert (Hne : line <> []) by (intros ->; apply Hname; reflexivity).
  rewrite (submit_line cli2 line t); auto.
  - now rewrite Eev.
  - now rewrite <- Efl.
  - rewrite HLa. destruct line as [|a l]; [congruence|].
    apply last_default_irrelevant.
  - rewrite HL. lia.
  - congruence.
  - unfold unhandled in *. rewrite <- Ebs, <- Ebc. exact Hun.
Qed.

(** The state a line terminator leaves behind a non-empty line. *)
Lemma submit_state cli t :
  t = CR \/ t = LF ->
  IS_FLAG_SET (flags cli) CLI_FLAG_ESCAPE_MODE = false ->
  isDisplayableChar (lastChar cli) = true ->
  0 < cmdSize cli ->
  processChar cli t =
    set_lastChar t
      (printLiveAutocompletion
         (writeToOutput
            (set_inputLineLength 0
               (set_cmdSize 0 (parseCommand (writeToOutput cli lineBreak))))
            (invitation
               (set_inputLineLength 0
                  (set_cmdSize 0 (parseCommand (writeToOutput cli lineBreak))))))).
Proof.
  intros Ht Hesc Hlast Hsize.
  destruct (displayable_not_cr_lf _ Hlast) as [Hcr Hlf].
  assert (Hne : Ascii.eqb (lastChar cli) ESC = false)
    by (apply Ascii.eqb_neq, displayable_not_esc, Hlast).
  unfold processChar. rewrite Hesc, Hne. cbn [andb].
  assert (Hctl : isControlChar t = true) by (destruct Ht; subst; reflexivity).
  rewrite Hctl.
  unfold onControlInput. rewrite Hcr, Hlf. cbn [andb orb].
  assert (Hterm : Ascii.eqb t CR || Ascii.eqb t LF = true)
    by (destruct Ht; subst; reflexivity).
  rewrite Hterm.
  assert (Hs1 : cmdSize (writeToOutput cli lineBreak) = cmdSize cli).
  { pose proof (quiet_writeToOutput cli lineBreak cli (quiet_refl cli)) as Hq.
    apply quiet_fields in Hq. tauto. }
  rewrite Hs1. destruct (Z.gtb_spec (cmdSize cli) 0); [|lia].
  reflexivity.
Qed.

(** Rendering the command line stores one terminator behind it; inside the
    buffer that is a defined step. *)
Lemma fault_printLiveAutocompletion cli :
  writeChar cli = true ->
  (Z.to_nat (cmdSize cli) < length (cmdBuffer cli))%nat ->
  fault (printLiveAutocompletion cli) = fault cli.
Proof.
  intros Hw Hin.
  pose proof (quiet_printLiveAutocompletion cli) as Hq.
  apply quiet_fields in Hq as (_ & _ & _ & _ & HX).
  unfold storeCmd in HX.
  destruct (Nat.ltb_spec (Z.to_nat (cmdSize cli)) (length (cmdBuffer cli))); [|lia].
  apply HX. exact Hw.
Qed.

(** The terminator of a line that goes to [onCommand] adds no undefined
    step. *)
Lemma submit_defined cli line t :
  t = CR \/ t = LF ->
  IS_FLAG_SET (flags cli) CLI_FLAG_ESCAPE_MODE = false ->
  Forall (fun c => isDisplayableChar c = true) line ->
  skipSpaces line <> [] ->
  lastChar cli = List.last line NUL ->
  cmdSize cli = Z.of_nat (length line) ->
  take (length line) (cmdBuffer cli) = line ->
  (length line + 2 <= length (cmdBuffer cli))%nat ->
  onCommand cli = true ->
  writeChar cli = true ->
  unhandled cli (lineName line) ->
  fault (processChar cli t) = fault cli.
Proof.
  intros Ht Hesc Hd Hname Hlast Hsize Htake Hlen Hon Hw Hun.
  assert (Hne : line <> []) by (intros ->; apply Hname; reflexivity).
  rewrite submit_state; auto.
  2:{ rewrite Hlast. now apply last_displayable. }
  2:{ destruct line; [congruence|]. rewrite Hsize. simpl. lia. }
  cbn [fault set_lastChar].
  pose proof (quiet_writeToOutput cli lineBreak cli (quiet_refl cli)) as Hq.
  apply quiet_fields in Hq as (HF & HB & HS & _ & HX).
  set (cli1 := writeToOutput cli lineBreak) in *.
  destruct HF as (Eon & Ew & _ & _ & _ & _ & Ebs & Ebc & _ & _ & Eev).
  destruct (buffer_split (cmdBuffer cli) line Htake Hlen) as (r0 & r1 & rest & Ebuf).
  rewrite (parseCommand_line cli1 line r0 r1 rest) by congruence.
  destruct (skipSpaces line) as [|c0 s0] eqn:Es; [congruence|].
  pose proof (displayable_noNul line Hd) as Hnn.
  rewrite dispatch_unhandled.
  2:{ unfold unhandled in *. cbn [cmdBuffer bindingsCount bindings set_cmdBuffer].
      rewrite parsed_name by assumption. rewrite <- Ebs, <- Ebc. exact Hun. }
  cbn [onCommand set_cmdBuffer]. rewrite <- Eon, Hon.
  match goal with
  | |- fault (printLiveAutocompletion (writeToOutput ?a _)) = _ => set (A := a)
  end.
  pose proof (quiet_writeToOutput A (invitation A) A (quiet_refl A)) as HqY.
  set (Y := writeToOutput A (invitation A)) in *.
  apply quiet_fields in HqY as (HFY & HBY & HSY & _ & HXY).
  destruct HFY as (_ & EwY & _).
  assert (HwA : writeChar A = true).
  { unfold A. cbn [writeChar set_inputLineLength set_cmdSize set_events set_cmdBuffer].
    congruence. }
  rewrite fault_printLiveAutocompletion.
  - rewrite (HXY HwA). unfold A. cbn [fault set_inputLineLength set_cmdSize set_events
      set_cmdBuffer]. apply HX, Hw.
  - congruence.
  - rewrite HSY, HBY. unfold A.
    cbn [cmdSize cmdBuffer set_inputLineLength set_cmdSize set_events set_cmdBuffer].
    change (Z.to_nat 0) with 0%nat. rewrite length_parsedBuffer. lia.
Qed.

(** A well-formed line typed into an engine that is ready for one, then a
    terminator, with [writeChar] set: no step of the run is undefined. *)
Lemma line_defined cli line t :
  t = CR \/ t = LF ->
  Forall (fun c => isDisplayableChar c = true) line ->
  skipSpaces line <> [] ->
  IS_FLAG_SET (flags cli) CLI_FLAG_ESCAPE_MODE = false ->
  lastChar cli <> ESC ->
  cmdSize cli = 0 ->
  Z.of_nat (length line) + 1 < cmdMaxSize cli ->
  cmdMaxSize cli = Z.of_nat (length (cmdBuffer cli)) ->
  cmdMaxSize cli <= 65536 ->
  onCommand cli = true ->
  writeChar cli = true ->
  unhandled cli (lineName line) ->
  fault (foldl processChar cli (line ++ [t])) = fault cli.
Proof.
  intros Ht Hd Hname Hesc Hlast Hsize Hroom Hlen Hmax Hon Hw Hun.
  rewrite foldl_app. cbn [foldl].
  destruct (typing_line line cli) as (HF & HS & HT & HL & HLa & HX); auto; try lia.
  set (cli2 := foldl processChar cli line) in *.
  pose proof HF as (Eon & Ew & _ & _ & _ & Em & Ebs & Ebc & _ & Efl & Eev).
  rewrite Hsize in HS, HT. cbn [Z.to_nat take app] in HT. rewrite Z.add_0_l in HS.
  rewrite HS, Nat2Z.id in HT.
  assert (Hne : line <> []) by (intros ->; apply Hname; reflexivity).
  rewrite (submit_defined cli2 line t); auto.
  - now rewrite <- Efl.
  - rewrite HLa. destruct line as [|a l]; [congruence|].
    apply last_default_irrelevant.
  - rewrite HL. lia.
  - congruence.
  - congruence.
  - unfold unhandled in *. rewrite <- Ebs, <- Ebc. exact Hun.
Qed.

(** *** The help handler on the memory the dispatcher hands it *)

Lemma countLoop_ends (v : list ascii) : forall (k : nat) tc,
  v !! k = Some NUL -> v !! S k = Some NUL ->
  exists n, countLoop v tc = Some n.
Proof.
  induction v as [|c v IH]; intros k tc Hk Hk1; [discriminate|].
  cbn [countLoop].
  destruct (Ascii.eqb_spec c NUL) as [->|Hc].
  - destruct v as [|c' v']; [discriminate|].
    destruct (Ascii.eqb_spec c' NUL) as [->|Hc']; [eauto|].
    destruct k as [|k]; [cbn in Hk1; congruence|].
    exact (IH k (tc + 1) Hk Hk1).
  - destruct k as [|k]; [cbn in Hk; congruence|].
    exact (IH k tc Hk Hk1).
Qed.

Lemma getTokenCount_ends (v : list ascii) (k : nat) :
  v !! k = Some NUL -> v !! S k = Some NUL ->
  exists n, embeddedCliGetTokenCount v = Some n.
Proof.
  intros Hk Hk1. unfold embeddedCliGetTokenCount.
  destruct v as [|c v']; [discriminate|].
  destruct (Ascii.eqb c NUL); [eauto|].
  destruct (countLoop_ends (c :: v') k 1 Hk Hk1) as (n & ->). cbn. eauto.
Qed.

Lemma getToken_first (v : list ascii) :
  embeddedCliGetTokenCount v = Some 1 -> embeddedCliGetToken v 1 = Token 0.
Proof.
  unfold embeddedCliGetTokenCount, embeddedCliGetToken.
  destruct v as [|c v']; [discriminate|].
  destruct (Ascii.eqb c NUL) eqn:E; [discriminate|]. intros _.
  change (wrap8 1 =? 0) with false. cbv iota.
  change (wrap8 1) with 1. cbn [getTokenLoop]. rewrite Z.eqb_refl.
  cbn. now rewrite E.
Qed.

(** [help] only prints: on argument memory that holds a double terminator
    it changes neither the command line nor the registry, dispatches
    nothing and takes no undefined step. *)
Lemma quiet_onHelp cli tokens :
  tokens = None \/
  (exists v (k : nat), tokens = Some v /\ v !! k = Some NUL /\ v !! S k = Some NUL) ->
  quiet cli (onHelp cli tokens).
Proof.
  intros Ht. unfold onHelp.
  destruct (bindingsCount cli =? 0).
  { do 2 apply quiet_writeToOutput. apply quiet_refl. }
  assert (Hcount : exists n,
            match tokens with
            | None => Some 0
            | Some t => embeddedCliGetTokenCount t
            end = Some n).
  { destruct Ht as [->|(v & k & -> & Hk & Hk1)]; [eauto|].
    exact (getTokenCount_ends v k Hk Hk1). }
  destruct Hcount as (n & Hn). rewrite Hn.
  assert (Husage : forall x, quiet cli (writeToOutput (writeToOutput cli x) lineBreak)).
  { intros x. do 2 apply quiet_writeToOutput. apply quiet_refl. }
  destruct n as [|p|p].
  - apply quiet_printBindings, quiet_refl.
  - destruct tokens as [t|].
    + destruct p; try apply Husage.
      rewrite (getToken_first t Hn).
      destruct (findBinding _ _ _) as [[i b]|].
      * destruct (help b).
        -- apply quiet_writeToOutput, quiet_writeToOutput, quiet_callWriteChar.
           do 3 apply quiet_writeToOutput. apply quiet_refl.
        -- apply Husage.
      * apply quiet_onUnknownCommand, quiet_refl.
    + destruct p; apply Husage.
  - destruct tokens; apply Husage.
Qed.

End DispatchFacts.

(** * The processing loop and the receive buffer *)

Create Rewrite HintDb reframe.

Section ReframeFacts.
Import Fifo Tokens History Cli.

(** The engine code below the processing loop neither reads nor writes the
    receive buffer and the flag word: it commutes with [reframe]. *)

Lemma onCommand_reframe rx v cli : onCommand (reframe rx v cli) = onCommand cli.
Proof. reflexivity. Qed.

Lemma writeChar_reframe rx v cli : writeChar (reframe rx v cli) = writeChar cli.
Proof. reflexivity. Qed.

Lemma invitation_reframe rx v cli : invitation (reframe rx v cli) = invitation cli.
Proof. reflexivity. Qed.

Lemma history_reframe rx v cli : history (reframe rx v cli) = history cli.
Proof. reflexivity. Qed.

Lemma cmdBuffer_reframe rx v cli : cmdBuffer (reframe rx v cli) = cmdBuffer cli.
Proof. reflexivity. Qed.

Lemma cmdSize_reframe rx v cli : cmdSize (reframe rx v cli) = cmdSize cli.
Proof. reflexivity. Qed.

Lemma cmdMaxSize_reframe rx v cli : cmdMaxSize (reframe rx v cli) = cmdMaxSize cli.
Proof. reflexivity. Qed.

Lemma bindings_reframe rx v cli : bindings (reframe rx v cli) = bindings cli.
Proof. reflexivity. Qed.

Lemma bindingsFlags_reframe rx v cli : bindingsFlags (reframe rx v cli) = bindingsFlags cli.
Proof. reflexivity. Qed.

Lemma bindingsCount_reframe rx v cli : bindingsCount (reframe rx v cli) = bindingsCount cli.
Proof. reflexivity. Qed.

Lemma maxBindingsCount_reframe rx v cli : maxBindingsCount (reframe rx v cli) = maxBindingsCount cli.
Proof. reflexivity. Qed.

Lemma lastChar_reframe rx v cli : lastChar (reframe rx v cli) = lastChar cli.
Proof. reflexivity. Qed.

Lemma inputLineLength_reframe rx v cli : inputLineLength (reframe rx v cli) = inputLineLength cli.
Proof. reflexivity. Qed.

Lemma output_reframe rx v cli : output (reframe rx v cli) = output cli.
Proof. reflexivity. Qed.

Lemma events_reframe rx v cli : events (reframe rx v cli) = events cli.
Proof. reflexivity. Qed.

Lemma fault_reframe rx v cli : fault (reframe rx v cli) = fault cli.
Proof. reflexivity. Qed.

Lemma set_onCommand_reframe x rx v cli :
  set_onCommand x (reframe rx v cli) = reframe rx v (set_onCommand x cli).
Proof. reflexivity. Qed.

Lemma set_writeChar_reframe x rx v cli :
  set_writeChar x (reframe rx v cli) = reframe rx v (set_writeChar x cli).
Proof. reflexivity. Qed.

Lemma set_cmdBuffer_reframe x rx v cli :
  set_cmdBuffer x (reframe rx v cli) = reframe rx v (set_cmdBuffer x cli).
Proof. reflexivity. Qed.

Lemma set_cmdSize_reframe x rx v cli :
  set_cmdSize x (reframe rx v cli) = reframe rx v (set_cmdSize x cli).
Proof. reflexivity. Qed.

Lemma set_bindings_reframe x rx v cli :
  set_bindings x (reframe rx v cli) = reframe rx v (set_bindings x cli).
Proof. reflexivity. Qed.

Lemma set_bindingsFlags_reframe x rx v cli :
  set_bindingsFlags x (reframe rx v cli) = reframe rx v (set_bindingsFlags x cli).
Proof. reflexivity. Qed.

Lemma set_bindingsCount_reframe x rx v cli :
  set_bindingsCount x (reframe rx v cli) = reframe rx v (set_bindingsCount x cli).
Proof. reflexivity. Qed.

Lemma set_lastChar_reframe x rx v cli :
  set_lastChar x (reframe rx v cli) = reframe rx v (set_lastChar x cli).
Proof. reflexivity. Qed.

Lemma set_inputLineLength_reframe x rx v cli :
  set_inputLineLength x (reframe rx v cli) = reframe rx v (set_inputLineLength x cli).
Proof. reflexivity. Qed.

Lemma set_output_reframe x rx v cli :
  set_output x (reframe rx v cli) = reframe rx v (set_output x cli).
Proof. reflexivity. Qed.

Lemma set_events_reframe x rx v cli :
  set_events x (reframe rx v cli) = reframe rx v (set_events x cli).
Proof. reflexivity. Qed.

Lemma set_fault_reframe x rx v cli :
  set_fault x (reframe rx v cli) = reframe rx v (set_fault x cli).
Proof. reflexivity. Qed.

Hint Rewrite onCommand_reframe writeChar_reframe invitation_reframe history_reframe cmdBuffer_reframe cmdSize_reframe cmdMaxSize_reframe bindings_reframe bindingsFlags_reframe bindingsCount_reframe maxBindingsCount_reframe lastChar_reframe inputLineLength_reframe output_reframe events_reframe fault_reframe set_onCommand_reframe set_writeChar_reframe set_cmdBuffer_reframe set_cmdSize_reframe set_bindings_reframe set_bindingsFlags_reframe set_bindingsCount_reframe set_lastChar_reframe set_inputLineLength_reframe set_output_reframe set_events_reframe set_fault_reframe : reframe.

Lemma reframe_same cli : reframe (rxBuffer cli) (flags cli) cli = cli.
Proof. destruct cli; reflexivity. Qed.

Ltac reframe_step :=
  autorewrite with reframe;
  try match goal with
  | |- context [if ?b then _ else _] => destruct b eqn:?
  | |- context [match ?x with _ => _ end] => destruct x eqn:?
  end.

Ltac reframe_auto := repeat (progress reframe_step); autorewrite with reframe; try reflexivity.

Lemma callWriteChar_reframe rx v cli c :
  callWriteChar (reframe rx v cli) c = reframe rx v (callWriteChar cli c).
Proof. unfold callWriteChar. reframe_auto. Qed.
Hint Rewrite callWriteChar_reframe : reframe.

Lemma writeToOutput_reframe rx v s : forall cli,
  writeToOutput (reframe rx v cli) s = reframe rx v (writeToOutput cli s).
Proof.
  induction s as [|c s IH]; intros cli; [reflexivity|].
  unfold writeToOutput in *. cbn [foldl]. rewrite callWriteChar_reframe. apply IH.
Qed.
Hint Rewrite writeToOutput_reframe : reframe.

Lemma writeRepeated_reframe rx v n c : forall cli,
  writeRepeated n c (reframe rx v cli) = reframe rx v (writeRepeated n c cli).
Proof.
  induction n as [|n IH]; intros cli; [reflexivity|].
  cbn [writeRepeated]. rewrite callWriteChar_reframe. apply IH.
Qed.
Hint Rewrite writeRepeated_reframe : reframe.

Lemma writeRange_reframe rx v n s : forall i cli,
  writeRange n i s (reframe rx v cli) = reframe rx v (writeRange n i s cli).
Proof.
  induction n as [|n IH]; intros i cli; [reflexivity|].
  cbn [writeRange]. rewrite callWriteChar_reframe. apply IH.
Qed.
Hint Rewrite writeRange_reframe : reframe.

Lemma storeCmd_reframe rx v cli i c :
  storeCmd (reframe rx v cli) i c = reframe rx v (storeCmd cli i c).
Proof. unfold storeCmd. reframe_auto. Qed.
Hint Rewrite storeCmd_reframe : reframe.

Lemma completeRange_reframe rx v n first : forall i cli,
  completeRange n i first (reframe rx v cli) = reframe rx v (completeRange n i first cli).
Proof.
  induction n as [|n IH]; intros i cli; [reflexivity|].
  cbn [completeRange]. rewrite callWriteChar_reframe, storeCmd_reframe. apply IH.
Qed.
Hint Rewrite completeRange_reframe : reframe.

Lemma printCandidates_reframe rx v bs : forall i cli,
  printCandidates bs i (reframe rx v cli) = reframe rx v (printCandidates bs i cli).
Proof.
  induction bs as [|b bs IH]; intros i cli; [reflexivity|].
  cbn [printCandidates]. autorewrite with reframe.
  destruct (negb _); [|apply IH].
  rewrite <- IH. autorewrite with reframe. reflexivity.
Qed.
Hint Rewrite printCandidates_reframe : reframe.

Lemma printBindings_reframe rx v bs : forall cli,
  printBindings bs (reframe rx v cli) = reframe rx v (printBindings bs cli).
Proof.
  induction bs as [|b bs IH]; intros cli; [reflexivity|].
  cbn [printBindings]. autorewrite with reframe.
  destruct (help b); autorewrite with reframe; apply IH.
Qed.
Hint Rewrite printBindings_reframe : reframe.

Lemma clearCurrentLine_reframe rx v cli :
  clearCurrentLine (reframe rx v cli) = reframe rx v (clearCurrentLine cli).
Proof. unfold clearCurrentLine. reframe_auto. Qed.
Hint Rewrite clearCurrentLine_reframe : reframe.

Lemma onUnknownCommand_reframe rx v cli nm :
  onUnknownCommand (reframe rx v cli) nm = reframe rx v (onUnknownCommand cli nm).
Proof. unfold onUnknownCommand. reframe_auto. Qed.
Hint Rewrite onUnknownCommand_reframe : reframe.

Lemma getAutocompletedCommand_reframe rx v cli prefix :
  getAutocompletedCommand (reframe rx v cli) prefix = getAutocompletedCommand cli prefix.
Proof. reflexivity. Qed.
Hint Rewrite getAutocompletedCommand_reframe : reframe.

Lemma printLiveAutocompletion_reframe rx v cli :
  printLiveAutocompletion (reframe rx v cli) = reframe rx v (printLiveAutocompletion cli).
Proof. unfold printLiveAutocompletion. reframe_auto. Qed.

Lemma onAutocompleteRequest_reframe rx v cli :
  onAutocompleteRequest (reframe rx v cli) = reframe rx v (onAutocompleteRequest cli).
Proof. unfold onAutocompleteRequest. reframe_auto. Qed.

Lemma onHelp_reframe rx v cli t :
  onHelp (reframe rx v cli) t = reframe rx v (onHelp cli t).
Proof. unfold onHelp. reframe_auto. Qed.
Hint Rewrite onHelp_reframe : reframe.

Lemma argsView_reframe rx v cli a : argsView (reframe rx v cli) a = argsView cli a.
Proof. reflexivity. Qed.
Hint Rewrite argsView_reframe : reframe.

Lemma dispatchCommand_reframe rx v cli n a :
  dispatchCommand (reframe rx v cli) n a = reframe rx v (dispatchCommand cli n a).
Proof. unfold dispatchCommand. reframe_auto. Qed.
Hint Rewrite dispatchCommand_reframe : reframe.

Lemma parseCommand_reframe rx v cli :
  parseCommand (reframe rx v cli) = reframe rx v (parseCommand cli).
Proof. unfold parseCommand. reframe_auto. Qed.

Lemma onCharInput_reframe rx v cli c :
  onCharInput (reframe rx v cli) c = reframe rx v (onCharInput cli c).
Proof. unfold onCharInput. reframe_auto. Qed.

Hint Rewrite printLiveAutocompletion_reframe onAutocompleteRequest_reframe
  parseCommand_reframe onCharInput_reframe : reframe.

Lemma onControlInput_reframe rx v cli c :
  onControlInput (reframe rx v cli) c = reframe rx v (onControlInput cli c).
Proof. unfold onControlInput. reframe_auto. Qed.

(** A function that commutes with [reframe] keeps both fields. *)
Lemma inner_keeps (f : EmbeddedCli -> EmbeddedCli) :
  (forall rx v cli, f (reframe rx v cli) = reframe rx v (f cli)) ->
  forall cli, f cli = reframe (rxBuffer cli) (flags cli) (f cli).
Proof. intros Hf cli. rewrite <- Hf, reframe_same. reflexivity. Qed.

Lemma inner_set_rxBuffer (f : EmbeddedCli -> EmbeddedCli) :
  (forall rx v cli, f (reframe rx v cli) = reframe rx v (f cli)) ->
  forall rx cli, f (set_rxBuffer rx cli) = set_rxBuffer rx (f cli).
Proof.
  intros Hf rx cli.
  change (set_rxBuffer rx cli) with (reframe rx (flags cli) cli).
  rewrite Hf. rewrite (inner_keeps f Hf cli) at 2. reflexivity.
Qed.

Lemma inner_set_flags (f : EmbeddedCli -> EmbeddedCli) :
  (forall rx v cli, f (reframe rx v cli) = reframe rx v (f cli)) ->
  forall v cli, f (set_flags v cli) = set_flags v (f cli).
Proof.
  intros Hf v cli.
  change (set_flags v cli) with (reframe (rxBuffer cli) v cli).
  rewrite Hf. rewrite (inner_keeps f Hf cli) at 2. reflexivity.
Qed.

Lemma inner_flags (f : EmbeddedCli -> EmbeddedCli) :
  (forall rx v cli, f (reframe rx v cli) = reframe rx v (f cli)) ->
  forall cli, flags (f cli) = flags cli.
Proof. intros Hf cli. rewrite (inner_keeps f Hf cli). reflexivity. Qed.

(** What [processChar] does after routing the byte. *)
Lemma finish_reframe c rx v cli :
  set_lastChar c (printLiveAutocompletion (reframe rx v cli)) =
  reframe rx v (set_lastChar c (printLiveAutocompletion cli)).
Proof. rewrite printLiveAutocompletion_reframe. reflexivity. Qed.

Lemma onControlInput_reframe' c rx v cli :
  onControlInput (reframe rx v cli) c = reframe rx v (onControlInput cli c).
Proof. apply onControlInput_reframe. Qed.

Lemma onCharInput_reframe' c rx v cli :
  onCharInput (reframe rx v cli) c = reframe rx v (onCharInput cli c).
Proof. apply onCharInput_reframe. Qed.

(** The loop body leaves the receive buffer alone. *)
Lemma processChar_rx rx cli c :
  processChar (set_rxBuffer rx cli) c = set_rxBuffer rx (processChar cli c).
Proof.
  unfold processChar.
  rewrite <- (inner_set_rxBuffer _ (finish_reframe c) rx). f_equal. f_equal.
  change (flags (set_rxBuffer rx cli)) with (flags cli).
  change (lastChar (set_rxBuffer rx cli)) with (lastChar cli).
  destruct (IS_FLAG_SET (flags cli) CLI_FLAG_ESCAPE_MODE).
  { unfold onEscapedInput. destruct (_ && _); reflexivity. }
  destruct (_ && _); [reflexivity|].
  destruct (isControlChar c).
  { apply (inner_set_rxBuffer _ (onControlInput_reframe' c)). }
  destruct (isDisplayableChar c); [|reflexivity].
  apply (inner_set_rxBuffer _ (onCharInput_reframe' c)).
Qed.

Lemma foldl_processChar_rx rx s : forall cli,
  foldl processChar (set_rxBuffer rx cli) s = set_rxBuffer rx (foldl processChar cli s).
Proof.
  induction s as [|c s IH]; intros cli; [reflexivity|].
  cbn [foldl]. rewrite processChar_rx. apply IH.
Qed.

(** Receiving bytes that fit appends them to the ring and changes nothing
    else. *)
Lemma receiveString_spec s : forall cli,
  wf (rxBuffer cli) ->
  Z.of_nat (length (contents (rxBuffer cli)) + length s) <= size (rxBuffer cli) - 1 ->
  exists rx, receiveString cli s = set_rxBuffer rx cli /\ wf rx /\
             size rx = size (rxBuffer cli) /\
             contents rx = contents (rxBuffer cli) ++ s.
Proof.
  induction s as [|c s IH]; intros cli Hwf Hfit.
  - exists (rxBuffer cli). rewrite app_nil_r.
    refine (conj _ (conj Hwf (conj eq_refl eq_refl))). destruct cli; reflexivity.
  - unfold receiveString in *. cbn [foldl].
    pose proof (push_spec (rxBuffer cli) c Hwf) as Hp.
    rewrite length_contents in Hfit. cbn [length] in Hfit.
    pose proof (available_range _ Hwf).
    destruct (Z.ltb_spec (fifoBufAvailable (rxBuffer cli)) (size (rxBuffer cli) - 1)); [|lia].
    destruct Hp as (rx1 & Hpush & Hwf1 & Hsz1 & Hc1).
    unfold embeddedCliReceiveChar at 2. rewrite Hpush. cbn [negb].
    destruct (IH (set_rxBuffer rx1 cli)) as (rx & Hrx & Hwfx & Hszx & Hcx).
    + exact Hwf1.
    + cbn [rxBuffer set_rxBuffer]. rewrite Hc1, Hsz1, length_app, length_contents.
      cbn [length]. lia.
    + exists rx. cbn [rxBuffer set_rxBuffer] in *.
      rewrite Hrx, Hcx, Hc1, <- app_assoc.
      refine (conj eq_refl (conj Hwfx (conj _ eq_refl))). congruence.
Qed.

(** The loop drains the ring, feeding each byte to [processChar] in order. *)
Lemma processLoop_spec fuel : forall cli,
  wf (rxBuffer cli) ->
  (length (contents (rxBuffer cli)) <= fuel)%nat ->
  exists rx, processLoop fuel cli =
               set_rxBuffer rx (foldl processChar cli (contents (rxBuffer cli))) /\
             wf rx /\ size rx = size (rxBuffer cli) /\ contents rx = [].
Proof.
  induction fuel as [|fuel IH]; intros cli Hwf Hfuel.
  - destruct (contents (rxBuffer cli)) eqn:Ec; [|simpl in Hfuel; lia].
    exists (rxBuffer cli).
    refine (conj _ (conj Hwf (conj eq_refl Ec))). destruct cli; reflexivity.
  - cbn [processLoop].
    pose proof (pop_spec (rxBuffer cli) Hwf) as Hp.
    pose proof (length_contents (rxBuffer cli)) as Hlc.
    pose proof (available_range _ Hwf) as Hr.
    destruct (contents (rxBuffer cli)) as [|c q] eqn:Ec.
    + cbn [length] in Hlc.
      destruct (Z.eqb_spec (fifoBufAvailable (rxBuffer cli)) 0); [|lia].
      exists (rxBuffer cli).
      refine (conj _ (conj Hwf (conj eq_refl Ec))). destruct cli; reflexivity.
    + cbn [length] in Hlc, Hfuel.
      destruct (Z.eqb_spec (fifoBufAvailable (rxBuffer cli)) 0); [lia|].
      destruct Hp as (rx1 & -> & Hwf1 & Hsz1 & Hc1).
      rewrite processChar_rx.
      destruct (IH (set_rxBuffer rx1 (processChar cli c))) as (rx & Hrx & Hwfx & Hszx & Hcx).
      * exact Hwf1.
      * cbn [rxBuffer set_rxBuffer]. rewrite Hc1. lia.
      * exists rx. cbn [rxBuffer set_rxBuffer] in *.
        rewrite Hrx, Hc1, foldl_processChar_rx. cbn [foldl].
        refine (conj eq_refl (conj Hwfx (conj _ Hcx))). congruence.
Qed.

End ReframeFacts.

(** * Processing calls and fragmented delivery *)

Section ProcessFacts.
Import Fifo Tokens History Cli.

(** A property of every [uint8_t] value, decided by trying all of them. *)
Lemma byte_cases (P : Z -> bool) :
  forallb P (map Z.of_nat (seq 0 256)) = true ->
  forall z, 0 <= z < 256 -> P z = true.
Proof.
  intros H z Hz. rewrite forallb_forall in H. apply H.
  apply in_map_iff. exists (Z.to_nat z). split; [lia|].
  apply in_seq. lia.
Qed.

Lemma wrap8_range z : 0 <= wrap8 z < 256.
Proof. unfold wrap8. apply Z.mod_pos_bound. lia. Qed.

Lemma SET_FLAG_range fl flag : 0 <= SET_FLAG fl flag < 256.
Proof. apply wrap8_range. Qed.

Lemma UNSET_FLAG_range fl flag : 0 <= UNSET_FLAG fl flag < 256.
Proof. apply wrap8_range. Qed.

(** Setting or clearing the escape bit leaves the other flags alone. *)
Lemma escape_bit_independent fl flag :
  0 <= fl < 256 -> flag = CLI_FLAG_OVERFLOW \/ flag = CLI_FLAG_INIT_COMPLETE ->
  IS_FLAG_SET (SET_FLAG fl CLI_FLAG_ESCAPE_MODE) flag = IS_FLAG_SET fl flag /\
  IS_FLAG_SET (UNSET_FLAG fl CLI_FLAG_ESCAPE_MODE) flag = IS_FLAG_SET fl flag.
Proof.
  intros Hfl [->| ->]; split;
    match goal with
    | |- ?l = ?r =>
        let P := eval pattern fl in (Bool.eqb l r) in
        match P with
        | ?Q fl => apply Bool.eqb_prop; apply (byte_cases Q); [vm_compute; reflexivity|exact Hfl]
        end
    end.
Qed.

Lemma init_bit_independent fl :
  0 <= fl < 256 ->
  IS_FLAG_SET (SET_FLAG fl CLI_FLAG_INIT_COMPLETE) CLI_FLAG_OVERFLOW =
    IS_FLAG_SET fl CLI_FLAG_OVERFLOW /\
  IS_FLAG_SET (SET_FLAG fl CLI_FLAG_INIT_COMPLETE) CLI_FLAG_ESCAPE_MODE =
    IS_FLAG_SET fl CLI_FLAG_ESCAPE_MODE /\
  IS_FLAG_SET (SET_FLAG fl CLI_FLAG_INIT_COMPLETE) CLI_FLAG_INIT_COMPLETE = true.
Proof.
  intros Hfl; repeat split;
    match goal with
    | |- ?l = ?r =>
        let P := eval pattern fl in (Bool.eqb l r) in
        match P with
        | ?Q fl => apply Bool.eqb_prop; apply (byte_cases Q); [vm_compute; reflexivity|exact Hfl]
        end
    end.
Qed.

Lemma overflow_bit fl :
  0 <= fl < 256 ->
  IS_FLAG_SET (SET_FLAG fl CLI_FLAG_OVERFLOW) CLI_FLAG_OVERFLOW = true /\
  IS_FLAG_SET (UNSET_FLAG fl CLI_FLAG_OVERFLOW) CLI_FLAG_OVERFLOW = false /\
  IS_FLAG_SET (UNSET_FLAG fl CLI_FLAG_OVERFLOW) CLI_FLAG_ESCAPE_MODE =
    IS_FLAG_SET fl CLI_FLAG_ESCAPE_MODE.
Proof.
  intros Hfl; repeat split;
    match goal with
    | |- ?l = ?r =>
        let P := eval pattern fl in (Bool.eqb l r) in
        match P with
        | ?Q fl => apply Bool.eqb_prop; apply (byte_cases Q); [vm_compute; reflexivity|exact Hfl]
        end
    end.
Qed.

(** The flag word after one byte: unchanged, or the escape bit moved. *)
Lemma processChar_flags cli c :
  flags (processChar cli c) = flags cli \/
  flags (processChar cli c) = SET_FLAG (flags cli) CLI_FLAG_ESCAPE_MODE \/
  flags (processChar cli c) = UNSET_FLAG (flags cli) CLI_FLAG_ESCAPE_MODE.
Proof.
  unfold processChar.
  change (flags (set_lastChar c ?x)) with (flags x).
  rewrite (inner_flags _ printLiveAutocompletion_reframe).
  destruct (IS_FLAG_SET (flags cli) CLI_FLAG_ESCAPE_MODE).
  { unfold onEscapedInput. destruct (_ && _); cbn; auto. }
  destruct (_ && _); [cbn; auto|].
  destruct (isControlChar c).
  { left. apply (inner_flags _ (onControlInput_reframe' c)). }
  destruct (isDisplayableChar c); [|auto].
  left. apply (inner_flags _ (onCharInput_reframe' c)).
Qed.

Lemma processChar_flags_range cli c :
  0 <= flags cli < 256 -> 0 <= flags (processChar cli c) < 256.
Proof.
  intros H. destruct (processChar_flags cli c) as [->|[->| ->]];
    auto using SET_FLAG_range, UNSET_FLAG_range.
Qed.

Lemma processChar_keeps_flag cli c flag :
  0 <= flags cli < 256 -> flag = CLI_FLAG_OVERFLOW \/ flag = CLI_FLAG_INIT_COMPLETE ->
  IS_FLAG_SET (flags (processChar cli c)) flag = IS_FLAG_SET (flags cli) flag.
Proof.
  intros H Hf. destruct (escape_bit_independent _ _ H Hf) as [Hs Hu].
  destruct (processChar_flags cli c) as [->|[->| ->]]; auto.
Qed.

Lemma foldl_processChar_flags s : forall cli flag,
  0 <= flags cli < 256 -> flag = CLI_FLAG_OVERFLOW \/ flag = CLI_FLAG_INIT_COMPLETE ->
  0 <= flags (foldl processChar cli s) < 256 /\
  IS_FLAG_SET (flags (foldl processChar cli s)) flag = IS_FLAG_SET (flags cli) flag.
Proof.
  induction s as [|c s IH]; intros cli flag H Hf; [auto|].
  cbn [foldl]. destruct (IH (processChar cli c) flag) as [Hr Hb];
    auto using processChar_flags_range.
  split; [assumption|]. rewrite Hb. now apply processChar_keeps_flag.
Qed.

Lemma embeddedCliProcess_parts cli :
  embeddedCliProcess cli =
    finishProcess
      (processLoop (Z.to_nat (fifoBufAvailable (rxBuffer (startProcess cli))))
         (startProcess cli)).
Proof. reflexivity. Qed.

Lemma startProcess_rxBuffer cli : rxBuffer (startProcess cli) = rxBuffer cli.
Proof.
  unfold startProcess. destruct (negb _); [|reflexivity].
  pose proof (quiet_writeToOutput
                (set_flags (SET_FLAG (flags cli) CLI_FLAG_INIT_COMPLETE) cli)
                (invitation (set_flags (SET_FLAG (flags cli) CLI_FLAG_INIT_COMPLETE) cli))
                _ (quiet_refl _)) as Hq.
  apply quiet_fields in Hq as ((_ & _ & _ & _ & Hrx & _) & _). rewrite <- Hrx. reflexivity.
Qed.

Lemma finishProcess_rx rx cli :
  finishProcess (set_rxBuffer rx cli) = set_rxBuffer rx (finishProcess cli).
Proof. unfold finishProcess. cbn [flags set_rxBuffer]. destruct (IS_FLAG_SET _ _); reflexivity. Qed.

(** One processing call: the ring is drained in order. *)
Lemma process_spec cli :
  wf (rxBuffer cli) ->
  exists rx,
    embeddedCliProcess cli =
      set_rxBuffer rx
        (finishProcess (foldl processChar (startProcess cli) (contents (rxBuffer cli)))) /\
    wf rx /\ size rx = size (rxBuffer cli) /\ contents rx = [].
Proof.
  intros Hwf. rewrite embeddedCliProcess_parts.
  destruct (processLoop_spec
              (Z.to_nat (fifoBufAvailable (rxBuffer (startProcess cli))))
              (startProcess cli)) as (rx & Hrx & Hwfx & Hszx & Hcx).
  - now rewrite startProcess_rxBuffer.
  - rewrite length_contents. lia.
  - exists rx. rewrite Hrx, finishProcess_rx, startProcess_rxBuffer in *.
    refine (conj eq_refl (conj Hwfx (conj Hszx Hcx))).
Qed.

(** A chunk received and processed by an engine whose ring was empty. *)
Lemma chunk_spec cli chunk :
  wf (rxBuffer cli) -> contents (rxBuffer cli) = [] ->
  Z.of_nat (length chunk) <= size (rxBuffer cli) - 1 ->
  exists rx,
    embeddedCliProcess (receiveString cli chunk) =
      set_rxBuffer rx (finishProcess (foldl processChar (startProcess cli) chunk)) /\
    wf rx /\ size rx = size (rxBuffer cli) /\ contents rx = [].
Proof.
  intros Hwf Hempty Hfit.
  destruct (receiveString_spec chunk cli Hwf) as (rx1 & Hr & Hwf1 & Hsz1 & Hc1).
  { rewrite Hempty. cbn [length]. lia. }
  rewrite Hempty in Hc1. cbn [app] in Hc1.
  destruct (process_spec (set_rxBuffer rx1 cli)) as (rx & Hp & Hwfx & Hszx & Hcx);
    [exact Hwf1|].
  cbn [rxBuffer set_rxBuffer] in *.
  exists rx. rewrite Hr, Hp, Hc1.
  assert (Hs : startProcess (set_rxBuffer rx1 cli) = set_rxBuffer rx1 (startProcess cli)).
  { unfold startProcess. cbn [flags set_rxBuffer invitation].
    destruct (negb _); [|reflexivity].
    exact (inner_set_rxBuffer (fun x => writeToOutput x (invitation cli))
             (fun rx v c => writeToOutput_reframe rx v (invitation cli) c) rx1
             (set_flags (SET_FLAG (flags cli) CLI_FLAG_INIT_COMPLETE) cli)). }
  rewrite Hs, foldl_processChar_rx, finishProcess_rx.
  refine (conj eq_refl (conj Hwfx (conj _ Hcx))). congruence.
Qed.

Lemma startProcess_flags cli :
  0 <= flags cli < 256 ->
  0 <= flags (startProcess cli) < 256 /\
  IS_FLAG_SET (flags (startProcess cli)) CLI_FLAG_INIT_COMPLETE = true /\
  IS_FLAG_SET (flags (startProcess cli)) CLI_FLAG_OVERFLOW =
    IS_FLAG_SET (flags cli) CLI_FLAG_OVERFLOW /\
  IS_FLAG_SET (flags (startProcess cli)) CLI_FLAG_ESCAPE_MODE =
    IS_FLAG_SET (flags cli) CLI_FLAG_ESCAPE_MODE.
Proof.
  intros H. unfold startProcess.
  destruct (IS_FLAG_SET (flags cli) CLI_FLAG_INIT_COMPLETE) eqn:E; cbn [negb].
  - auto.
  - pose proof (quiet_writeToOutput
                (set_flags (SET_FLAG (flags cli) CLI_FLAG_INIT_COMPLETE) cli)
                (invitation (set_flags (SET_FLAG (flags cli) CLI_FLAG_INIT_COMPLETE) cli))
                _ (quiet_refl _)) as Hq.
    apply quiet_fields in Hq as ((_&_&_&_&_&_&_&_&_&Hfl&_) & _).
    rewrite <- Hfl. cbn [flags set_flags].
    destruct (init_bit_independent _ H) as (H1 & H2 & H3).
    auto using SET_FLAG_range.
Qed.

Lemma startProcess_started cli :
  IS_FLAG_SET (flags cli) CLI_FLAG_INIT_COMPLETE = true -> startProcess cli = cli.
Proof. intros H. unfold startProcess. rewrite H. reflexivity. Qed.

Lemma finishProcess_clear cli :
  IS_FLAG_SET (flags cli) CLI_FLAG_OVERFLOW = false -> finishProcess cli = cli.
Proof. intros H. unfold finishProcess. rewrite H. reflexivity. Qed.

(** Chunks that fit, delivered to an engine with an empty ring and no
    overflow pending: the bytes reach [processChar] one by one, in order,
    whatever the fragmentation. *)
Lemma deliver_spec chunks : forall cli,
  chunks <> [] ->
  wf (rxBuffer cli) -> contents (rxBuffer cli) = [] ->
  0 <= flags cli < 256 ->
  IS_FLAG_SET (flags cli) CLI_FLAG_OVERFLOW = false ->
  Forall (fun chunk => Z.of_nat (length chunk) <= size (rxBuffer cli) - 1) chunks ->
  exists rx,
    deliver cli chunks =
      set_rxBuffer rx (foldl processChar (startProcess cli) (concat chunks)) /\
    wf rx /\ size rx = size (rxBuffer cli) /\ contents rx = [].
Proof.
  induction chunks as [|c1 rest IH]; intros cli Hne Hwf Hempty Hfl Hov Hfit; [congruence|].
  inversion Hfit as [|? ? Hfit1 Hfitr]; subst.
  destruct (chunk_spec cli c1 Hwf Hempty Hfit1) as (rx1 & Hp & Hwf1 & Hsz1 & Hc1).
  destruct (startProcess_flags cli Hfl) as (Hr0 & Hinit0 & Hov0 & _).
  destruct (foldl_processChar_flags c1 (startProcess cli) CLI_FLAG_OVERFLOW Hr0)
    as (Hr1 & Hov1); [now left|].
  destruct (foldl_processChar_flags c1 (startProcess cli) CLI_FLAG_INIT_COMPLETE Hr0)
    as (_ & Hinit1); [now right|].
  set (B := foldl processChar (startProcess cli) c1) in *.
  rewrite finishProcess_clear in Hp by congruence.
  unfold deliver in *. cbn [foldl concat]. rewrite Hp.
  destruct rest as [|c2 rest'].
  - cbn [foldl concat]. rewrite app_nil_r. exists rx1. fold B.
    refine (conj eq_refl (conj Hwf1 (conj Hsz1 Hc1))).
  - destruct (IH (set_rxBuffer rx1 B)) as (rx & Hd & Hwfx & Hszx & Hcx);
      cbn [rxBuffer set_rxBuffer flags]; auto; try congruence.
    { rewrite Hsz1. assumption. }
    rewrite Hd. exists rx.
    assert (Hs : startProcess (set_rxBuffer rx1 B) = set_rxBuffer rx1 B).
    { apply startProcess_started. cbn [flags set_rxBuffer]. congruence. }
    rewrite Hs, foldl_processChar_rx, foldl_app. fold B.
    cbn [rxBuffer set_rxBuffer] in *.
    refine (conj eq_refl (conj Hwfx (conj _ Hcx))). congruence.
Qed.

Lemma startProcess_fields cli :
  events (startProcess cli) = events cli /\
  lastChar (startProcess cli) = lastChar cli /\
  cmdSize (startProcess cli) = cmdSize cli /\
  cmdMaxSize (startProcess cli) = cmdMaxSize cli /\
  cmdBuffer (startProcess cli) = cmdBuffer cli /\
  onCommand (startProcess cli) = onCommand cli /\
  bindings (startProcess cli) = bindings cli /\
  bindingsCount (startProcess cli) = bindingsCount cli.
Proof.
  unfold startProcess. destruct (negb _); [|repeat split; reflexivity].
  pose proof (quiet_writeToOutput
                (set_flags (SET_FLAG (flags cli) CLI_FLAG_INIT_COMPLETE) cli)
                (invitation (set_flags (SET_FLAG (flags cli) CLI_FLAG_INIT_COMPLETE) cli))
                _ (quiet_refl _)) as Hq.
  apply quiet_fields in Hq
    as ((Hon&_&_&_&_&Hm&Hb&Hbc&_&_&Hev) & Hbuf & Hsz & Hl & _).
  cbn [onCommand cmdMaxSize bindings bindingsCount events cmdBuffer cmdSize lastChar
       set_flags] in *.
  repeat split; congruence.
Qed.

Lemma control_not_displayable t : t = CR \/ t = LF -> isDisplayableChar t = false.
Proof. intros [->| ->]; reflexivity. Qed.

Lemma not_in_displayable t (l : list ascii) :
  isDisplayableChar t = false ->
  Forall (fun c => isDisplayableChar c = true) l -> ~ In t l.
Proof.
  intros Ht Hl Hin. rewrite List.Forall_forall in Hl.
  specialize (Hl t Hin). congruence.
Qed.

Lemma prefix_of_line (l1 l2 line : list ascii) t :
  l1 ++ l2 = line ++ [t] ->
  l1 = line ++ [t] \/ exists l2', line = l1 ++ l2'.
Proof.
  intros H. destruct l2 as [|x l2' _] using rev_ind.
  - left. now rewrite app_nil_r in H.
  - right. exists l2'. rewrite app_assoc in H.
    apply app_inj_tail in H as [H _]. now symmetry.
Qed.

Lemma unhandled_startProcess cli nm : unhandled cli nm -> unhandled (startProcess cli) nm.
Proof.
  destruct (startProcess_fields cli) as (_&_&_&_&_&_&Hb&Hbc).
  unfold unhandled. now rewrite Hb, Hbc.
Qed.

Lemma startProcess_defined cli :
  writeChar cli = true ->
  writeChar (startProcess cli) = true /\ fault (startProcess cli) = fault cli.
Proof.
  intros Hw. unfold startProcess. destruct (negb _); [|split; [exact Hw|reflexivity]].
  pose proof (quiet_writeToOutput
                (set_flags (SET_FLAG (flags cli) CLI_FLAG_INIT_COMPLETE) cli)
                (invitation (set_flags (SET_FLAG (flags cli) CLI_FLAG_INIT_COMPLETE) cli))
                _ (quiet_refl _)) as Hq.
  apply quiet_fields in Hq as ((_ & Ew & _) & _ & _ & _ & HX).
  cbn [writeChar fault set_flags] in *. split; [congruence|apply HX, Hw].
Qed.

(** The bytes of a well-formed line and one terminator, delivered in any
    fragmentation to an engine that is ready for the line: nothing is
    dispatched while the terminator is outstanding, and exactly the one
    command of the line once it has been processed.  No step of the run is
    undefined. *)
Lemma deliver_line cli line t chunks1 chunks2 :
  readyFor cli line -> wellFormedLine line -> t = CR \/ t = LF ->
  concat (chunks1 ++ chunks2) = line ++ [t] ->
  (~ In t (concat chunks1) -> events (deliver cli chunks1) = events cli) /\
  (In t (concat chunks1) ->
   events (deliver cli chunks1) =
     events cli ++ [CommandReceived (lineName line) (lineArgs line)]) /\
  fault (deliver cli chunks1) = fault cli.
Proof.
  intros (Hwf & Hempty & Hfl & Hesc & Hov & Hlast & Hsize & Hlen & Hmax & Hon & Hw &
          Hroom & Hfit & Hun) (Hd & Hname) Ht Hcat.
  rewrite concat_app in Hcat.
  destruct chunks1 as [|c1 rest1].
  { split; [reflexivity|split; [intros []|reflexivity]]. }
  assert (Hfits : Forall (fun chunk => Z.of_nat (length chunk) <= size (rxBuffer cli) - 1)
                    (c1 :: rest1)).
  { apply List.Forall_forall. intros chunk Hin.
    assert (Hle : (length chunk <= length (concat (c1 :: rest1)))%nat).
    { clear -Hin. induction (c1 :: rest1) as [|x l IH]; [destruct Hin|].
      cbn [concat]. rewrite length_app. destruct Hin as [->|Hin]; [lia|].
      specialize (IH Hin). lia. }
    assert (Hle2 : (length (concat (c1 :: rest1)) <= length (line ++ [t]))%nat).
    { rewrite <- Hcat, length_app. lia. }
    rewrite length_app in Hle2. cbn [length] in Hle2. lia. }
  assert (Hne1 : c1 :: rest1 <> []) by discriminate.
  destruct (deliver_spec (c1 :: rest1) cli Hne1 Hwf Hempty Hfl Hov Hfits) as (rx & Hd1 & _).
  rewrite Hd1. cbn [events fault set_rxBuffer]. clear Hd1.
  destruct (startProcess_fields cli) as (Hev & Hla & Hsz & Hm & Hbuf & Hon' & _).
  destruct (startProcess_defined cli Hw) as (Hw' & Hfa).
  destruct (startProcess_flags cli Hfl) as (_ & _ & _ & Hesc').
  assert (Hesc'' : IS_FLAG_SET (flags (startProcess cli)) CLI_FLAG_ESCAPE_MODE = false)
    by congruence.
  set (X := startProcess cli) in *.
  pose proof (control_not_displayable t Ht) as Hnd.
  destruct (prefix_of_line _ _ _ _ Hcat) as [Hfull|(l2' & Hpre)].
  - rewrite Hfull. split; [|split].
    + intros Hnin. exfalso. apply Hnin. apply in_or_app. right. now left.
    + intros _. rewrite <- Hev. apply line_dispatch; auto; try congruence.
      now apply unhandled_startProcess.
    + rewrite <- Hfa. apply line_defined; auto; try congruence.
      now apply unhandled_startProcess.
  - assert (Hd1 : Forall (fun c => isDisplayableChar c = true) (concat (c1 :: rest1))).
    { rewrite Hpre in Hd. apply Forall_app in Hd. tauto. }
    assert (Hroom' : cmdSize X + Z.of_nat (length (concat (c1 :: rest1))) + 1
                     < cmdMaxSize X).
    { rewrite Hsz, Hsize, Hm. rewrite Hpre, length_app in Hroom. lia. }
    assert (H0 : 0 <= cmdSize X) by (rewrite Hsz, Hsize; lia).
    assert (Hlen' : cmdMaxSize X = Z.of_nat (length (cmdBuffer X))) by congruence.
    assert (Hmax' : cmdMaxSize X <= 65536) by congruence.
    assert (Hlast' : lastChar X <> ESC) by congruence.
    destruct (typing_line (concat (c1 :: rest1)) X Hd1 Hesc'' Hlast' H0 Hroom' Hlen' Hmax')
      as (HF & _ & _ & _ & _ & HX).
    split; [|split].
    + intros _. rewrite <- Hev. symmetry. apply HF.
    + intros Hin. exfalso. eapply not_in_displayable; eauto.
    + rewrite <- Hfa. apply HX, Hw'.
Qed.

End ProcessFacts.

(** * The overflow flag *)

Section OverflowFacts.
Import Fifo Tokens History Cli.

Ltac by_byte_cases fl Hfl :=
  match goal with
  | |- ?l = true =>
      let P := eval pattern fl in l in
      match P with
      | ?Q fl => apply (byte_cases Q); [vm_compute; reflexivity|exact Hfl]
      end
  end.

Lemma toggled_facts fl :
  0 <= fl < 256 ->
  (0 <=? toggled fl) && (toggled fl <? 256) &&
  Bool.eqb (IS_FLAG_SET (toggled fl) CLI_FLAG_ESCAPE_MODE)
           (IS_FLAG_SET fl CLI_FLAG_ESCAPE_MODE) &&
  Bool.eqb (IS_FLAG_SET (toggled fl) CLI_FLAG_INIT_COMPLETE)
           (IS_FLAG_SET fl CLI_FLAG_INIT_COMPLETE) &&
  (SET_FLAG (toggled fl) CLI_FLAG_ESCAPE_MODE =? toggled (SET_FLAG fl CLI_FLAG_ESCAPE_MODE)) &&
  (UNSET_FLAG (toggled fl) CLI_FLAG_ESCAPE_MODE =?
     toggled (UNSET_FLAG fl CLI_FLAG_ESCAPE_MODE)) &&
  (SET_FLAG (toggled fl) CLI_FLAG_INIT_COMPLETE =?
     toggled (SET_FLAG fl CLI_FLAG_INIT_COMPLETE)) &&
  implb (IS_FLAG_SET fl CLI_FLAG_OVERFLOW)
        (UNSET_FLAG fl CLI_FLAG_OVERFLOW =? toggled fl) = true.
Proof. intros Hfl. by_byte_cases fl Hfl. Qed.

Lemma toggled_split fl :
  0 <= fl < 256 ->
  0 <= toggled fl < 256 /\
  IS_FLAG_SET (toggled fl) CLI_FLAG_ESCAPE_MODE = IS_FLAG_SET fl CLI_FLAG_ESCAPE_MODE /\
  IS_FLAG_SET (toggled fl) CLI_FLAG_INIT_COMPLETE = IS_FLAG_SET fl CLI_FLAG_INIT_COMPLETE /\
  SET_FLAG (toggled fl) CLI_FLAG_ESCAPE_MODE = toggled (SET_FLAG fl CLI_FLAG_ESCAPE_MODE) /\
  UNSET_FLAG (toggled fl) CLI_FLAG_ESCAPE_MODE = toggled (UNSET_FLAG fl CLI_FLAG_ESCAPE_MODE) /\
  SET_FLAG (toggled fl) CLI_FLAG_INIT_COMPLETE = toggled (SET_FLAG fl CLI_FLAG_INIT_COMPLETE) /\
  (IS_FLAG_SET fl CLI_FLAG_OVERFLOW = true -> UNSET_FLAG fl CLI_FLAG_OVERFLOW = toggled fl).
Proof.
  intros Hfl. pose proof (toggled_facts fl Hfl) as H.
  repeat (apply andb_true_iff in H; destruct H as [H ?]).
  repeat split; try (apply Z.leb_le; assumption); try (apply Z.ltb_lt; assumption);
    try (apply Bool.eqb_prop; assumption); try (apply Z.eqb_eq; assumption).
  intros Hs. rewrite Hs in *. apply Z.eqb_eq. assumption.
Qed.

(** The loop body does not look at the overflow bit: with the bit
    inverted before the byte, the result is the same state with the bit
    inverted. *)
Lemma processChar_toggled cli c :
  0 <= flags cli < 256 ->
  processChar (set_flags (toggled (flags cli)) cli) c =
    set_flags (toggled (flags (processChar cli c))) (processChar cli c).
Proof.
  intros Hfl.
  destruct (toggled_split _ Hfl) as (_ & Hesc & _ & Hset & Hunset & _ & _).
  unfold processChar.
  change (flags (set_flags ?v cli)) with v.
  change (lastChar (set_flags ?v cli)) with (lastChar cli).
  rewrite Hesc.
  change (flags (set_lastChar c ?x)) with (flags x).
  rewrite (inner_flags _ printLiveAutocompletion_reframe).
  rewrite <- (inner_set_flags _ (finish_reframe c)). f_equal. f_equal.
  destruct (IS_FLAG_SET (flags cli) CLI_FLAG_ESCAPE_MODE).
  { unfold onEscapedInput. destruct (_ && _).
    - change (flags (set_flags ?v cli)) with v. rewrite Hunset. reflexivity.
    - reflexivity. }
  destruct (_ && _).
  { change (flags (set_flags ?v cli)) with v. rewrite Hset. reflexivity. }
  destruct (isControlChar c).
  { rewrite (inner_flags _ (onControlInput_reframe' c)).
    apply (inner_set_flags _ (onControlInput_reframe' c)). }
  destruct (isDisplayableChar c); [|reflexivity].
  rewrite (inner_flags _ (onCharInput_reframe' c)).
  apply (inner_set_flags _ (onCharInput_reframe' c)).
Qed.

Lemma foldl_processChar_toggled s : forall cli,
  0 <= flags cli < 256 ->
  foldl processChar (set_flags (toggled (flags cli)) cli) s =
    set_flags (toggled (flags (foldl processChar cli s))) (foldl processChar cli s).
Proof.
  induction s as [|c s IH]; intros cli Hfl; [reflexivity|].
  cbn [foldl]. rewrite processChar_toggled by assumption.
  pose proof (processChar_flags_range cli c Hfl) as Hr.
  specialize (IH (processChar cli c) Hr). exact IH.
Qed.

Lemma startProcess_toggled cli :
  0 <= flags cli < 256 ->
  startProcess (set_flags (toggled (flags cli)) cli) =
    set_flags (toggled (flags (startProcess cli))) (startProcess cli).
Proof.
  intros Hfl.
  destruct (toggled_split _ Hfl) as (_ & _ & Hinit & _ & _ & Hset & _).
  unfold startProcess.
  change (flags (set_flags ?v cli)) with v. rewrite Hinit.
  destruct (negb _); [|reflexivity].
  change (invitation (set_flags ?v ?x)) with (invitation x).
  change (set_flags ?v (set_flags ?w cli)) with (set_flags v cli).
  rewrite Hset.
  pose proof (fun v x => inner_set_flags (fun y => writeToOutput y (invitation cli))
                 (fun rx v c => writeToOutput_reframe rx v (invitation cli) c) v x) as Hw.
  pose proof (inner_flags (fun y => writeToOutput y (invitation cli))
                 (fun rx v c => writeToOutput_reframe rx v (invitation cli) c)) as Hf.
  cbv beta in Hw, Hf.
  rewrite Hf. change (flags (set_flags ?v cli)) with v.
  rewrite <- Hw. reflexivity.
Qed.

(** Whether or not the overflow flag is up, a processing call dispatches
    the same commands. *)
Lemma process_events_overflow cli :
  wf (rxBuffer cli) -> 0 <= flags cli < 256 ->
  events (embeddedCliProcess (set_flags (toggled (flags cli)) cli)) =
  events (embeddedCliProcess cli).
Proof.
  intros Hwf Hfl.
  destruct (process_spec cli Hwf) as (rx1 & -> & _).
  destruct (process_spec (set_flags (toggled (flags cli)) cli) Hwf) as (rx2 & -> & _).
  change (rxBuffer (set_flags ?v cli)) with (rxBuffer cli).
  rewrite startProcess_toggled by assumption.
  destruct (startProcess_flags cli Hfl) as (Hr & _).
  rewrite foldl_processChar_toggled by assumption.
  cbn [events set_rxBuffer]. unfold finishProcess.
  repeat match goal with
         | |- context [if ?b then _ else _] => destruct b
         end; reflexivity.
Qed.

End OverflowFacts.

(** * The claims about the engine *)

Section Claims.
Import Fifo Tokens History Cli.

Ltac ready_now :=
  unfold readyFor, wf; repeat split; vm_compute;
  try reflexivity; try discriminate; try exact I; try (intros; discriminate).

(** C1.  The bytes of ["set led 1 7"] and one line terminator, delivered
    in any fragmentation to an engine that is ready for the line, dispatch
    nothing while the terminator is outstanding and, once it has been
    processed, exactly one command: name ["set"], arguments ["led 1 7"],
    not tokenized.  The run takes no undefined step. *)
Theorem set_led_dispatched_once cli t chunks1 chunks2 :
  readyFor cli (str "set led 1 7") ->
  t = CR \/ t = LF ->
  concat (chunks1 ++ chunks2) = str "set led 1 7" ++ [t] ->
  (~ In t (concat chunks1) -> events (deliver cli chunks1) = events cli) /\
  (In t (concat chunks1) ->
   events (deliver cli chunks1) =
     events cli ++ [CommandReceived (str "set") (Some (str "led 1 7"))]) /\
  fault (deliver cli chunks1) = fault cli.
Proof.
  intros Hready Ht Hcat.
  apply (deliver_line cli (str "set led 1 7") t chunks1 chunks2); auto.
  split; [|discriminate]. repeat constructor.
Qed.

Lemma set_led_dispatched_once_witness :
  events (deliver testCli [str "set "; str "led 1"]) = [] /\
  events (deliver testCli [str "set "; str "led 1"; str " 7" ++ [LF]]) =
    [CommandReceived (str "set") (Some (str "led 1 7"))] /\
  fault (deliver testCli [str "set "; str "led 1"; str " 7" ++ [LF]]) = false.
Proof.
  assert (Hready : readyFor testCli (str "set led 1 7")) by ready_now.
  destruct (set_led_dispatched_once testCli LF [str "set "; str "led 1"]
              [str " 7" ++ [LF]] Hready (or_intror eq_refl) eq_refl) as (Hbefore & _ & _).
  destruct (set_led_dispatched_once testCli LF
              [str "set "; str "led 1"; str " 7" ++ [LF]] [] Hready
              (or_intror eq_refl) eq_refl) as (_ & Hafter & Hdefined).
  split; [|split].
  - apply Hbefore.
    vm_compute. intros H. repeat (destruct H as [H|H]; [discriminate H|]). exact H.
  - apply Hafter. vm_compute. tauto.
  - exact Hdefined.
Defined.

Lemma receive_sets_overflow cli c :
  0 <= flags cli < 256 ->
  (fst (fifoBufPush (rxBuffer cli) c) = false ->
   IS_FLAG_SET (flags (embeddedCliReceiveChar cli c)) CLI_FLAG_OVERFLOW = true) /\
  (IS_FLAG_SET (flags cli) CLI_FLAG_OVERFLOW = true ->
   IS_FLAG_SET (flags (embeddedCliReceiveChar cli c)) CLI_FLAG_OVERFLOW = true).
Proof.
  intros Hfl. destruct (overflow_bit _ Hfl) as (Hset & _ & _).
  unfold embeddedCliReceiveChar.
  destruct (fifoBufPush (rxBuffer cli) c) as [[|] rx]; cbn [fst negb flags set_flags set_rxBuffer];
    split; intros H; try discriminate; assumption.
Qed.

Lemma process_after_overflow cli :
  wf (rxBuffer cli) -> 0 <= flags cli < 256 ->
  IS_FLAG_SET (flags cli) CLI_FLAG_OVERFLOW = true ->
  cmdSize (embeddedCliProcess cli) = 0 /\
  0 <= flags (embeddedCliProcess cli) < 256 /\
  IS_FLAG_SET (flags (embeddedCliProcess cli)) CLI_FLAG_OVERFLOW = false /\
  wf (rxBuffer (embeddedCliProcess cli)) /\
  contents (rxBuffer (embeddedCliProcess cli)) = [] /\
  size (rxBuffer (embeddedCliProcess cli)) = size (rxBuffer cli).
Proof.
  intros Hwf Hfl Hov.
  destruct (process_spec cli Hwf) as (rx & -> & Hwfx & Hszx & Hcx).
  destruct (startProcess_flags cli Hfl) as (Hr0 & _ & Hov0 & _).
  destruct (foldl_processChar_flags (contents (rxBuffer cli)) (startProcess cli)
              CLI_FLAG_OVERFLOW Hr0) as (Hr1 & Hov1); [now left|].
  set (Z := foldl processChar (startProcess cli) (contents (rxBuffer cli))) in *.
  unfold finishProcess. rewrite Hov1, Hov0, Hov.
  cbn [cmdSize flags rxBuffer set_rxBuffer set_flags set_cmdSize].
  destruct (overflow_bit _ Hr1) as (_ & Hclear & _).
  refine (conj eq_refl (conj (UNSET_FLAG_range _ _) (conj Hclear (conj Hwfx (conj Hcx Hszx))))).
Qed.

(** C5, as the code has it.  A failed push raises the overflow flag and
    the flag stays up until the next processing call.  That call ends with
    the command line reset to length zero and the flag cleared; it
    dispatches the same commands as it would without the flag.  A
    well-formed line received afterwards is dispatched as one command,
    without any undefined step, provided the drained bytes did not leave
    the engine inside an escape sequence (the recovery resets the line
    length, not the escape state). *)
Theorem overflow_recovery cli :
  wf (rxBuffer cli) -> 0 <= flags cli < 256 ->
  (forall c,
      (fst (fifoBufPush (rxBuffer cli) c) = false ->
       IS_FLAG_SET (flags (embeddedCliReceiveChar cli c)) CLI_FLAG_OVERFLOW = true) /\
      (IS_FLAG_SET (flags cli) CLI_FLAG_OVERFLOW = true ->
       IS_FLAG_SET (flags (embeddedCliReceiveChar cli c)) CLI_FLAG_OVERFLOW = true)) /\
  (IS_FLAG_SET (flags cli) CLI_FLAG_OVERFLOW = true ->
   cmdSize (embeddedCliProcess cli) = 0 /\
   IS_FLAG_SET (flags (embeddedCliProcess cli)) CLI_FLAG_OVERFLOW = false /\
   events (embeddedCliProcess cli) =
     events (embeddedCliProcess
               (set_flags (UNSET_FLAG (flags cli) CLI_FLAG_OVERFLOW) cli)) /\
   forall line t,
     wellFormedLine line -> t = CR \/ t = LF ->
     IS_FLAG_SET (flags (embeddedCliProcess cli)) CLI_FLAG_ESCAPE_MODE = false ->
     lastChar (embeddedCliProcess cli) <> ESC ->
     cmdMaxSize (embeddedCliProcess cli) =
       Z.of_nat (length (cmdBuffer (embeddedCliProcess cli))) ->
     cmdMaxSize (embeddedCliProcess cli) <= 65536 ->
     onCommand (embeddedCliProcess cli) = true ->
     writeChar (embeddedCliProcess cli) = true ->
     Z.of_nat (length line) + 1 < cmdMaxSize (embeddedCliProcess cli) ->
     Z.of_nat (length line) + 1 <= size (rxBuffer cli) - 1 ->
     unhandled (embeddedCliProcess cli) (lineName line) ->
     events (embeddedCliProcess (receiveString (embeddedCliProcess cli) (line ++ [t]))) =
       events (embeddedCliProcess cli) ++
       [CommandReceived (lineName line) (lineArgs line)] /\
     fault (embeddedCliProcess (receiveString (embeddedCliProcess cli) (line ++ [t]))) =
       fault (embeddedCliProcess cli)).
Proof.
  intros Hwf Hfl. split.
  - intros c. now apply receive_sets_overflow.
  - intros Hov.
    destruct (process_after_overflow cli Hwf Hfl Hov)
      as (Hsize & Hfl' & Hov' & Hwf' & Hempty' & Hsz').
    split; [exact Hsize|]. split; [exact Hov'|]. split.
    + destruct (toggled_split _ Hfl) as (_ & _ & _ & _ & _ & _ & Hun).
      rewrite (Hun Hov). symmetry. now apply process_events_overflow.
    + intros line t Hline Ht Hesc Hlast Hlen Hmax Hon Hw Hroom Hfit Hunh.
      set (cli' := embeddedCliProcess cli) in *.
      assert (Hready : readyFor cli' line).
      { refine (conj Hwf' (conj Hempty' (conj Hfl' (conj Hesc (conj Hov' (conj Hlast
                 (conj Hsize (conj Hlen (conj Hmax (conj Hon (conj Hw (conj Hroom
                 (conj _ Hunh))))))))))))).
        rewrite Hsz'. exact Hfit. }
      destruct (deliver_line cli' line t [line ++ [t]] [] Hready Hline Ht)
        as (_ & Hev & Hdefined).
      * cbn [app concat]. now rewrite app_nil_r.
      * split; [|exact Hdefined].
        apply Hev. cbn [concat]. rewrite app_nil_r. apply in_or_app. right. now left.
Qed.

Lemma overflow_recovery_witness :
  IS_FLAG_SET (flags (receiveString testCli overflowingInput)) CLI_FLAG_OVERFLOW = true /\
  cmdSize (embeddedCliProcess (receiveString testCli overflowingInput)) = 0 /\
  events (embeddedCliProcess
            (receiveString (embeddedCliProcess (receiveString testCli overflowingInput))
               (str "set led 1 150" ++ [LF]))) =
    [CommandReceived (str "set") (Some (str "led 1 150"))] /\
  fault (embeddedCliProcess
           (receiveString (embeddedCliProcess (receiveString testCli overflowingInput))
              (str "set led 1 150" ++ [LF]))) = false.
Proof.
  assert (Hwf : wf (rxBuffer (receiveString testCli overflowingInput)))
    by (unfold wf; repeat split; vm_compute; try reflexivity; try (intros; discriminate)).
  assert (Hfl : 0 <= flags (receiveString testCli overflowingInput) < 256)
    by (split; vm_compute; try reflexivity; try (intros; discriminate)).
  assert (Hov : IS_FLAG_SET (flags (receiveString testCli overflowingInput))
                  CLI_FLAG_OVERFLOW = true) by (vm_compute; reflexivity).
  destruct (overflow_recovery _ Hwf Hfl) as (_ & Hrec).
  destruct (Hrec Hov) as (Hsize & _ & _ & Hline).
  split; [exact Hov|]. split; [exact Hsize|].
  apply (Hline (str "set led 1 150") LF).
  - split; [repeat constructor|discriminate].
  - now right.
  - vm_compute; reflexivity.
  - vm_compute; discriminate.
  - vm_compute; reflexivity.
  - vm_compute; intros; discriminate.
  - vm_compute; reflexivity.
  - vm_compute; reflexivity.
  - vm_compute; reflexivity.
  - vm_compute; intros; discriminate.
  - vm_compute; exact I.
Defined.

(** C5 as the specification words it fails: after this overflow and the
    processing call that recovers from it, the well-formed line
    ["set led 1 7"] is dispatched under the name ["et"]. *)
Lemma overflow_inside_escape_sequence :
  IS_FLAG_SET (flags (receiveString testCli escapeFlood)) CLI_FLAG_OVERFLOW = true /\
  wellFormedLine (str "set led 1 7") /\
  events (embeddedCliProcess
            (receiveString (embeddedCliProcess (receiveString testCli escapeFlood))
               (str "set led 1 7" ++ [LF]))) =
    [CommandReceived (str "et") (Some (str "led 1 7"))] /\
  events (embeddedCliProcess
            (receiveString (embeddedCliProcess (receiveString testCli escapeFlood))
               (str "set led 1 7" ++ [LF]))) <>
    events (embeddedCliProcess (receiveString testCli escapeFlood)) ++
    [CommandReceived (lineName (str "set led 1 7")) (lineArgs (str "set led 1 7"))].
Proof.
  split; [vm_compute; reflexivity|].
  split; [split; [repeat constructor|discriminate]|].
  split; [vm_compute; reflexivity|].
  vm_compute. discriminate.
Qed.

Lemma embeddedCliNew_helpFirst P config m arena cli :
  embeddedCliNew P config m = Some (arena, cli) ->
  0 <= maxBindingCount config < 65535 ->
  helpFirst cli.
Proof.
  unfold embeddedCliNew. intros Hnew Hmax.
  assert (Hw : wrap16 (maxBindingCount config + cliInternalBindingCount)
               = maxBindingCount config + 1)
    by (unfold wrap16, cliInternalBindingCount; apply Z.mod_small; lia).
  rewrite Hw in Hnew.
  destruct (match cliBuffer config with
            | Some a => _
            | None => _
            end) as [[base allocated]|]; [|discriminate].
  inversion Hnew; subst; clear Hnew.
  unfold initInternalBindings, embeddedCliAddBinding.
  cbn [bindingsCount maxBindingsCount bindings].
  destruct (Z.eqb_spec 0 (maxBindingCount config + 1)); [lia|].
  cbn [snd]. unfold helpFirst. cbn [bindings bindingsCount maxBindingsCount
    set_bindings set_bindingsCount].
  replace (Z.to_nat (maxBindingCount config + 1))
    with (S (Z.to_nat (maxBindingCount config))) by lia.
  change (wrap16 (0 + 1)) with 1. split; [reflexivity|lia].
Qed.

Lemma embeddedCliAddBinding_helpFirst cli b :
  helpFirst cli -> helpFirst (snd (embeddedCliAddBinding cli b)).
Proof.
  intros (H0 & Hc & Hm). unfold embeddedCliAddBinding.
  destruct (Z.eqb_spec (bindingsCount cli) (maxBindingsCount cli)); [now repeat split|].
  cbn [snd]. unfold helpFirst.
  cbn [bindings bindingsCount maxBindingsCount set_bindings set_bindingsCount].
  assert (Hw : wrap16 (bindingsCount cli + 1) = bindingsCount cli + 1)
    by (unfold wrap16; apply Z.mod_small; lia).
  rewrite Hw. split; [|lia].
  rewrite list_lookup_insert_ne by lia. exact H0.
Qed.

Lemma register_helpFirst bs : forall cli, helpFirst cli -> helpFirst (register cli bs).
Proof.
  induction bs as [|b bs IH]; intros cli H; [exact H|].
  unfold register in *. cbn [foldl]. apply IH, embeddedCliAddBinding_helpFirst, H.
Qed.

Lemma findBinding_help cli :
  helpFirst cli ->
  findBinding (take (Z.to_nat (bindingsCount cli)) (bindings cli)) 0 (str "help")
  = Some (0%nat, helpBinding).
Proof.
  intros (H0 & Hc & _).
  destruct (bindings cli) as [|b0 bs]; [discriminate|].
  cbn in H0. inversion H0; subst.
  replace (Z.to_nat (bindingsCount cli)) with (S (Z.to_nat (bindingsCount cli - 1))) by lia.
  reflexivity.
Qed.

Lemma findBinding_first bs1 : forall i b bs2 nm,
  Forall (fun b' => name b' <> nm) bs1 -> name b = nm ->
  findBinding (bs1 ++ b :: bs2) i nm = Some ((i + length bs1)%nat, b).
Proof.
  induction bs1 as [|b1 bs1 IH]; intros i b bs2 nm Hne Hb.
  - cbn. rewrite Hb, streq_refl. now rewrite Nat.add_0_r.
  - inversion Hne as [|? ? H1 Hrest]; subst.
    cbn [app findBinding].
    destruct (streq (name b) (name b1)) eqn:E.
    + apply streq_eq in E. congruence.
    + rewrite (IH (S i) b bs2 (name b) Hrest eq_refl). cbn [length].
      repeat (f_equal; try lia).
Qed.

Lemma findBinding_none bs : forall i nm,
  Forall (fun b' => name b' <> nm) bs -> findBinding bs i nm = None.
Proof.
  induction bs as [|b bs IH]; intros i nm Hne; [reflexivity|].
  inversion Hne as [|? ? H1 Hrest]; subst. cbn [findBinding].
  destruct (streq nm (name b)) eqn:E.
  - apply streq_eq in E. congruence.
  - now apply IH.
Qed.

(** The lookup of [parseCommand]: the line goes to the first binding whose
    name is the command name, byte for byte; bindings of other names in
    front of it are passed over, and when no binding has the name none is
    called. *)
Lemma lookup_first_exact cli line r0 r1 rest :
  cmdBuffer cli = line ++ r0 :: r1 :: rest ->
  cmdSize cli = Z.of_nat (length line) ->
  noNul line -> skipSpaces line <> [] ->
  (forall bs1 b bs2 h,
      take (Z.to_nat (bindingsCount cli)) (bindings cli) = bs1 ++ b :: bs2 ->
      Forall (fun b' => name b' <> lineName line) bs1 ->
      name b = lineName line -> binding b = Some h ->
      exists args,
        events (parseCommand cli) =
          events cli ++ [BindingCalled (length bs1) h args (context b)]) /\
  (Forall (fun b' => name b' <> lineName line)
          (take (Z.to_nat (bindingsCount cli)) (bindings cli)) ->
   events (parseCommand cli) =
     events cli ++
     (if onCommand cli then [CommandReceived (lineName line) (lineArgs line)] else [])).
Proof.
  intros Hbuf Hsize Hnn Hname.
  rewrite (parseCommand_line cli line r0 r1 rest Hbuf Hsize).
  destruct (skipSpaces line) as [|c0 s0] eqn:Es; [congruence|].
  set (X := set_cmdBuffer (parsedBuffer line rest) cli).
  assert (Hnm : cstring (drop (gap line) (cmdBuffer X)) = lineName line)
    by (apply parsed_name; assumption).
  split.
  - intros bs1 b bs2 h Hreg Hbs1 Hb Hh.
    destruct (dispatch_handled X (gap line) (parsedArgs line) (length bs1) b h)
      as (args & Hargs).
    + rewrite Hnm. change (bindingsCount X) with (bindingsCount cli).
      change (bindings X) with (bindings cli).
      rewrite Hreg, (findBinding_first bs1 0 b bs2 _ Hbs1 Hb). reflexivity.
    + exact Hh.
    + exists args. exact Hargs.
  - intros Hnone. rewrite dispatch_unhandled.
    2:{ unfold unhandled. rewrite Hnm.
        change (bindingsCount X) with (bindingsCount cli).
        change (bindings X) with (bindings cli).
        now rewrite findBinding_none. }
    rewrite Hnm. change (onCommand X) with (onCommand cli).
    destruct (onCommand cli).
    + cbn [events set_events]. unfold X. cbn [cmdBuffer set_cmdBuffer events].
      now rewrite parsed_args.
    + rewrite app_nil_r. symmetry.
      apply (events_quiet X), quiet_onUnknownCommand, quiet_refl.
Qed.

(** A line named ["help"] in an engine whose first slot holds the built-in
    binding: the built-in handler is called, and with [writeChar] set the
    call takes no undefined step. *)
Lemma help_dispatch cli line r0 r1 rest :
  helpFirst cli ->
  cmdBuffer cli = line ++ r0 :: r1 :: rest ->
  cmdSize cli = Z.of_nat (length line) ->
  noNul line -> lineName line = str "help" ->
  (exists args,
     events (parseCommand cli) = events cli ++ [BindingCalled 0 onHelpHandler args 0]) /\
  (writeChar cli = true -> fault (parseCommand cli) = fault cli).
Proof.
  intros Hhf Hbuf Hsize Hnn Hname.
  rewrite (parseCommand_line cli line r0 r1 rest Hbuf Hsize).
  destruct (skipSpaces line) as [|c0 s0] eqn:Es.
  { unfold lineName in Hname. rewrite Es in Hname. discriminate. }
  clear Es.
  set (X := set_cmdBuffer (parsedBuffer line rest) cli).
  assert (Hfind : findBinding (take (Z.to_nat (bindingsCount X)) (bindings X)) 0
                    (cstring (drop (gap line) (cmdBuffer X))) = Some (0%nat, helpBinding)).
  { unfold X. cbn [cmdBuffer bindingsCount bindings set_cmdBuffer].
    rewrite parsed_name, Hname by assumption. now apply findBinding_help. }
  split.
  - destruct (dispatch_handled X (gap line) (parsedArgs line) 0%nat helpBinding
                onHelpHandler Hfind eq_refl) as (args & Hargs).
    exists args. exact Hargs.
  - intros Hw. unfold dispatchCommand. rewrite Hfind.
    cbn [binding tokenizeArgs helpBinding context].
    set (a := skipSpaces (afterRun (skipSpaces line))).
    assert (Ha : noNul a) by (apply noNul_skipSpaces, noNul_afterRun, noNul_skipSpaces, Hnn).
    unfold parsedArgs. fold a.
    set (off := (gap line + length (lineName line) + gap (afterRun (skipSpaces line)))%nat).
    destruct a as [|c a'] eqn:Ea; cbn [argsAt argsView].
    + match goal with
      | |- fault (onHelp ?c None) = _ =>
          pose proof (quiet_onHelp c None (or_introl eq_refl)) as Hq
      end.
      apply quiet_fields in Hq as (_ & _ & _ & _ & Hf). now rewrite Hf.
    + rewrite <- Ea in *.
      set (pre := replicate (gap line) NUL ++ lineName line ++
                  replicate (gap (afterRun (skipSpaces line))) NUL).
      assert (HPB : parsedBuffer line rest = pre ++ a ++ NUL :: NUL :: rest).
      { unfold parsedBuffer, pre. fold a. rewrite <- !app_assoc. reflexivity. }
      assert (Hlp : length pre = off).
      { unfold pre, off. rewrite !length_app, !length_replicate. lia. }
      assert (Hll : length line = (off + length a)%nat).
      { unfold off, a, lineName.
        pose proof (length_gap line). pose proof (length_runs (skipSpaces line)).
        pose proof (length_gap (afterRun (skipSpaces line))). lia. }
      unfold X. cbn [cmdBuffer set_cmdBuffer cmdSize set_events events].
      rewrite HPB, <- Hlp, take_app_length, drop_app_length.
      rewrite drop_app_length.
      set (T := embeddedCliTokenizeArgs (a ++ NUL :: NUL :: rest)).
      destruct (tokenize_tail (a ++ NUL :: NUL :: rest)) as (HlT & HdT).
      { rewrite strlen_app_nul by assumption. rewrite length_app. cbn [length]. lia. }
      rewrite strlen_app_nul in HdT by assumption. fold T in HlT, HdT.
      rewrite Hsize, Nat2Z.id, Hll, Hlp.
      replace (off + length a + 2 - off)%nat with (length a + 2)%nat by lia.
      match goal with
      | |- fault (onHelp ?c (Some ?v)) = _ =>
          assert (Hq : quiet c (onHelp c (Some v)))
      end.
      { pose proof (lookup_drop T (length a) 0) as H0.
        pose proof (lookup_drop T (length a) 1) as H1.
        rewrite HdT in H0, H1. rewrite Nat.add_0_r in H0.
        replace (length a + 1)%nat with (S (length a)) in H1 by lia.
        apply quiet_onHelp. right. exists (take (length a + 2) T), (length a).
        split; [reflexivity|].
        cbn in H0, H1. split.
        - rewrite lookup_take_lt by lia. now symmetry.
        - rewrite lookup_take_lt by lia. now symmetry. }
      apply quiet_fields in Hq as (_ & _ & _ & _ & Hf). now rewrite Hf.
Qed.

(** C8, as the code has it.  For a configuration whose slot count
    [maxBindingCount + 1] and whose size fit 16 bits, after construction
    and any sequence of registrations (one named ["help"] included) the
    built-in help binding is in the first slot of the registry, counted and
    inside the block.  The lookup is first match by exact name: a line goes
    to the first binding whose name is the command name byte for byte, and
    to no binding when none has the name.  So a submitted line whose
    command name is ["help"] calls the built-in handler of the first slot,
    without an undefined step when [writeChar] is set: a later binding of
    the same name never takes its place. *)
Theorem help_is_never_shadowed P config m arena cli0 bs :
  embeddedCliNew P config m = Some (arena, cli0) ->
  0 <= maxBindingCount config < 65535 ->
  layoutFits P config ->
  (bindings (register cli0 bs) !! 0%nat = Some helpBinding /\
   1 <= bindingsCount (register cli0 bs) /\
   cliAddr arena <= bindingsAddr arena /\
   bindingsAddr arena + sizeofCliCommandBinding P <=
     cliAddr arena + embeddedCliRequiredSize P config) /\
  (forall cli line r0 r1 rest,
     cmdBuffer cli = line ++ r0 :: r1 :: rest ->
     cmdSize cli = Z.of_nat (length line) ->
     noNul line -> skipSpaces line <> [] ->
     (forall bs1 b bs2 h,
         take (Z.to_nat (bindingsCount cli)) (bindings cli) = bs1 ++ b :: bs2 ->
         Forall (fun b' => name b' <> lineName line) bs1 ->
         name b = lineName line -> binding b = Some h ->
         exists args,
           events (parseCommand cli) =
             events cli ++ [BindingCalled (length bs1) h args (context b)]) /\
     (Forall (fun b' => name b' <> lineName line)
             (take (Z.to_nat (bindingsCount cli)) (bindings cli)) ->
      events (parseCommand cli) =
        events cli ++
        (if onCommand cli then [CommandReceived (lineName line) (lineArgs line)] else []))) /\
  (forall cli line r0 r1 rest,
     bindings cli = bindings (register cli0 bs) ->
     bindingsCount cli = bindingsCount (register cli0 bs) ->
     maxBindingsCount cli = maxBindingsCount (register cli0 bs) ->
     cmdBuffer cli = line ++ r0 :: r1 :: rest ->
     cmdSize cli = Z.of_nat (length line) ->
     noNul line ->
     lineName line = str "help" ->
     (exists args,
        events (parseCommand cli) =
          events cli ++ [BindingCalled 0 onHelpHandler args 0]) /\
     (writeChar cli = true -> fault (parseCommand cli) = fault cli)).
Proof.
  intros Hnew Hmax Hfit.
  pose proof (register_helpFirst bs cli0 (embeddedCliNew_helpFirst _ _ _ _ _ Hnew Hmax))
    as Hreg.
  split; [|split].
  - destruct Hreg as (H0 & Hc & _). split; [exact H0|]. split; [lia|].
    destruct Hfit as (HsC & HsI & HsB & Hrx & Hcmd & Hhist & Hsum).
    assert (Hw : wrap16 (maxBindingCount config + cliInternalBindingCount)
                 = maxBindingCount config + 1)
      by (unfold wrap16, cliInternalBindingCount; apply Z.mod_small; lia).
    rewrite Hw in Hsum.
    assert (Harena : exists base, arena = carve P config base).
    { unfold embeddedCliNew in Hnew.
      destruct (match cliBuffer config with
                | Some a => _
                | None => _
                end) as [[base allocated]|]; [|discriminate].
      inversion Hnew; subst. eauto. }
    destruct Harena as (base & ->).
    cbn [carve bindingsAddr cliAddr].
    unfold embeddedCliRequiredSize. rewrite Hw.
    assert (Hslot : sizeofCliCommandBinding P <=
                    (maxBindingCount config + 1) * sizeofCliCommandBinding P) by nia.
    assert (Hslots : 0 <= (maxBindingCount config + 1) * sizeofCliCommandBinding P) by nia.
    unfold wrap16. rewrite Z.mod_small by lia. lia.
  - intros cli line r0 r1 rest Hbuf Hsize Hnn Hname.
    exact (lookup_first_exact cli line r0 r1 rest Hbuf Hsize Hnn Hname).
  - intros cli line r0 r1 rest Hb Hbc Hbm Hbuf Hsize Hnn Hname.
    assert (Hhf : helpFirst cli) by (unfold helpFirst in *; rewrite Hb, Hbc, Hbm; exact Hreg).
    exact (help_dispatch cli line r0 r1 rest Hhf Hbuf Hsize Hnn Hname).
Qed.

Lemma help_is_never_shadowed_witness :
  map name (take 3 (bindings typedHelp)) = [str "help"; str "help"; str "go"] /\
  (exists args, events (parseCommand typedHelp) = [BindingCalled 0 onHelpHandler args 0]) /\
  fault (parseCommand typedHelp) = false /\
  (exists args, events (parseCommand typedGo) = [BindingCalled 2 (appHandler 3) args 9]).
Proof.
  split; [vm_compute; reflexivity|].
  assert (Hmax : 0 <= maxBindingCount embeddedCliDefaultConfig < 65535) by (cbn; lia).
  assert (Hfit : layoutFits testPlatform embeddedCliDefaultConfig)
    by (unfold layoutFits; repeat split; vm_compute; try reflexivity; discriminate).
  destruct (help_is_never_shadowed testPlatform embeddedCliDefaultConfig (Some 4096)
              (carve testPlatform embeddedCliDefaultConfig 4096)
              (newCli embeddedCliDefaultConfig) [userHelp; userGo] eq_refl Hmax Hfit)
    as (_ & Hlookup & Hhelp).
  assert (Hline : noNul (str "help")) by (repeat constructor; discriminate).
  assert (Hgo : noNul (str "go now")) by (repeat constructor; discriminate).
  assert (Hb : bindings typedHelp =
               bindings (register (newCli embeddedCliDefaultConfig) [userHelp; userGo]))
    by (vm_compute; reflexivity).
  assert (Hbc : bindingsCount typedHelp =
                bindingsCount (register (newCli embeddedCliDefaultConfig) [userHelp; userGo]))
    by (vm_compute; reflexivity).
  assert (Hbm : maxBindingsCount typedHelp =
                maxBindingsCount (register (newCli embeddedCliDefaultConfig) [userHelp; userGo]))
    by (vm_compute; reflexivity).
  assert (Hbuf : cmdBuffer typedHelp = str "help" ++ NUL :: NUL :: replicate 58 NUL)
    by (vm_compute; reflexivity).
  assert (Hsize : cmdSize typedHelp = Z.of_nat (length (str "help")))
    by (vm_compute; reflexivity).
  destruct (Hhelp typedHelp (str "help") NUL NUL (replicate 58 NUL)
              Hb Hbc Hbm Hbuf Hsize Hline eq_refl) as (Hev & Hfault).
  split; [exact Hev|]. split; [apply Hfault; vm_compute; reflexivity|].
  assert (Hbuf' : cmdBuffer typedGo = str "go now" ++ NUL :: NUL :: replicate 56 NUL)
    by (vm_compute; reflexivity).
  assert (Hsize' : cmdSize typedGo = Z.of_nat (length (str "go now")))
    by (vm_compute; reflexivity).
  assert (Hname : skipSpaces (str "go now") <> []) by discriminate.
  destruct (Hlookup typedGo (str "go now") NUL NUL (replicate 56 NUL)
              Hbuf' Hsize' Hgo Hname) as (Hfirst & _).
  assert (Hreg : take (Z.to_nat (bindingsCount typedGo)) (bindings typedGo) =
                 [helpBinding; userHelp] ++ userGo :: []) by (vm_compute; reflexivity).
  assert (Hother : Forall (fun b' => name b' <> lineName (str "go now"))
                     [helpBinding; userHelp]) by (repeat constructor; discriminate).
  exact (Hfirst [helpBinding; userHelp] userGo [] (appHandler 3) Hreg Hother eq_refl eq_refl).
Defined.

(** C8 as the specification words it fails: with [maxBindingCount] at
    65535 the slot count wraps to zero.  The constructor succeeds, no
    region leaves the block, but the registry has no slot: the built-in
    binding is not registered, every registration is refused, and the line
    ["help"] goes to [onCommand]. *)
Lemma help_missing_when_slot_count_wraps :
  embeddedCliRequiredSize testPlatform wrappedSlotsConfig = 376 /\
  (exists arena,
     embeddedCliNew testPlatform wrappedSlotsConfig (Some 4096) =
       Some (arena, newCli wrappedSlotsConfig)) /\
  maxBindingsCount (newCli wrappedSlotsConfig) = 0 /\
  bindingsCount (newCli wrappedSlotsConfig) = 0 /\
  bindings (newCli wrappedSlotsConfig) !! 0%nat = None /\
  embeddedCliAddBinding (newCli wrappedSlotsConfig) userHelp =
    (false, newCli wrappedSlotsConfig) /\
  events (deliver (attach (newCli wrappedSlotsConfig)) [str "help" ++ [CR]]) =
    [CommandReceived (str "help") None] /\
  fault (deliver (attach (newCli wrappedSlotsConfig)) [str "help" ++ [CR]]) = false.
Proof.
  split; [reflexivity|]. split; [eexists; reflexivity|].
  repeat split; vm_compute; reflexivity.
Qed.

Lemma output_writeToOutput s : forall cli,
  writeChar cli = true ->
  output (writeToOutput cli s) = output cli ++ s /\
  writeChar (writeToOutput cli s) = true.
Proof.
  induction s as [|c s IH]; intros cli Hw.
  - cbn. now rewrite app_nil_r.
  - unfold writeToOutput in *. cbn [foldl].
    destruct (IH (callWriteChar cli c)) as (Ho & Hw').
    + unfold callWriteChar. rewrite Hw. exact Hw.
    + rewrite Ho. split; [|exact Hw'].
      unfold callWriteChar. rewrite Hw. cbn [output set_output].
      now rewrite <- app_assoc.
Qed.

Lemma output_onUnknownCommand cli nm :
  writeChar cli = true ->
  output (onUnknownCommand cli nm) = output cli ++ unknownNotice nm.
Proof.
  intros Hw. unfold onUnknownCommand, unknownNotice.
  destruct (output_writeToOutput (str "Unknown command: " ++ [dquote]) cli Hw) as (H1 & W1).
  destruct (output_writeToOutput nm _ W1) as (H2 & W2).
  destruct (output_writeToOutput
              ([dquote] ++ str ". Write " ++ [dquote] ++ str "help" ++ [dquote] ++
               str " for a list of available commands") _ W2) as (H3 & W3).
  destruct (output_writeToOutput lineBreak _ W3) as (H4 & _).
  rewrite H4, H3, H2, H1. now rewrite <- !app_assoc.
Qed.

(** C10.  The submitted name matches a binding whose handler is null, and
    no earlier binding has that name: no binding is called, whatever comes
    later in the registry.  The command goes to [onCommand] when that
    callback is set; otherwise nothing is dispatched and the
    unknown-command notice is printed.  Neither way adds an undefined
    step. *)
Theorem null_handler_falls_through cli line r0 r1 rest bs1 b bs2 :
  cmdBuffer cli = line ++ r0 :: r1 :: rest ->
  cmdSize cli = Z.of_nat (length line) ->
  noNul line ->
  skipSpaces line <> [] ->
  take (Z.to_nat (bindingsCount cli)) (bindings cli) = bs1 ++ b :: bs2 ->
  Forall (fun b' => name b' <> lineName line) bs1 ->
  name b = lineName line ->
  binding b = None ->
  events (parseCommand cli) =
    events cli ++
    (if onCommand cli then [CommandReceived (lineName line) (lineArgs line)] else []) /\
  (onCommand cli = false -> writeChar cli = true ->
   output (parseCommand cli) = output cli ++ unknownNotice (lineName line)) /\
  (onCommand cli = true \/ writeChar cli = true ->
   fault (parseCommand cli) = fault cli).
Proof.
  intros Hbuf Hsize Hnn Hname Hreg Hbs1 Hb Hnull.
  rewrite (parseCommand_line cli line r0 r1 rest Hbuf Hsize).
  destruct (skipSpaces line) as [|c0 s0] eqn:Es; [congruence|].
  set (X := set_cmdBuffer (parsedBuffer line rest) cli).
  assert (Hnm : cstring (drop (gap line) (cmdBuffer X)) = lineName line)
    by (apply parsed_name; assumption).
  rewrite dispatch_unhandled.
  2:{ unfold unhandled. rewrite Hnm.
      change (bindingsCount X) with (bindingsCount cli).
      change (bindings X) with (bindings cli).
      rewrite Hreg, (findBinding_first bs1 0 b bs2 _ Hbs1 Hb). exact Hnull. }
  rewrite Hnm. change (onCommand X) with (onCommand cli).
  destruct (onCommand cli) eqn:Eon.
  - split; [|split; [discriminate|reflexivity]]. cbn [events set_events].
    unfold X. cbn [cmdBuffer set_cmdBuffer events]. now rewrite parsed_args.
  - pose proof (quiet_onUnknownCommand X X (lineName line) (quiet_refl X)) as Hq.
    split; [|split].
    + rewrite app_nil_r. symmetry. apply (events_quiet X), Hq.
    + intros _ Hw. now rewrite output_onUnknownCommand.
    + intros [Hon|Hw]; [discriminate|].
      apply quiet_fields in Hq as (_ & _ & _ & _ & HX). apply HX, Hw.
Qed.

Lemma null_handler_falls_through_witness :
  events (parseCommand (set_onCommand true shadowedGo)) =
    [CommandReceived (str "go") (Some (str "now"))] /\
  events (parseCommand (set_writeChar true shadowedGo)) = [] /\
  output (parseCommand (set_writeChar true shadowedGo)) = unknownNotice (str "go") /\
  fault (parseCommand (set_writeChar true shadowedGo)) = false.
Proof.
  assert (Hline : noNul (str "go now")) by (repeat constructor; discriminate).
  assert (Hb1 : Forall (fun b' => name b' <> lineName (str "go now")) [helpBinding])
    by (repeat constructor; discriminate).
  split; [|split; [|split]].
  - apply (null_handler_falls_through (set_onCommand true shadowedGo) (str "go now")
             NUL NUL (replicate 56 NUL) [helpBinding]
             (mkBinding (str "go") None false 0 None)
             [mkBinding (str "go") None false 0 (Some (appHandler 3))]
             eq_refl eq_refl Hline ltac:(discriminate) eq_refl Hb1 eq_refl eq_refl).
  - apply (null_handler_falls_through (set_writeChar true shadowedGo) (str "go now")
             NUL NUL (replicate 56 NUL) [helpBinding]
             (mkBinding (str "go") None false 0 None)
             [mkBinding (str "go") None false 0 (Some (appHandler 3))]
             eq_refl eq_refl Hline ltac:(discriminate) eq_refl Hb1 eq_refl eq_refl).
  - apply (null_handler_falls_through (set_writeChar true shadowedGo) (str "go now")
             NUL NUL (replicate 56 NUL) [helpBinding]
             (mkBinding (str "go") None false 0 None)
             [mkBinding (str "go") None false 0 (Some (appHandler 3))]
             eq_refl eq_refl Hline ltac:(discriminate) eq_refl Hb1 eq_refl eq_refl);
      reflexivity.
  - apply (null_handler_falls_through (set_writeChar true shadowedGo) (str "go now")
             NUL NUL (replicate 56 NUL) [helpBinding]
             (mkBinding (str "go") None false 0 None)
             [mkBinding (str "go") None false 0 (Some (appHandler 3))]
             eq_refl eq_refl Hline ltac:(discriminate) eq_refl Hb1 eq_refl eq_refl).
    now right.
Defined.

(** The character handler keeps the two reserved bytes free. *)
Lemma onCharInput_keeps_reserve cli c :
  0 <= cmdSize cli <= cmdMaxSize cli - 2 ->
  0 <= cmdSize (onCharInput cli c) <= cmdMaxSize (onCharInput cli c) - 2.
Proof.
  intros H. unfold onCharInput.
  destruct (Z.geb_spec (cmdSize cli + 2) (cmdMaxSize cli)); [exact H|].
  assert (Hs : forall x, cmdSize (storeCmd cli x c) = cmdSize cli /\
                         cmdMaxSize (storeCmd cli x c) = cmdMaxSize cli /\
                         writeChar (storeCmd cli x c) = writeChar cli).
  { intros x. unfold storeCmd. destruct (_ <? _)%nat; repeat split. }
  destruct (Hs (cmdSize cli)) as (H1 & H2 & H3).
  assert (Hw : 0 <= wrap16 (cmdSize cli + 1) <= cmdSize cli + 1).
  { unfold wrap16. pose proof (Z.mod_pos_bound (cmdSize cli + 1) 65536).
    pose proof (Z.mod_le (cmdSize cli + 1) 65536). lia. }
  set (Y := set_cmdSize (wrap16 (cmdSize (storeCmd cli (cmdSize cli) c) + 1))
              (storeCmd cli (cmdSize cli) c)).
  assert (HY : cmdSize (if writeChar Y then callWriteChar Y c else Y) = cmdSize Y /\
               cmdMaxSize (if writeChar Y then callWriteChar Y c else Y) = cmdMaxSize Y).
  { unfold callWriteChar. destruct (writeChar Y); split; reflexivity. }
  destruct HY as (-> & ->). unfold Y.
  cbn [cmdSize cmdMaxSize set_cmdSize]. rewrite H1, H2. lia.
Qed.

(** C6 at a command buffer of six bytes: ["h"] and TAB.  The completion of
    ["help"] and its trailing space are committed without the check the
    character handler makes, and the command line takes five of the six
    bytes.  The line terminator that follows stores the second terminator
    behind the buffer. *)
Lemma autocomplete_commit_breaks_reserve :
  cmdMaxSize (deliver (attach (newCli (mkConfig 64 6 128 8 None 0))) [str "h" ++ [TAB]]) = 6 /\
  cmdSize (deliver (attach (newCli (mkConfig 64 6 128 8 None 0))) [str "h" ++ [TAB]]) = 5 /\
  take 5 (cmdBuffer (deliver (attach (newCli (mkConfig 64 6 128 8 None 0)))
                       [str "h" ++ [TAB]])) = str "help " /\
  fault (deliver (attach (newCli (mkConfig 64 6 128 8 None 0))) [str "h" ++ [TAB]]) = false /\
  fault (deliver (attach (newCli (mkConfig 64 6 128 8 None 0))) [str "h" ++ [TAB]; [LF]]) = true.
Proof. repeat split; vm_compute; reflexivity. Qed.

(** Nothing is ever inserted into an empty history: the eviction loop asks
    for item 0, gets the null pointer and takes its length. *)
Lemma historyPut_empty mem n s :
  historyPut (mkHistory mem n 0) s =
    if n <? Z.of_nat (length s) + 1 then Returned false (mkHistory mem n 0) else Undefined.
Proof.
  unfold historyPut. cbn [bufferSize itemsCount].
  destruct (n <? Z.of_nat (length s) + 1); reflexivity.
Qed.

(** C7 at the empty history of eight bytes and the string ["ab"]: the
    insertion has no defined result.  And where an insertion does return,
    the item count is not raised: with ["x"] stored, inserting ["ab"]
    leaves the count at one, so rank 2 finds nothing. *)
Lemma historyPut_on_empty_history :
  historyPut (mkHistory (Some (replicate 8 NUL)) 8 0) (str "ab") = Undefined /\
  historyPut (mkHistory (Some (str "x" ++ replicate 7 NUL)) 8 1) (str "ab") =
    Returned true (mkHistory (Some (str "ab" ++ [NUL] ++ str "x" ++ replicate 4 NUL)) 8 1) /\
  historyGet (mkHistory (Some (str "ab" ++ [NUL] ++ str "x" ++ replicate 4 NUL)) 8 1) 2 =
    NoToken.
Proof. repeat split; reflexivity. Qed.

(** No construction gives the history store a region. *)
Lemma embeddedCliNew_history P config m arena cli :
  embeddedCliNew P config m = Some (arena, cli) ->
  historyBufAddr arena = None /\ history cli = mkHistory None 0 0.
Proof.
  unfold embeddedCliNew. intros Hnew.
  destruct (match cliBuffer config with
            | Some a => _
            | None => _
            end) as [[base allocated]|]; [|discriminate].
  inversion Hnew; subst; clear Hnew. split; [reflexivity|].
  unfold initInternalBindings, embeddedCliAddBinding.
  cbn [bindingsCount maxBindingsCount]. destruct (_ =? _); reflexivity.
Qed.

(** C9 at the default configuration: the block is carved up to the flag
    table and no further.  The history store keeps a null buffer of size
    zero, while the last [historyBufferSize] bytes counted by
    [embeddedCliRequiredSize] lie behind the flag table, assigned to
    nothing. *)
Lemma history_region_not_carved P base :
  exists arena cli,
    embeddedCliNew P embeddedCliDefaultConfig (Some base) = Some (arena, cli) /\
    historyBufAddr arena = None /\
    history cli = mkHistory None 0 0 /\
    cliAddr arena = base /\
    implAddr arena = base + sizeofEmbeddedCli P /\
    rxBufferAddr arena = implAddr arena + sizeofEmbeddedCliImpl P /\
    cmdBufferAddr arena = rxBufferAddr arena + 64 /\
    bindingsAddr arena = cmdBufferAddr arena + 64 /\
    bindingsFlagsAddr arena = bindingsAddr arena + 9 * sizeofCliCommandBinding P /\
    embeddedCliRequiredSize P embeddedCliDefaultConfig =
      wrap16 (bindingsFlagsAddr arena + 9 + 128 - base).
Proof.
  eexists. eexists. split; [reflexivity|].
  cbn [carve historyBufAddr cliAddr implAddr rxBufferAddr cmdBufferAddr bindingsAddr
       bindingsFlagsAddr embeddedCliDefaultConfig rxBufferSize cmdBufferSize
       maxBindingCount historyBufferSize].
  change (wrap16 (8 + cliInternalBindingCount)) with 9.
  repeat split; try reflexivity; try lia.
  unfold embeddedCliRequiredSize.
  cbn [embeddedCliDefaultConfig rxBufferSize cmdBufferSize maxBindingCount
       historyBufferSize].
  change (wrap16 (8 + cliInternalBindingCount)) with 9.
  f_equal. lia.
Qed.

End Claims.

Section AccessorFacts.
Import Fifo Tokens History Cli.
Local Open Scope nat_scope.

Lemma layout_tokenBytes ts : layout ts = tokenBytes ts ++ [NUL].
Proof. reflexivity. Qed.

Lemma tokenBytes_cons t ts : tokenBytes (t :: ts) = t ++ NUL :: tokenBytes ts.
Proof. unfold tokenBytes. cbn [map concat]. now rewrite <- app_assoc. Qed.

Lemma getTokenLoop_hit s i pos : getTokenLoop s i pos pos = Some i.
Proof. destruct s; cbn [getTokenLoop]; now rewrite Z.eqb_refl. Qed.

Lemma getTokenLoop_walk (t : list ascii) : forall more i tc pos,
  noNul t -> (tc =? pos)%Z = false ->
  getTokenLoop (t ++ more) i tc pos = getTokenLoop more (i + length t) tc pos.
Proof.
  induction t as [|c t IH]; intros more i tc pos Hn Hne.
  - cbn [app length]. now rewrite Nat.add_0_r.
  - inversion Hn as [|? ? Hc Ht]; subst.
    cbn [app getTokenLoop length]. rewrite Hne.
    apply Ascii.eqb_neq in Hc. rewrite Hc.
    rewrite IH by assumption. f_equal. lia.
Qed.

Lemma getTokenLoop_nul c' r i tc pos :
  (tc =? pos)%Z = false -> c' <> NUL ->
  getTokenLoop (NUL :: c' :: r) i tc pos = getTokenLoop (c' :: r) (S i) (tc + 1) pos.
Proof.
  intros Hne Hc. apply Ascii.eqb_neq in Hc.
  cbn [getTokenLoop]. rewrite Hne. cbn [Ascii.eqb]. now rewrite Hc.
Qed.


Lemma tokenBytes_head ts rest :
  tokenList ts -> ts <> [] ->
  exists c r, tokenBytes ts ++ rest = c :: r /\ c <> NUL.
Proof.
  intros Hts Hne. destruct ts as [|t ts]; [congruence|].
  inversion Hts as [|? ? [Hn Hnn] _]; subst.
  destruct t as [|c t]; [congruence|]. inversion Hnn; subst.
  rewrite tokenBytes_cons. eexists _, _. split; [reflexivity|assumption].
Qed.

(** The scan for position [tc + j] over [j] complete tokens stops at the
    start of the next one. *)
Lemma getTokenLoop_skip ts : forall j rest i tc pos,
  tokenList ts -> j < length ts -> pos = (tc + Z.of_nat j)%Z ->
  getTokenLoop (tokenBytes ts ++ rest) i tc pos =
    Some (i + length (tokenBytes (take j ts))).
Proof.
  induction ts as [|t ts IH]; intros j rest i tc pos Hts Hj Hpos; [simpl in Hj; lia|].
  destruct j as [|j].
  - replace pos with tc by lia. rewrite getTokenLoop_hit. cbn. f_equal. lia.
  - inversion Hts as [|? ? [Hne Hn] Hts']; subst.
    assert (Hneq : (tc =? tc + Z.of_nat (S j))%Z = false) by (apply Z.eqb_neq; lia).
    rewrite tokenBytes_cons, <- app_assoc. rewrite getTokenLoop_walk by assumption.
    cbn [length] in Hj. cbn [app].
    destruct (tokenBytes_head ts rest Hts') as (c & r & Hc & Hcn).
    { intros ->. simpl in Hj. lia. }
    rewrite Hc, getTokenLoop_nul by assumption. rewrite <- Hc.
    rewrite (IH j rest _ _ _ Hts') by lia.
    cbn [take]. rewrite tokenBytes_cons, length_app. cbn [length]. f_equal. lia.
Qed.


Lemma countLoop_walk (t : list ascii) : forall more tc,
  noNul t -> countLoop (t ++ more) tc = countLoop more tc.
Proof.
  induction t as [|c t IH]; intros more tc Hn; [reflexivity|].
  inversion Hn as [|? ? Hc Ht]; subst. apply Ascii.eqb_neq in Hc.
  cbn [app countLoop]. rewrite Hc. now apply IH.
Qed.

Lemma countLoop_nul c' r tc :
  c' <> NUL -> countLoop (NUL :: c' :: r) tc = countLoop (c' :: r) (tc + 1).
Proof.
  intros Hc. apply Ascii.eqb_neq in Hc.
  cbn [countLoop]. cbn [Ascii.eqb]. now rewrite Hc.
Qed.

Lemma countLoop_tokens ts : forall rest tc,
  tokenList ts -> ts <> [] ->
  countLoop (tokenBytes ts ++ NUL :: rest) tc = Some (tc + Z.of_nat (length ts) - 1)%Z.
Proof.
  induction ts as [|t ts IH]; intros rest tc Hts Hne; [congruence|].
  inversion Hts as [|? ? [Hn Hnn] Hts']; subst.
  rewrite tokenBytes_cons, <- app_assoc, countLoop_walk by assumption. cbn [app].
  destruct ts as [|t' ts''].
  - cbn [tokenBytes map concat app countLoop]. cbn. f_equal. lia.
  - destruct (tokenBytes_head (t' :: ts'') (NUL :: rest) Hts') as (c & r & Hc & Hcn);
      [discriminate|].
    rewrite Hc, countLoop_nul by assumption. rewrite <- Hc.
    rewrite IH; [|assumption|discriminate]. f_equal. cbn [length]. lia.
Qed.

Lemma tokenBytes_take_drop j ts :
  tokenBytes ts = tokenBytes (take j ts) ++ tokenBytes (drop j ts).
Proof.
  unfold tokenBytes. now rewrite <- concat_app, <- map_app, take_drop.
Qed.

Lemma cstring_token (w t : list ascii) : noNul w -> cstring (w ++ NUL :: t) = w.
Proof.
  induction w as [|c w IH]; intros Hn; [reflexivity|].
  inversion Hn as [|? ? Hc Hw]; subst. apply Ascii.eqb_neq in Hc.
  cbn [app cstring]. rewrite Hc. f_equal. now apply IH.
Qed.

(** The count on a laid-out token list. *)
Lemma count_layout ts rest :
  tokenList ts ->
  embeddedCliGetTokenCount (layout ts ++ rest) = Some (wrap8 (Z.of_nat (length ts))).
Proof.
  intros Hts. rewrite layout_tokenBytes, <- app_assoc. cbn [app].
  destruct ts as [|t ts]; [reflexivity|].
  destruct (tokenBytes_head (t :: ts) (NUL :: rest) Hts) as (c & r & Hc & Hcn);
    [discriminate|].
  unfold embeddedCliGetTokenCount. rewrite Hc.
  apply Ascii.eqb_neq in Hcn. rewrite Hcn. rewrite <- Hc.
  rewrite countLoop_tokens; [|assumption|discriminate].
  cbn [option_map]. do 2 f_equal. lia.
Qed.

(** The token at a position inside the list. *)
Lemma getToken_layout_in ts rest (pos : Z) t :
  tokenList ts -> (0 < pos < 256)%Z -> ts !! (Z.to_nat pos - 1) = Some t ->
  exists off,
    embeddedCliGetToken (layout ts ++ rest) pos = Token off /\
    off = length (tokenBytes (take (Z.to_nat pos - 1) ts)) /\
    cstring (drop off (layout ts ++ rest)) = t.
Proof.
  intros Hts Hpos Ht.
  set (j := Z.to_nat pos - 1) in *.
  assert (Hj : j < length ts) by (apply lookup_lt_is_Some; eauto).
  exists (length (tokenBytes (take j ts))).
  assert (Hsplit : layout ts ++ rest =
                   tokenBytes (take j ts) ++ t ++ NUL :: tokenBytes (drop (S j) ts) ++ NUL :: rest).
  { rewrite layout_tokenBytes, (tokenBytes_take_drop j ts).
    rewrite (drop_S ts t j Ht), tokenBytes_cons. rewrite <- !app_assoc. reflexivity. }
  assert (Hdrop : drop (length (tokenBytes (take j ts))) (layout ts ++ rest) =
                  t ++ NUL :: tokenBytes (drop (S j) ts) ++ NUL :: rest).
  { rewrite Hsplit. now rewrite drop_app_length. }
  assert (Htok : t <> [] /\ noNul t).
  { unfold tokenList in Hts. rewrite Forall_lookup in Hts. exact (Hts j t Ht). }
  split; [|split; [reflexivity|]].
  - unfold embeddedCliGetToken.
    assert (Hw : wrap8 pos = pos) by (unfold wrap8; apply Z.mod_small; lia).
    rewrite Hw. destruct (Z.eqb_spec pos 0); [lia|].
    rewrite layout_tokenBytes, <- app_assoc.
    rewrite (getTokenLoop_skip ts j) by (assumption || lia).
    cbn [Nat.add]. rewrite app_assoc, <- layout_tokenBytes.
    rewrite <- (Nat.add_0_r (length (tokenBytes (take j ts)))) at 1.
    rewrite <- lookup_drop, Hdrop.
    destruct Htok as [Hne Hn]. destruct t as [|c t']; [congruence|].
    inversion Hn as [|? ? Hc _]; subst. apply Ascii.eqb_neq in Hc.
    cbn. now rewrite Hc.
  - rewrite Hdrop. apply cstring_token, Htok.
Qed.


End AccessorFacts.

Section AccessorTheorems.
Import Fifo Tokens History Cli.
Local Open Scope nat_scope.



Lemma findTokenLoop_spec ts rest t :
  tokenList ts -> length ts < 256 ->
  forall us pre, ts = pre ++ us -> ~ In t pre ->
  exists p,
    findTokenLoop (length us) (Z.of_nat (length pre)) (layout ts ++ rest) t = Some p /\
    ((p = 0%Z /\ ~ In t ts) \/
     ((0 < p)%Z /\ ts !! (Z.to_nat p - 1) = Some t /\
      forall q, q < Z.to_nat p - 1 -> ts !! q <> Some t)).
Proof.
  intros Hts Hlen us. induction us as [|u us IH]; intros pre Heq Hpre.
  - exists 0%Z. split; [reflexivity|]. left. split; [reflexivity|].
    rewrite Heq, app_nil_r. exact Hpre.
  - cbn [length findTokenLoop].
    assert (Hu : ts !! length pre = Some u).
    { rewrite Heq. rewrite lookup_app_r by lia. now rewrite Nat.sub_diag. }
    assert (Hl : length ts = length pre + S (length us))
      by (rewrite Heq, length_app; reflexivity).
    destruct (getToken_layout_in ts rest (Z.of_nat (length pre) + 1) u Hts) as (off & Hg & _ & Hc).
    { lia. }
    { replace (Z.to_nat (Z.of_nat (length pre) + 1) - 1) with (length pre) by lia. exact Hu. }
    rewrite Hg, Hc.
    destruct (streq u t) eqn:E.
    + apply streq_eq in E. clear Hc Hg. subst u.
      exists (Z.of_nat (length pre) + 1)%Z. split.
      * f_equal. unfold wrap8. apply Z.mod_small. lia.
      * right. split; [lia|].
        replace (Z.to_nat (Z.of_nat (length pre) + 1) - 1) with (length pre) by lia.
        split; [exact Hu|].
        intros q Hq Hin. apply Hpre. rewrite Heq in Hin.
        rewrite lookup_app_l in Hin by lia. eapply list_elem_of_In, list_elem_of_lookup_2, Hin.
    + destruct (IH (pre ++ [u])) as (p & Hp & Hchar).
      * rewrite Heq, <- app_assoc. reflexivity.
      * intros Hin. apply in_app_or in Hin as [Hin|[->|[]]]; [now apply Hpre|].
        rewrite streq_refl in E. discriminate.
      * exists p. split; [|exact Hchar].
        rewrite length_app in Hp. cbn [length] in Hp.
        replace (Z.of_nat (length pre) + 1)%Z with (Z.of_nat (length pre + 1)) by lia.
        exact Hp.
Qed.

(** [embeddedCliFindToken] on a laid-out token list of fewer than 256
    tokens: the result is the position, counted from one, of the first
    token equal to [t], and zero when no token is equal to it.  A null
    string or a null token gives zero. *)
Theorem findToken_first_position ts rest t :
  tokenList ts -> length ts < 256 ->
  (exists p,
     embeddedCliFindToken (Some (layout ts ++ rest)) (Some t) = Some p /\
     ((p = 0%Z /\ ~ In t ts) \/
      ((0 < p)%Z /\ ts !! (Z.to_nat p - 1) = Some t /\
       forall q, q < Z.to_nat p - 1 -> ts !! q <> Some t))) /\
  embeddedCliFindToken None (Some t) = Some 0%Z /\
  embeddedCliFindToken (Some (layout ts ++ rest)) None = Some 0%Z.
Proof.
  intros Hts Hlen. split; [|split; reflexivity].
  unfold embeddedCliFindToken. rewrite count_layout by assumption. 
  assert (Hw : wrap8 (Z.of_nat (length ts)) = Z.of_nat (length ts))
    by (unfold wrap8; apply Z.mod_small; lia).
  rewrite Hw, Nat2Z.id.
  exact (findTokenLoop_spec ts rest t Hts Hlen ts [] eq_refl (fun H => H)).
Qed.

Lemma findToken_first_position_witness :
  embeddedCliFindToken (Some (layout [str "a"; str "b"; str "a"])) (Some (str "b")) = Some 2%Z /\
  embeddedCliFindToken (Some (layout [str "a"; str "b"; str "a"])) (Some (str "a")) = Some 1%Z /\
  embeddedCliFindToken (Some (layout [str "a"; str "b"; str "a"])) (Some (str "c")) = Some 0%Z.
Proof.
  assert (Hts : tokenList [str "a"; str "b"; str "a"]) by (repeat constructor; discriminate).
  assert (Hlen : length [str "a"; str "b"; str "a"] < 256) by (cbn; lia).
  pose proof (findToken_first_position [str "a"; str "b"; str "a"] [] (str "b") Hts Hlen)
    as ((p & Hp & _) & _).
  rewrite app_nil_r in Hp.
  split; [|split; reflexivity].
  rewrite Hp. vm_compute in Hp. exact (eq_sym Hp).
Defined.

End AccessorTheorems.

Section TokenizerBounds.
Import Fifo Tokens History Cli.
Local Open Scope nat_scope.

(** The tokenizer works inside the string, its terminator and the one
    spare byte behind it: the memory keeps its length, the string's
    terminator and the spare byte end as the double terminator of the
    token list, and every byte behind them keeps its value. *)
Theorem tokenizer_stays_in_bounds args :
  strlen args + 1 < length args ->
  length (embeddedCliTokenizeArgs args) = length args /\
  drop (strlen args) (embeddedCliTokenizeArgs args) =
    NUL :: NUL :: drop (strlen args + 2) args.
Proof. exact (tokenize_tail args). Qed.

Lemma tokenizer_stays_in_bounds_witness :
  length (embeddedCliTokenizeArgs (str "a   b" ++ [NUL; "?"; "x"; "y"]%char)) = 9 /\
  drop 5 (embeddedCliTokenizeArgs (str "a   b" ++ [NUL; "?"; "x"; "y"]%char)) =
    [NUL; NUL; "x"; "y"]%char.
Proof.
  apply (tokenizer_stays_in_bounds (str "a   b" ++ [NUL; "?"; "x"; "y"]%char)).
  cbn. lia.
Defined.

End TokenizerBounds.

Section WordsFacts.
Import Fifo Tokens History Cli.
Local Open Scope nat_scope.

Lemma noNul_app (a b : list ascii) : noNul a -> noNul b -> noNul (a ++ b).
Proof. unfold noNul. intros. now apply Forall_app. Qed.










End WordsFacts.

Section RingFacts.
Import Fifo Tokens History Cli.

(** Whatever is pushed and popped, the ring keeps its shape: both indices
    stay inside the backing array, the size never changes and at most
    [size - 1] bytes are outstanding.  A pop from an empty ring returns the
    zero byte and leaves the ring as it is. *)
Theorem ring_keeps_its_shape ops : forall b,
  wf b ->
  wf (snd (run ops b)) /\ size (snd (run ops b)) = size b /\
  0 <= fifoBufAvailable (snd (run ops b)) <= size b - 1 /\
  (fifoBufAvailable b = 0 -> fifoBufPop b = (NUL, b)).
Proof.
  assert (Hpop0 : forall b, wf b -> fifoBufAvailable b = 0 -> fifoBufPop b = (NUL, b)).
  { intros b Hwf H0. pose proof (pop_spec b Hwf) as Hp.
    pose proof (length_contents b) as Hl. rewrite H0 in Hl.
    destruct (contents b); [exact Hp|discriminate]. }
  induction ops as [|o ops IH]; intros b Hwf.
  - cbn [run snd]. pose proof (available_range b Hwf).
    refine (conj Hwf (conj eq_refl (conj _ (Hpop0 b Hwf)))). lia.
  - assert (Hstep : exists b1, wf b1 /\ size b1 = size b /\
              snd (run (o :: ops) b) = snd (run ops b1)).
    { destruct o as [a|]; cbn [run].
      - pose proof (push_spec b a Hwf) as Hp.
        destruct (fifoBufAvailable b <? size b - 1).
        + destruct Hp as (b' & -> & Hwf' & Hsz & _). exists b'.
          destruct (run ops b'). auto.
        + rewrite Hp. exists b. destruct (run ops b). auto.
      - pose proof (pop_spec b Hwf) as Hp.
        destruct (contents b).
        + rewrite Hp. exists b. destruct (run ops b). auto.
        + destruct Hp as (b' & -> & Hwf' & Hsz & _). exists b'.
          destruct (run ops b'). auto. }
    destruct Hstep as (b1 & Hwf1 & Hsz1 & ->).
    destruct (IH b1 Hwf1) as (H1 & H2 & H3 & _).
    rewrite <- Hsz1. exact (conj H1 (conj H2 (conj H3 (Hpop0 b Hwf)))).
Qed.

Lemma ring_keeps_its_shape_witness :
  wf (snd (run [Push "a"; Push "b"; Push "c"; Push "d"; Pop]%char
               (mkFifo (replicate 4 NUL) 0 0 4))) /\
  fifoBufPop (mkFifo (replicate 4 NUL) 2 2 4) = (NUL, mkFifo (replicate 4 NUL) 2 2 4).
Proof.
  split.
  - apply (ring_keeps_its_shape [Push "a"; Push "b"; Push "c"; Push "d"; Pop]%char
             (mkFifo (replicate 4 NUL) 0 0 4)).
    unfold wf. cbn. lia.
  - apply (ring_keeps_its_shape [] (mkFifo (replicate 4 NUL) 2 2 4)).
    + unfold wf. cbn. lia.
    + reflexivity.
Defined.

Lemma SET_FLAG_twice fl flag :
  0 <= fl < 256 -> flag = CLI_FLAG_OVERFLOW ->
  SET_FLAG (SET_FLAG fl flag) flag = SET_FLAG fl flag.
Proof.
  intros Hfl ->.
  match goal with
  | |- ?l = ?r =>
      let P := eval pattern fl in (l =? r) in
      match P with
      | ?Q fl => apply Z.eqb_eq; apply (byte_cases Q); [vm_compute; reflexivity|exact Hfl]
      end
  end.
Qed.

Lemma set_same cli : set_flags (flags cli) (set_rxBuffer (rxBuffer cli) cli) = cli.
Proof. destruct cli; reflexivity. Qed.

(** Bytes received beyond the room of the ring are dropped: the ring keeps
    the oldest [size - 1] bytes, the overflow flag is raised exactly when
    a byte was dropped, and nothing else in the engine changes. *)
Theorem receive_keeps_oldest s : forall cli,
  wf (rxBuffer cli) -> 0 <= flags cli < 256 ->
  exists rx,
    receiveString cli s =
      set_flags
        (if size (rxBuffer cli) - 1 <? Z.of_nat (length (contents (rxBuffer cli)) + length s)
         then SET_FLAG (flags cli) CLI_FLAG_OVERFLOW else flags cli)
        (set_rxBuffer rx cli) /\
    wf rx /\ size rx = size (rxBuffer cli) /\
    contents rx =
      take (Z.to_nat (size (rxBuffer cli) - 1)) (contents (rxBuffer cli) ++ s).
Proof.
  induction s as [|c s IH]; intros cli Hwf Hfl.
  - exists (rxBuffer cli). cbn [receiveString foldl length].
    pose proof (available_range _ Hwf) as Hav.
    pose proof (length_contents (rxBuffer cli)) as Hl.
    rewrite Nat.add_0_r, app_nil_r.
    destruct (Z.ltb_spec (size (rxBuffer cli) - 1)
                (Z.of_nat (length (contents (rxBuffer cli))))); [lia|].
    rewrite set_same. refine (conj eq_refl (conj Hwf (conj eq_refl _))).
    symmetry. apply take_ge. lia.
  - unfold receiveString in *. cbn [foldl length].
    pose proof (push_spec (rxBuffer cli) c Hwf) as Hp.
    pose proof (length_contents (rxBuffer cli)) as Hl.
    pose proof (available_range _ Hwf) as Hav.
    unfold embeddedCliReceiveChar at 2.
    destruct (Z.ltb_spec (fifoBufAvailable (rxBuffer cli)) (size (rxBuffer cli) - 1)).
    + destruct Hp as (b' & -> & Hwf' & Hsz & Hc). cbn [negb].
      destruct (IH (set_rxBuffer b' cli)) as (rx & Hr & Hwfx & Hszx & Hcx); auto.
      cbn [rxBuffer set_rxBuffer flags] in *.
      exists rx. rewrite Hr, Hsz, Hc, length_app. cbn [length].
      replace (length (contents (rxBuffer cli)) + 1 + length s)%nat
        with (length (contents (rxBuffer cli)) + S (length s))%nat by lia.
      split; [destruct cli; reflexivity|].
      split; [exact Hwfx|]. split; [congruence|].
      rewrite Hcx, Hsz, Hc, <- app_assoc. reflexivity.
    + rewrite Hp. cbn [negb].
      set (cli1 := set_flags _ _).
      destruct (IH cli1) as (rx & Hr & Hwfx & Hszx & Hcx).
      { exact Hwf. }
      { apply SET_FLAG_range. }
      subst cli1. cbn [rxBuffer set_rxBuffer flags set_flags] in *.
      exists rx. rewrite Hr.
      assert (Hfull : Z.of_nat (length (contents (rxBuffer cli))) = size (rxBuffer cli) - 1)
        by lia.
      destruct (Z.ltb_spec (size (rxBuffer cli) - 1)
                  (Z.of_nat (length (contents (rxBuffer cli)) + S (length s)))); [|lia].
      split.
      { destruct (_ <? _); [rewrite SET_FLAG_twice by auto|]; destruct cli; reflexivity. }
      split; [exact Hwfx|]. split; [exact Hszx|].
      rewrite Hcx. rewrite !take_app_le by lia. reflexivity.
Qed.

Lemma receive_keeps_oldest_witness :
  contents (rxBuffer (receiveString testCli (replicate 60 "a"%char ++ str "bcdefg"))) =
    replicate 60 "a"%char ++ str "bcd" /\
  IS_FLAG_SET (flags (receiveString testCli (replicate 60 "a"%char ++ str "bcdefg")))
    CLI_FLAG_OVERFLOW = true.
Proof.
  destruct (receive_keeps_oldest (replicate 60 "a"%char ++ str "bcdefg") testCli)
    as (rx & Hr & _ & _ & Hc).
  - unfold wf. vm_compute. repeat split; try reflexivity; try discriminate.
  - vm_compute. split; [discriminate|reflexivity].
  - rewrite Hr. cbn [rxBuffer flags set_flags set_rxBuffer]. split.
    + rewrite Hc. vm_compute. reflexivity.
    + vm_compute. reflexivity.
Defined.

(** One processing call handles every byte of the ring once, in the order
    of arrival, and leaves the ring empty. *)
Theorem process_drains_in_order cli :
  wf (rxBuffer cli) ->
  exists rx,
    embeddedCliProcess cli =
      set_rxBuffer rx
        (finishProcess (foldl processChar (startProcess cli) (contents (rxBuffer cli)))) /\
    wf rx /\ size rx = size (rxBuffer cli) /\ contents rx = [] /\
    fifoBufAvailable rx = 0.
Proof.
  intros Hwf. destruct (process_spec cli Hwf) as (rx & Hp & Hwfx & Hsz & Hc).
  exists rx. refine (conj Hp (conj Hwfx (conj Hsz (conj Hc _)))).
  pose proof (length_contents rx) as Hl. rewrite Hc in Hl. cbn in Hl.
  pose proof (available_range rx Hwfx). lia.
Qed.

Lemma process_drains_in_order_witness :
  fifoBufAvailable (rxBuffer (embeddedCliProcess (receiveString testCli (str "set led")))) = 0 /\
  cmdSize (embeddedCliProcess (receiveString testCli (str "set led"))) = 7.
Proof.
  destruct (process_drains_in_order (receiveString testCli (str "set led")))
    as (rx & Hp & _ & _ & _ & Hav).
  - unfold wf. vm_compute. repeat split; try reflexivity; try discriminate.
  - rewrite Hp. cbn [rxBuffer set_rxBuffer]. split; [exact Hav|].
    vm_compute. reflexivity.
Defined.

End RingFacts.


Section RegistryFacts.
Import Fifo Tokens History Cli.

Lemma register_spec bs : forall cli,
  0 <= bindingsCount cli <= maxBindingsCount cli -> maxBindingsCount cli < 65536 ->
  maxBindingsCount cli <= Z.of_nat (length (bindings cli)) ->
  bindingsCount (register cli bs) =
    bindingsCount cli +
    Z.of_nat (Nat.min (length bs) (Z.to_nat (maxBindingsCount cli - bindingsCount cli))) /\
  maxBindingsCount (register cli bs) = maxBindingsCount cli /\
  length (bindings (register cli bs)) = length (bindings cli) /\
  take (Z.to_nat (bindingsCount cli) +
        Nat.min (length bs) (Z.to_nat (maxBindingsCount cli - bindingsCount cli)))
       (bindings (register cli bs)) =
    take (Z.to_nat (bindingsCount cli)) (bindings cli) ++
    take (Nat.min (length bs) (Z.to_nat (maxBindingsCount cli - bindingsCount cli))) bs.
Proof.
  induction bs as [|b bs IH]; intros cli Hc Hm Hl.
  - cbn [register foldl length Nat.min take]. rewrite Nat.add_0_r, app_nil_r.
    repeat split; lia.
  - unfold register in *. cbn [foldl length].
    unfold embeddedCliAddBinding at 2 4 6 8.
    destruct (Z.eqb_spec (bindingsCount cli) (maxBindingsCount cli)) as [E|E]; cbn [snd].
    + destruct (IH cli Hc Hm Hl) as (H1 & H2 & H3 & H4).
      replace (Z.to_nat (maxBindingsCount cli - bindingsCount cli)) with 0%nat in * by lia.
      rewrite Nat.min_0_r in *. auto.
    + set (cli1 := set_bindingsCount _ _).
      assert (Hw : wrap16 (bindingsCount cli + 1) = bindingsCount cli + 1)
        by (unfold wrap16; apply Z.mod_small; lia).
      destruct (IH cli1) as (H1 & H2 & H3 & H4);
        subst cli1; cbn [bindingsCount maxBindingsCount bindings set_bindings
                         set_bindingsCount] in *; rewrite ?Hw in *;
        rewrite ?length_insert; try lia.
      replace (Nat.min (S (length bs)) (Z.to_nat (maxBindingsCount cli - bindingsCount cli)))
        with (S (Nat.min (length bs)
                   (Z.to_nat (maxBindingsCount cli - (bindingsCount cli + 1))))) by lia.
      set (n := Nat.min _ _) in *.
      rewrite length_insert in H3.
      split; [lia|]. split; [exact H2|]. split; [exact H3|].
      replace (Z.to_nat (bindingsCount cli) + S n)%nat
        with (Z.to_nat (bindingsCount cli + 1) + n)%nat by lia.
      rewrite H4. cbn [take].
      replace (Z.to_nat (bindingsCount cli + 1)) with (S (Z.to_nat (bindingsCount cli))) by lia.
      rewrite (take_S_r _ _ b).
      * rewrite take_insert_ge by lia. now rewrite <- app_assoc.
      * apply list_lookup_insert_eq. lia.
Qed.

Lemma embeddedCliNew_registry P config m arena cli :
  embeddedCliNew P config m = Some (arena, cli) ->
  0 <= maxBindingCount config < 65535 ->
  bindingsCount cli = 1 /\ maxBindingsCount cli = maxBindingCount config + 1 /\
  length (bindings cli) = Z.to_nat (maxBindingCount config + 1) /\
  take 1 (bindings cli) = [helpBinding].
Proof.
  unfold embeddedCliNew. intros Hnew Hmax.
  assert (Hw : wrap16 (maxBindingCount config + cliInternalBindingCount)
               = maxBindingCount config + 1)
    by (unfold wrap16, cliInternalBindingCount; apply Z.mod_small; lia).
  rewrite Hw in Hnew.
  destruct (match cliBuffer config with
            | Some a => _
            | None => _
            end) as [[base allocated]|]; [|discriminate].
  inversion Hnew; subst; clear Hnew.
  unfold initInternalBindings, embeddedCliAddBinding.
  cbn [bindingsCount maxBindingsCount bindings].
  destruct (Z.eqb_spec 0 (maxBindingCount config + 1)); [lia|].
  cbn [snd bindings bindingsCount maxBindingsCount set_bindings set_bindingsCount].
  rewrite length_insert, length_replicate.
  replace (Z.to_nat (maxBindingCount config + 1))
    with (S (Z.to_nat (maxBindingCount config))) by lia.
  repeat split; reflexivity.
Qed.

(** The registry of a new engine holds the built-in binding followed by the
    registered bindings in the order of registration, up to
    [maxBindingCount] of them.  A registration beyond that is refused: it
    returns false and leaves the engine as it is. *)
Theorem registry_order_and_capacity P config m arena cli0 bs :
  embeddedCliNew P config m = Some (arena, cli0) ->
  0 <= maxBindingCount config < 65535 ->
  layoutFits P config ->
  take (Z.to_nat (bindingsCount (register cli0 bs))) (bindings (register cli0 bs)) =
    helpBinding :: take (Z.to_nat (maxBindingCount config)) bs /\
  forall b,
    embeddedCliAddBinding (register cli0 bs) b =
      if Z.of_nat (length bs) <? maxBindingCount config
      then (true, register cli0 (bs ++ [b]))
      else (false, register cli0 bs).
Proof.
  intros Hnew Hmax _.
  destruct (embeddedCliNew_registry _ _ _ _ _ Hnew Hmax) as (Hc & Hm & Hl & Ht).
  destruct (register_spec bs cli0) as (H1 & H2 & H3 & H4); try lia.
  rewrite Hc, Hm in *.
  replace (maxBindingCount config + 1 - 1) with (maxBindingCount config) in * by lia.
  set (n := Nat.min (length bs) (Z.to_nat (maxBindingCount config))) in *.
  split.
  - rewrite H1. replace (Z.to_nat (1 + Z.of_nat n)) with (Z.to_nat 1 + n)%nat by lia.
    rewrite H4. change (Z.to_nat 1) with 1%nat. rewrite Ht. cbn [app]. f_equal.
    unfold n. destruct (Nat.min_spec (length bs) (Z.to_nat (maxBindingCount config)))
      as [[Hlt ->]|[Hge ->]]; [|reflexivity].
    rewrite !take_ge by lia. reflexivity.
  - intros b.
    assert (Hsnd : register cli0 (bs ++ [b]) =
                   snd (embeddedCliAddBinding (register cli0 bs) b)).
    { unfold register. rewrite foldl_app. reflexivity. }
    rewrite Hsnd. unfold embeddedCliAddBinding. rewrite H1, H2.
    destruct (Z.ltb_spec (Z.of_nat (length bs)) (maxBindingCount config));
      destruct (Z.eqb_spec (1 + Z.of_nat n) (maxBindingCount config + 1));
      try reflexivity; lia.
Qed.

Lemma registry_order_and_capacity_witness :
  map name (take 3 (bindings (register (newCli (mkConfig 64 64 128 2 None 0))
     [userHelp; userGo; mkBinding (str "late") None false 0 None]))) =
    [str "help"; str "help"; str "go"] /\
  fst (embeddedCliAddBinding (register (newCli (mkConfig 64 64 128 2 None 0))
     [userHelp; userGo]) userHelp) = false.
Proof.
  assert (Hmax : 0 <= maxBindingCount (mkConfig 64 64 128 2 None 0) < 65535) by (cbn; lia).
  assert (Hfit : layoutFits testPlatform (mkConfig 64 64 128 2 None 0))
    by (unfold layoutFits; repeat split; vm_compute; try reflexivity; discriminate).
  destruct (registry_order_and_capacity testPlatform (mkConfig 64 64 128 2 None 0)
              (Some 4096) (carve testPlatform (mkConfig 64 64 128 2 None 0) 4096)
              (newCli (mkConfig 64 64 128 2 None 0))
              [userHelp; userGo; mkBinding (str "late") None false 0 None]
              eq_refl Hmax Hfit) as (H & _).
  destruct (registry_order_and_capacity testPlatform (mkConfig 64 64 128 2 None 0)
              (Some 4096) (carve testPlatform (mkConfig 64 64 128 2 None 0) 4096)
              (newCli (mkConfig 64 64 128 2 None 0))
              [userHelp; userGo] eq_refl Hmax Hfit) as (_ & H').
  split.
  - assert (H3 : bindingsCount (register (newCli (mkConfig 64 64 128 2 None 0))
                   [userHelp; userGo; mkBinding (str "late") None false 0 None]) = 3)
      by (vm_compute; reflexivity).
    rewrite H3 in H. change (Z.to_nat 3) with 3%nat in H. rewrite H.
    vm_compute. reflexivity.
  - rewrite H'. reflexivity.
Defined.

End RegistryFacts.

Section LifeCycleFacts.
Import Fifo Tokens History Cli.















(** A configuration with a null buffer cannot be used twice as it is:
    [embeddedCliNew] has stored the block of the first engine in it, so the
    second call takes that block for the caller's buffer.  It fails when
    [cliBufferSize] is below the required size, and otherwise builds the
    second engine on top of the first one. *)
Theorem config_reuse_takes_first_block P config a arena cli m2 :
  cliBuffer config = None ->
  embeddedCliNew P config (Some a) = Some (arena, cli) ->
  layoutFits P config ->
  embeddedCliNew P (configAfterNew config (Some a)) m2 =
    if cliBufferSize config <? embeddedCliRequiredSize P config then None
    else Some (arena, set_flags 0 cli).
Proof.
  intros Hnull Hnew _. unfold configAfterNew. rewrite Hnull.
  unfold embeddedCliNew in *. rewrite Hnull in Hnew.
  cbn [cliBuffer cliBufferSize rxBufferSize cmdBufferSize maxBindingCount].
  change (embeddedCliRequiredSize P (mkConfig _ _ _ _ _ _))
    with (embeddedCliRequiredSize P config).
  destruct (_ <? _); [reflexivity|].
  inversion Hnew; subst; clear Hnew. f_equal. f_equal.
  unfold initInternalBindings, embeddedCliAddBinding.
  cbn [bindingsCount maxBindingsCount]. destruct (_ =? _); reflexivity.
Qed.

Lemma config_reuse_takes_first_block_witness :
  embeddedCliNew testPlatform (configAfterNew embeddedCliDefaultConfig (Some 4096)) (Some 8192)
  = None.
Proof.
  assert (Hfit : layoutFits testPlatform embeddedCliDefaultConfig)
    by (unfold layoutFits; repeat split; vm_compute; try reflexivity; discriminate).
  rewrite (config_reuse_takes_first_block testPlatform embeddedCliDefaultConfig 4096
             (carve testPlatform embeddedCliDefaultConfig 4096)
             (newCli embeddedCliDefaultConfig) (Some 8192) eq_refl eq_refl Hfit).
  reflexivity.
Defined.

Lemma process_idle cli :
  fifoBufAvailable (rxBuffer cli) = 0 ->
  embeddedCliProcess cli = finishProcess (startProcess cli).
Proof.
  intros H0. rewrite embeddedCliProcess_parts, startProcess_rxBuffer, H0. reflexivity.
Qed.

Lemma writes_callWriteChar cli c :
  writeChar cli = true ->
  output (callWriteChar cli c) = output cli ++ [c] /\
  writeChar (callWriteChar cli c) = true /\ fault (callWriteChar cli c) = fault cli.
Proof. intros Hw. unfold callWriteChar. rewrite Hw. auto. Qed.

Lemma writes_writeToOutput s : forall cli,
  writeChar cli = true ->
  output (writeToOutput cli s) = output cli ++ s /\
  writeChar (writeToOutput cli s) = true /\ fault (writeToOutput cli s) = fault cli.
Proof.
  induction s as [|c s IH]; intros cli Hw.
  - cbn. now rewrite app_nil_r.
  - unfold writeToOutput in *. cbn [foldl].
    destruct (writes_callWriteChar cli c Hw) as (Ho & Hw' & Hf).
    destruct (IH _ Hw') as (Ho2 & Hw2 & Hf2).
    rewrite Ho2, Hf2, Ho, Hf, <- app_assoc. auto.
Qed.

(** The invitation is printed by the first processing call and by no
    later one: after any number of processing calls without input, an
    engine that had not been processed before has printed the invitation
    once, has dispatched nothing and has taken no undefined step. *)
Theorem invitation_printed_once cli n :
  fifoBufAvailable (rxBuffer cli) = 0 ->
  writeChar cli = true ->
  0 <= flags cli < 256 ->
  IS_FLAG_SET (flags cli) CLI_FLAG_INIT_COMPLETE = false ->
  IS_FLAG_SET (flags cli) CLI_FLAG_OVERFLOW = false ->
  output (Nat.iter (S n) embeddedCliProcess cli) = output cli ++ invitation cli /\
  events (Nat.iter (S n) embeddedCliProcess cli) = events cli /\
  fault (Nat.iter (S n) embeddedCliProcess cli) = fault cli /\
  cmdSize (Nat.iter (S n) embeddedCliProcess cli) = cmdSize cli.
Proof.
  intros Hav Hw Hfl Hinit Hov.
  destruct (startProcess_flags cli Hfl) as (Hr & Hinit' & Hov' & _).
  assert (H1 : embeddedCliProcess cli = startProcess cli).
  { rewrite process_idle by exact Hav. apply finishProcess_clear. congruence. }
  assert (Hfix : embeddedCliProcess (startProcess cli) = startProcess cli).
  { rewrite process_idle by (rewrite startProcess_rxBuffer; exact Hav).
    rewrite (startProcess_started _ Hinit'). apply finishProcess_clear. congruence. }
  assert (Hiter : Nat.iter (S n) embeddedCliProcess cli = startProcess cli).
  { induction n as [|n IH]; [exact H1|].
    change (Nat.iter (S (S n)) embeddedCliProcess cli)
      with (embeddedCliProcess (Nat.iter (S n) embeddedCliProcess cli)).
    rewrite IH. exact Hfix. }
  rewrite Hiter.
  destruct (startProcess_fields cli) as (He & _ & Hs & _).
  refine (conj _ (conj He (conj _ Hs))).
  - unfold startProcess. rewrite Hinit. cbn [negb].
    destruct (writes_writeToOutput
                (invitation (set_flags (SET_FLAG (flags cli) CLI_FLAG_INIT_COMPLETE) cli))
                (set_flags (SET_FLAG (flags cli) CLI_FLAG_INIT_COMPLETE) cli) Hw)
      as (Ho & _). exact Ho.
  - apply (startProcess_defined cli Hw).
Qed.

Lemma invitation_printed_once_witness :
  output (Nat.iter 2 embeddedCliProcess testCli) = str "> " /\
  events (Nat.iter 2 embeddedCliProcess testCli) = [].
Proof.
  assert (Hfl : 0 <= flags testCli < 256) by (vm_compute; split; [discriminate|reflexivity]).
  assert (Hav : fifoBufAvailable (rxBuffer testCli) = 0) by (vm_compute; reflexivity).
  assert (Hw : writeChar testCli = true) by (vm_compute; reflexivity).
  assert (Hi : IS_FLAG_SET (flags testCli) CLI_FLAG_INIT_COMPLETE = false)
    by (vm_compute; reflexivity).
  assert (Ho : IS_FLAG_SET (flags testCli) CLI_FLAG_OVERFLOW = false)
    by (vm_compute; reflexivity).
  destruct (invitation_printed_once testCli 1 Hav Hw Hfl Hi Ho) as (Hout & Hev & _).
  rewrite Hout, Hev. split; vm_compute; reflexivity.
Defined.

End LifeCycleFacts.
